(** * CDC latest-state resolution (tools/utils.py)

    A shallow embedding of the silver-layer helpers of the lakehouse:
    [dedup_by], [normalize_cdc_latest] and [normalize_ascii_lower], together
    with the part of the DataFrame API they call ([dropDuplicates],
    [Window.partitionBy(..).orderBy(..)], [row_number().over(..)],
    [withColumn], [filter], [drop], [trim], [lower], [translate]).

    A DataFrame is a schema (ordered column names) and a list of rows; the
    order of that list stands for the order in which the execution engine
    happens to hold the rows.  Python exceptions are values of [result].
    Cells hold integers, strings or NULL, and a frame carries no table alias:
    columns of a complex type (ARRAY, MAP, STRUCT) and qualified column
    references are outside the model.

    The CDC part of the data generator (tools/generate_data.py:
    [duplicate_rows], [maybe_pad_spaces], [attach_insert_cdc],
    [make_updates_deletes]) is embedded over a [Runtime] that stands for
    Python's floats, its [random] module and [strftime]; dates and times
    are numbers within the range of [datetime], and the exceptions of
    [int] and of date arithmetic are part of the model. *)

From Stdlib Require Import ZArith NArith List String Ascii Bool Lia Permutation.
From Stdlib Require Import OrderedTypeEx DecimalString.
Import ListNotations.
Local Open Scope string_scope.
Local Open Scope Z_scope.
Local Open Scope list_scope.

(** ** Values, cells, rows *)

(** Integers cover the integral types and timestamps (microseconds since the
    epoch, as the engine stores them); strings are UTF-8 byte strings, which
    the engine compares bytewise. *)
Inductive value : Type :=
| VInt (n : Z)
| VStr (s : string).

(** A cell is a nullable value: [None] is SQL NULL. *)
Definition cell : Type := option value.
Definition row : Type := list cell.

Record DataFrame : Type := mkDataFrame {
  columns : list string;
  rows : list row
}.

(** Every row has one cell per column of the schema. *)
Definition well_formed (df : DataFrame) : Prop :=
  Forall (fun r : row => List.length r = List.length (columns df)) (rows df).

Definition value_eqb (a b : value) : bool :=
  match a, b with
  | VInt x, VInt y => Z.eqb x y
  | VStr x, VStr y => String.eqb x y
  | _, _ => false
  end.

(** Null-safe equality: the one grouping, partitioning and duplicate
    elimination use (NULL is equal to NULL). *)
Definition cell_eqb (a b : cell) : bool :=
  match a, b with
  | None, None => true
  | Some x, Some y => value_eqb x y
  | _, _ => false
  end.

Fixpoint cells_eqb (r1 r2 : list cell) : bool :=
  match r1, r2 with
  | [], [] => true
  | a :: r1', b :: r2' => cell_eqb a b && cells_eqb r1' r2'
  | _, _ => false
  end.

(** Natural order of values.  A column holds values of one type, so the two
    mixed cases never meet inside a column; they are fixed so that the
    comparison stays total. *)
Definition value_compare (a b : value) : comparison :=
  match a, b with
  | VInt x, VInt y => Z.compare x y
  | VStr x, VStr y => String.compare x y
  | VInt _, VStr _ => Lt
  | VStr _, VInt _ => Gt
  end.

(** ** Exceptions *)

(** [Py4JJavaError] is what a Java exception other than an analysis error
    becomes on the Python side. *)
Inductive exn : Type :=
| TypeError (msg : string)
| AnalysisException (msg : string)
| Py4JJavaError (msg : string).

Inductive result (A : Type) : Type :=
| Ok (a : A)
| Raise (e : exn).
Arguments Ok {A} a.
Arguments Raise {A} e.

Definition bind {A B : Type} (m : result A) (k : A -> result B) : result B :=
  match m with
  | Ok a => k a
  | Raise e => Raise e
  end.

Notation "x <- m ;; k" := (bind m (fun x => k))
  (at level 61, m at next level, right associativity).
Notation "m ;;; k" := (bind m (fun _ => k))
  (at level 61, right associativity).

(** A list comprehension whose body can raise: elements are evaluated from
    left to right and the first exception aborts the comprehension. *)
Fixpoint comprehension {A B : Type} (f : A -> result B) (l : list A)
  : result (list B) :=
  match l with
  | [] => Ok []
  | a :: l' => b <- f a ;; bs <- comprehension f l' ;; Ok (b :: bs)
  end.

(** ** Column name resolution *)

(** The session's resolver decides whether an existing column name answers to
    a requested one: exact match under [spark.sql.caseSensitive], match up to
    letter case by default. *)
Class Resolver : Type := {
  resolver : string -> string -> bool;
  resolver_refl : forall a, resolver a a = true
}.

Definition ascii_lower (c : ascii) : ascii :=
  let n := N_of_ascii c in
  if (65 <=? n)%N && (n <=? 90)%N then ascii_of_N (n + 32) else c.

Fixpoint string_lower (s : string) : string :=
  match s with
  | EmptyString => EmptyString
  | String c s' => String (ascii_lower c) (string_lower s')
  end.

(** Exact resolution ([spark.sql.caseSensitive = true]). *)
Program Definition caseSensitiveResolution : Resolver :=
  {| resolver := String.eqb |}.
Next Obligation. apply String.eqb_refl. Qed.

(** Case-insensitive resolution (the session default), for names written in
    ASCII. *)
Program Definition caseInsensitiveResolution : Resolver :=
  {| resolver := fun a b => String.eqb (string_lower a) (string_lower b) |}.
Next Obligation. apply String.eqb_refl. Qed.

(** *** Column references *)

(** What [Column(name)] stands for until it is analysed: a star, or an
    attribute given by the parts of its name. *)
Inductive Expression : Type :=
| UnresolvedStar (target : option (list string))
| UnresolvedAttribute (nameParts : list string).

Definition backtick : ascii := "`"%char.
Definition dot : ascii := "."%char.

Definition attributeNameSyntaxError : exn :=
  AnalysisException "syntax error in attribute name".

(** The loop of [UnresolvedAttribute.parseAttributeName] over the characters
    from position [i] on: [prev] is the character at [i - 1], if any; [tmp]
    and [nameParts] are the two buffers.  Dots separate parts, backticks
    quote a part, and a doubled backtick inside a quoted part is a backtick.
    The test for a dot reads the character before it, which a name that
    starts with a dot does not have. *)
Fixpoint parse_loop (prev : option ascii) (inBacktick : bool) (tmp : string)
    (nameParts : list string) (rest : string) : result (list string) :=
  match rest with
  | EmptyString =>
      if inBacktick then Raise attributeNameSyntaxError
      else Ok (nameParts ++ [tmp])
  | String char rest' =>
      if inBacktick then
        if Ascii.eqb char backtick then
          match rest' with
          | EmptyString => parse_loop (Some char) false tmp nameParts rest'
          | String next rest'' =>
              if Ascii.eqb next backtick then
                parse_loop (Some next) true
                           (String.append tmp (String backtick EmptyString))
                           nameParts rest''
              else if Ascii.eqb next dot then
                parse_loop (Some char) false tmp nameParts rest'
              else Raise attributeNameSyntaxError
          end
        else
          parse_loop (Some char) true
                     (String.append tmp (String char EmptyString))
                     nameParts rest'
      else if Ascii.eqb char backtick then
        match tmp with
        | EmptyString => parse_loop (Some char) true tmp nameParts rest'
        | String _ _ => Raise attributeNameSyntaxError
        end
      else if Ascii.eqb char dot then
        match prev with
        | None => Raise (Py4JJavaError "java.lang.StringIndexOutOfBoundsException")
        | Some before =>
            if Ascii.eqb before dot then Raise attributeNameSyntaxError
            else
              match rest' with
              | EmptyString => Raise attributeNameSyntaxError
              | String _ _ =>
                  parse_loop (Some char) false EmptyString
                             (nameParts ++ [tmp]) rest'
              end
        end
      else
        parse_loop (Some char) false
                   (String.append tmp (String char EmptyString))
                   nameParts rest'
  end.

Definition parseAttributeName (name : string) : result (list string) :=
  parse_loop None false EmptyString [] name.

(** [name.endsWith(".*")] and [name.substring(0, name.length - 2)] *)
Fixpoint ends_with_dot_star (name : string) : bool :=
  match name with
  | EmptyString => false
  | String c name' =>
      match name' with
      | String c' EmptyString => Ascii.eqb c dot && Ascii.eqb c' "*"%char
      | _ => ends_with_dot_star name'
      end
  end.

Definition without_dot_star (name : string) : string :=
  substring 0 (String.length name - 2) name.

(** The constructor [Column(name)] behind [F.col(name)] and behind a name
    given to [Window.partitionBy]. *)
Definition column_expr (name : string) : result Expression :=
  if String.eqb name "*" then Ok (UnresolvedStar None)
  else if ends_with_dot_star name then
    parts <- parseAttributeName (without_dot_star name) ;;
    Ok (UnresolvedStar (Some parts))
  else
    parts <- parseAttributeName name ;;
    Ok (UnresolvedAttribute parts).

(** The column a reference asks for, when its name has one part: the name
    itself, unless backticks quote it. *)
Definition attribute (name : string) : string :=
  match column_expr name with
  | Ok (UnresolvedAttribute [part]) => part
  | _ => name
  end.

(** A name without dots and backticks, other than the star: the reference
    asks for the column of that name. *)
Fixpoint no_special (name : string) : bool :=
  match name with
  | EmptyString => true
  | String c name' =>
      negb (Ascii.eqb c backtick) && negb (Ascii.eqb c dot) && no_special name'
  end.

Definition plain_name (name : string) : bool :=
  no_special name && negb (String.eqb name "*").

Section DataFrameAPI.

Context {R : Resolver}.

(** The columns of a schema that answer to [name]. *)
Definition matching (name : string) (cols : list string) : list string :=
  filter (fun c => resolver c name) cols.

(** Analysis of a reference [F.col(name)] against a schema: the name is
    parsed into its parts; the first part has to answer to exactly one
    column, and further parts ask for a field of that column, which a column
    of integers or strings does not have. *)
Definition resolve (cols : list string) (name : string) : result unit :=
  e <- column_expr name ;;
  match e with
  | UnresolvedStar _ =>
      Raise (AnalysisException "INVALID_USAGE_OF_STAR_OR_REGEX")
  | UnresolvedAttribute [] => Raise (AnalysisException "UNRESOLVED_COLUMN")
  | UnresolvedAttribute (part :: nested) =>
      match matching part cols with
      | [] => Raise (AnalysisException "UNRESOLVED_COLUMN")
      | [_] =>
          match nested with
          | [] => Ok tt
          | _ :: _ => Raise (AnalysisException "INVALID_EXTRACT_BASE_FIELD_TYPE")
          end
      | _ :: _ :: _ => Raise (AnalysisException "AMBIGUOUS_REFERENCE")
      end
  end.

(** The cell of [r] under the first column that answers to the plain name
    [part]. *)
Fixpoint cell_at (cols : list string) (part : string) (r : row) : cell :=
  match cols, r with
  | c :: cols', x :: r' =>
      if resolver c part then x else cell_at cols' part r'
  | _, _ => None
  end.

(** The value of the reference [F.col(name)] in row [r]. *)
Definition cell_of (cols : list string) (name : string) (r : row) : cell :=
  cell_at cols (attribute name) r.

(** All cells of [r] that sit under a column answering to [name]. *)
Fixpoint cells_of (cols : list string) (name : string) (r : row) : list cell :=
  match cols, r with
  | c :: cols', x :: r' =>
      if resolver c name then x :: cells_of cols' name r'
      else cells_of cols' name r'
  | _, _ => []
  end.

Definition project (cols : list string) (subset : list string) (r : row)
  : list cell :=
  flat_map (fun name => cells_of cols name r) subset.

(** *** dropDuplicates *)

(** One row of every class of [same].  Which row of a class the engine
    keeps, and in which order it returns the classes, is not specified; the
    model keeps the row it holds first and the order it holds the rows in. *)
Fixpoint distinct {A : Type} (same : A -> A -> bool) (l : list A) : list A :=
  match l with
  | [] => []
  | x :: l' => x :: filter (fun y => negb (same x y)) (distinct same l')
  end.

Definition same_on (cols subset : list string) (r1 r2 : row) : bool :=
  cells_eqb (project cols subset r1) (project cols subset r2).

Definition check_subset (cols : list string) (subset : list string)
  : result unit :=
  comprehension
    (fun name =>
       match matching name cols with
       | [] => Raise (AnalysisException "UNRESOLVED_COLUMN")
       | _ :: _ => Ok tt
       end) subset
  ;;; Ok tt.

(** [df.dropDuplicates(subset)]: the names of [subset] are compared with the
    column names as they are, and every column that answers to one of them
    takes part in the comparison. *)
Definition dropDuplicates (df : DataFrame) (subset : list string)
  : result DataFrame :=
  check_subset (columns df) subset ;;;
  Ok (mkDataFrame (columns df)
        (distinct (same_on (columns df) subset) (rows df))).

(** *** Sort orders and window specifications *)

(** [F.col(name)]; the name is parsed when the reference is analysed
    against a frame. *)
Inductive Column : Type :=
| col (name : string).

Inductive SortDirection : Type := Ascending | Descending.
Inductive NullOrdering : Type := NullsFirst | NullsLast.

Record SortOrder : Type := mkSortOrder {
  child : Column;
  direction : SortDirection;
  null_ordering : NullOrdering
}.

(** The ordering methods of a [Column] object, by name; the code under
    study calls no other method on a column. *)
Definition column_methods : list (string * (Column -> SortOrder)) :=
  [ ("asc", fun c => mkSortOrder c Ascending NullsFirst);
    ("asc_nulls_first", fun c => mkSortOrder c Ascending NullsFirst);
    ("asc_nulls_last", fun c => mkSortOrder c Ascending NullsLast);
    ("desc", fun c => mkSortOrder c Descending NullsLast);
    ("desc_nulls_first", fun c => mkSortOrder c Descending NullsFirst);
    ("desc_nulls_last", fun c => mkSortOrder c Descending NullsLast) ].

Fixpoint lookup_method (name : string)
    (table : list (string * (Column -> SortOrder)))
  : option (Column -> SortOrder) :=
  match table with
  | [] => None
  | (m, f) :: table' =>
      if String.eqb m name then Some f else lookup_method name table'
  end.

(** [c.name()]: attribute lookup followed by a call.  A name that is not a
    method falls to [Column.__getattr__], which yields a field-access
    [Column]; calling that object raises. *)
Definition call_method (c : Column) (name : string) : result SortOrder :=
  match lookup_method name column_methods with
  | Some f => Ok (f c)
  | None => Raise (TypeError "'Column' object is not callable")
  end.

Record WindowSpec : Type := mkWindowSpec {
  partition_by : list string;
  order_by : list SortOrder
}.

Definition partitionBy (key : string) : WindowSpec := mkWindowSpec [key] [].
Definition orderBy (w : WindowSpec) (os : list SortOrder) : WindowSpec :=
  mkWindowSpec (partition_by w) os.

Definition eval (cols : list string) (c : Column) (r : row) : cell :=
  match c with
  | col name => cell_of cols name r
  end.

(** [Lt]: the first cell sorts before the second. *)
Definition compare_cells (o : SortOrder) (a b : cell) : comparison :=
  match a, b with
  | None, None => Eq
  | None, Some _ =>
      match null_ordering o with NullsFirst => Lt | NullsLast => Gt end
  | Some _, None =>
      match null_ordering o with NullsFirst => Gt | NullsLast => Lt end
  | Some x, Some y =>
      match direction o with
      | Ascending => value_compare x y
      | Descending => value_compare y x
      end
  end.

(** Lexicographic comparison under a list of sort orders. *)
Fixpoint compare_rows (cols : list string) (os : list SortOrder)
    (r1 r2 : row) : comparison :=
  match os with
  | [] => Eq
  | o :: os' =>
      match compare_cells o (eval cols (child o) r1) (eval cols (child o) r2) with
      | Eq => compare_rows cols os' r1 r2
      | c => c
      end
  end.

(** The engine's sort keeps tied rows in the order it holds them. *)
Fixpoint insert_sorted {A : Type} (cmp : A -> A -> comparison) (x : A)
    (l : list A) : list A :=
  match l with
  | [] => [x]
  | y :: l' =>
      match cmp x y with
      | Gt => y :: insert_sorted cmp x l'
      | _ => x :: l
      end
  end.

Fixpoint sort {A : Type} (cmp : A -> A -> comparison) (l : list A) : list A :=
  match l with
  | [] => []
  | x :: l' => insert_sorted cmp x (sort cmp l')
  end.

(** One partition per distinct key, in order of first appearance, each
    holding the rows of its key. *)
Definition partition_key (cols : list string) (w : WindowSpec) (r : row)
  : list cell :=
  project cols (map attribute (partition_by w)) r.

Definition partitions (cols : list string) (w : WindowSpec) (rs : list row)
  : list (list row) :=
  map (fun k => filter (fun r => cells_eqb (partition_key cols w r) k) rs)
      (distinct cells_eqb (map (partition_key cols w) rs)).

(** [row_number()]: consecutive numbers from [n] along a sorted partition. *)
Fixpoint number_rows (n : Z) (l : list row) : list (row * cell) :=
  match l with
  | [] => []
  | r :: l' => (r, Some (VInt n)) :: number_rows (n + 1) l'
  end.

Inductive WindowFunction : Type := row_number.

Definition over (f : WindowFunction) (w : WindowSpec)
  : WindowFunction * WindowSpec := (f, w).

Definition check_window (cols : list string) (w : WindowSpec) : result unit :=
  comprehension (resolve cols) (partition_by w) ;;;
  comprehension (fun o => match child o with col n => resolve cols n end)
                (order_by w) ;;;
  Ok tt.

(** The rows of the frame, partition after partition, each with the value of
    the window expression. *)
Definition evaluate_window (cols : list string)
    (e : WindowFunction * WindowSpec) (rs : list row) : list (row * cell) :=
  let '(row_number, w) := e in
  flat_map (fun p => number_rows 1 (sort (compare_rows cols (order_by w)) p))
           (partitions cols w rs).

(** *** withColumn, filter, drop *)

(** Columns answering to [name] take the new value; with none, the value is
    appended as a new last column. *)
Fixpoint replace_cells (cols : list string) (name : string) (v : cell)
    (r : row) : row :=
  match cols, r with
  | c :: cols', x :: r' =>
      (if resolver c name then v else x) :: replace_cells cols' name v r'
  | _, _ => r
  end.

Definition withColumn (df : DataFrame) (name : string)
    (e : WindowFunction * WindowSpec) : result DataFrame :=
  check_window (columns df) (snd e) ;;;
  let computed := evaluate_window (columns df) e (rows df) in
  match matching name (columns df) with
  | [] =>
      Ok (mkDataFrame (columns df ++ [name])
            (map (fun rv => fst rv ++ [snd rv]) computed))
  | _ :: _ =>
      Ok (mkDataFrame
            (map (fun c => if resolver c name then name else c) (columns df))
            (map (fun rv => replace_cells (columns df) name (snd rv) (fst rv))
                 computed))
  end.

(** [df.filter(F.col(name) == v)]: a NULL cell never satisfies the test. *)
Definition filter_eq (df : DataFrame) (name : string) (v : value)
  : result DataFrame :=
  resolve (columns df) name ;;;
  Ok (mkDataFrame (columns df)
        (filter (fun r => cell_eqb (cell_of (columns df) name r) (Some v))
                (rows df))).

Fixpoint drop_cells (cols : list string) (name : string) (r : row) : row :=
  match cols, r with
  | c :: cols', x :: r' =>
      if resolver c name then drop_cells cols' name r'
      else x :: drop_cells cols' name r'
  | _, _ => r
  end.

(** [df.drop(name)]: no error when no column answers to [name]. *)
Definition drop (df : DataFrame) (name : string) : DataFrame :=
  mkDataFrame (filter (fun c => negb (resolver c name)) (columns df))
              (map (drop_cells (columns df) name) (rows df)).

(** ** tools/utils.py *)

(** [dedup_by(spark_session, df, *keys)]: an empty [keys] is falsy, so the
    subset is then every column of the frame. *)
Definition dedup_by (df : DataFrame) (keys : list string) : result DataFrame :=
  dropDuplicates df (match keys with [] => columns df | _ :: _ => keys end).


(** [normalize_cdc_latest(spark_session, df, key_col, seq_col, ts_col,
    tiebreakers)]; [tiebreakers] is [None] when the argument is omitted. *)
Definition normalize_cdc_latest (df : DataFrame) (key_col seq_col ts_col : string)
    (tiebreakers : option (list string)) : result DataFrame :=
  let tiebreakers := match tiebreakers with Some l => l | None => [] end in
  base <- dedup_by df [] ;;
  o_seq <- call_method (col seq_col) "desc_nulls_last" ;;
  o_ts <- call_method (col ts_col) "desc_nulls_last" ;;
  o_tie <- comprehension (fun c => call_method (col c) "desc_null_lasts")
                         tiebreakers ;;
  let order_exprs := [o_seq; o_ts] ++ o_tie in
  let w := orderBy (partitionBy key_col) order_exprs in
  ranked <- withColumn base "_rn" (over row_number w) ;;
  filtered <- filter_eq ranked "_rn" (VInt 1) ;;
  Ok (drop filtered "_rn").

End DataFrameAPI.

Arguments cell_of : simpl never.
Arguments attribute : simpl never.

(** ** Text normalisation *)

(** Character-level functions work on Unicode code points. *)
Definition codepoint : Type := N.
Definition text : Type := list codepoint.

Definition space : codepoint := 32%N.

Definition is_space (c : codepoint) : bool := N.eqb c space.

Fixpoint drop_leading (p : codepoint -> bool) (s : text) : text :=
  match s with
  | [] => []
  | c :: s' => if p c then drop_leading p s' else s
  end.

Definition drop_trailing (p : codepoint -> bool) (s : text) : text :=
  rev (drop_leading p (rev s)).

(** [F.trim]: strips the space character (U+0020) from both ends. *)
Definition ltrim (s : text) : text := drop_leading is_space s.
Definition rtrim (s : text) : text := drop_trailing is_space s.
Definition trim (s : text) : text := rtrim (ltrim s).

(** [F.translate]: the i-th character of [matching] maps to the i-th of
    [replace], or is deleted when [replace] is shorter; the first occurrence
    of a character in [matching] decides. *)
Fixpoint build_dict (matching replace : text)
  : list (codepoint * option codepoint) :=
  match matching with
  | [] => []
  | m :: matching' => (m, hd_error replace) :: build_dict matching' (tl replace)
  end.

Fixpoint dict_get (c : codepoint) (dict : list (codepoint * option codepoint))
  : option (option codepoint) :=
  match dict with
  | [] => None
  | (m, r) :: dict' => if N.eqb m c then Some r else dict_get c dict'
  end.

Definition translate_char (dict : list (codepoint * option codepoint))
    (c : codepoint) : text :=
  match dict_get c dict with
  | None => [c]
  | Some None => []
  | Some (Some r) => [r]
  end.

Definition translate (s matching replace : text) : text :=
  flat_map (translate_char (build_dict matching replace)) s.

(** The two string literals of [normalize_ascii_lower]. *)
Definition accented : text := [225; 233; 237; 243; 250; 252; 241]%N.
Definition unaccented : text := [97; 101; 105; 111; 117; 117; 110]%N.

Section TextNormalizer.

(** [F.lower]: the platform's lower-casing of a whole string; its Unicode
    case table is not part of the repository. *)
Variable lower : text -> text.

(** [normalize_ascii_lower(col)], on one cell of the column; a NULL cell
    stays NULL. *)
Definition normalize_ascii_lower (c : option text) : option text :=
  option_map (fun s => translate (lower (trim s)) accented unaccented) c.

(** *** The normaliser as the specification words it *)

(** Unicode White_Space. *)
Definition is_whitespace (c : codepoint) : bool :=
  ((9 <=? c) && (c <=? 13) || (c =? 32) || (c =? 133) || (c =? 160)
   || (c =? 5760) || (8192 <=? c) && (c <=? 8202) || (c =? 8232)
   || (c =? 8233) || (c =? 8239) || (c =? 8287) || (c =? 12288))%N.

Definition strip (s : text) : text :=
  drop_trailing is_whitespace (drop_leading is_whitespace s).

(** The static character map: a', e', i', o', u', u-diaeresis, n-tilde. *)
Definition fold_accent (c : codepoint) : codepoint :=
  match c with
  | 225 => 97
  | 233 => 101
  | 237 => 105
  | 243 => 111
  | 250 => 117
  | 252 => 117
  | 241 => 110
  | _ => c
  end%N.

Definition normalize_spec (s : text) : text :=
  map fold_accent (lower (strip s)).

End TextNormalizer.

(** Whether the first, or the last, character of a text satisfies [p]. *)
Definition starts_with (p : codepoint -> bool) (s : text) : bool :=
  match s with
  | [] => false
  | c :: _ => p c
  end.

Definition ends_with (p : codepoint -> bool) (s : text) : bool :=
  starts_with p (rev s).

(** [core] between [n] leading and [m] trailing spaces. *)
Definition padded (n : nat) (core : text) (m : nat) : text :=
  repeat space n ++ core ++ repeat space m.

(** Lower-casing on Basic Latin and Latin-1, for running examples. *)
Definition latin1_lower_char (c : codepoint) : codepoint :=
  (if (65 <=? c) && (c <=? 90) then c + 32
   else if (192 <=? c) && (c <=? 222) && negb (c =? 215) then c + 32
   else c)%N.

Definition latin1_lower (s : text) : text := map latin1_lower_char s.

(** ** Notions used to state the properties *)

Section Statements.

Context {R : Resolver}.

(** The window [normalize_cdc_latest] builds when no tiebreaker is given. *)
Definition cdc_window (key_col seq_col ts_col : string) : WindowSpec :=
  orderBy (partitionBy key_col)
          [ mkSortOrder (col seq_col) Descending NullsLast;
            mkSortOrder (col ts_col) Descending NullsLast ].

(** The rank-1 row of a partition, if the partition has a row. *)
Definition rank1 (cols : list string) (w : WindowSpec) (p : list row)
  : list row :=
  firstn 1 (sort (compare_rows cols (order_by w)) p).

(** The rank-1 rows of the de-duplicated batch, one partition after the other. *)
Definition winners (cols : list string) (w : WindowSpec) (rs : list row)
  : list row :=
  flat_map (rank1 cols w) (partitions cols w (distinct cells_eqb rs)).

(** What analysis of the window and of the rank column can raise. *)
Definition analyse (cols : list string) (w : WindowSpec) : result unit :=
  check_window cols w ;;;
  match matching "_rn" cols with
  | _ :: _ :: _ => Raise (AnalysisException "AMBIGUOUS_REFERENCE")
  | _ => Ok tt
  end.


(** [r1] outranks [r2] in the window's order. *)
Definition outranks (cols : list string) (w : WindowSpec) (r1 r2 : row) : Prop :=
  compare_rows cols (order_by w) r1 r2 = Lt.

(** Two rows of one key that differ as rows differ in [seq_col] or [ts_col]. *)
Definition no_ties (df : DataFrame) (key_col seq_col ts_col : string) : Prop :=
  forall r1 r2,
    In r1 (rows df) -> In r2 (rows df) ->
    cell_of (columns df) key_col r1 = cell_of (columns df) key_col r2 ->
    cell_of (columns df) seq_col r1 = cell_of (columns df) seq_col r2 ->
    cell_of (columns df) ts_col r1 = cell_of (columns df) ts_col r2 ->
    r1 = r2.

(** The number of ordering columns in which a row is NULL. *)
Definition null_count (cols : list string) (names : list string) (r : row) : nat :=
  List.length
    (filter (fun n => match cell_of cols n r with None => true | Some _ => false end)
            names).

End Statements.

(** What the sort needs of a three-way comparison. *)
Record total_preorder {A : Type} (cmp : A -> A -> comparison) : Prop := {
  cmp_antisym : forall x y, cmp y x = CompOpp (cmp x y);
  cmp_eq_l : forall x y z, cmp x y = Eq -> cmp x z = cmp y z;
  cmp_lt_trans : forall x y z, cmp x y = Lt -> cmp y z = Lt -> cmp x z = Lt
}.

(** Same exception, or frames with the same schema and the same rows up to
    their order. *)
Definition same_output (a b : result DataFrame) : Prop :=
  match a, b with
  | Ok x, Ok y => columns x = columns y /\ Permutation (rows x) (rows y)
  | Raise e, Raise e' => e = e'
  | _, _ => False
  end.

(** [add_duplicates l l']: [l'] is [l] with exact copies of rows it already
    holds inserted one after the other, each at any position. *)
Inductive add_duplicates : list row -> list row -> Prop :=
| add_none (l : list row) : add_duplicates l l
| add_copy (l pre post : list row) (r : row) :
    add_duplicates l (pre ++ post) -> In r (pre ++ post) ->
    add_duplicates l (pre ++ r :: post).

(** ** Example batches *)

Module Examples.

Definition int (n : Z) : cell := Some (VInt n).
Definition str (s : string) : cell := Some (VStr s).
Definition null : cell := None.

(** Timestamps in microseconds; [T0] is 2023-11-14 22:13:20 UTC. *)
Definition T0 : Z := 1700000000000000.
Definition day : Z := 86400000000.

Definition schema : list string :=
  ["id"; "op"; "seq_num"; "event_time"; "name"].

(** Two states of key K1 with the same [seq_num] and [event_time], and a
    column meant to break the tie. *)
Definition tiebreak_batch : DataFrame :=
  mkDataFrame ["id"; "op"; "seq_num"; "event_time"; "updated_at"]
    [ [str "K1"; str "U"; int 2; int T0; int 1];
      [str "K1"; str "U"; int 2; int T0; int 2] ].

(** Two rows of K1 tied on both ordering columns, in both arrival orders. *)
Definition tied_batch : DataFrame :=
  mkDataFrame schema
    [ [str "K1"; str "U"; int 2; int T0; str "a"];
      [str "K1"; str "U"; int 2; int T0; str "b"] ].

Definition tied_batch_permuted : DataFrame :=
  mkDataFrame schema
    [ [str "K1"; str "U"; int 2; int T0; str "b"];
      [str "K1"; str "U"; int 2; int T0; str "a"] ].

(** The tied batch with one more copy of its second row, held first. *)
Definition tied_batch_with_copy : DataFrame :=
  mkDataFrame schema
    [ [str "K1"; str "U"; int 2; int T0; str "b"];
      [str "K1"; str "U"; int 2; int T0; str "a"];
      [str "K1"; str "U"; int 2; int T0; str "b"] ].

(** Recency by sequence, with an exact duplicate of the latest state. *)
Definition update_batch : DataFrame :=
  mkDataFrame schema
    [ [str "K1"; str "I"; int 1; int T0; str "a"];
      [str "K1"; str "U"; int 2; int (T0 + day); str "b"];
      [str "K1"; str "U"; int 2; int (T0 + day); str "b"] ].

(** Delete retention: K2 is inserted, then deleted. *)
Definition delete_batch : DataFrame :=
  mkDataFrame schema
    [ [str "K2"; str "I"; int 1; int T0; str "c"];
      [str "K2"; str "D"; int 2; int (T0 + day); str "c"] ].

(** Two keys: K1 is inserted and updated, K2 is inserted and deleted; the
    update of K1 is the latest event of the batch. *)
Definition two_key_batch : DataFrame :=
  mkDataFrame schema
    [ [str "K1"; str "I"; int 1; int T0; str "a"];
      [str "K2"; str "I"; int 1; int T0; str "c"];
      [str "K1"; str "U"; int 5; int (T0 + 2 * day); str "b"];
      [str "K2"; str "D"; int 2; int (T0 + day); str "c"] ].

(** Null-last: A has no [seq_num] and the later [event_time], B has both. *)
Definition null_seq_batch : DataFrame :=
  mkDataFrame schema
    [ [str "K1"; str "U"; null; int (T0 + 5 * day); str "A"];
      [str "K1"; str "I"; int 1; int T0; str "B"] ].

(** X has the higher [seq_num] and no [event_time], Y has both columns. *)
Definition null_ts_batch : DataFrame :=
  mkDataFrame schema
    [ [str "K1"; str "U"; int 3; null; str "X"];
      [str "K1"; str "U"; int 2; int T0; str "Y"] ].


(** A batch that already has a column called [_rn]. *)
Definition rn_batch : DataFrame :=
  mkDataFrame ["id"; "seq_num"; "event_time"; "_rn"]
    [ [str "K1"; int 1; int T0; str "x"];
      [str "K1"; int 2; int (T0 + day); str "y"] ].

(** The two states of K1 in [update_batch]. *)
Definition update_states : list row :=
  [ [str "K1"; str "I"; int 1; int T0; str "a"];
    [str "K1"; str "U"; int 2; int (T0 + day); str "b"] ].

(** The rows the scenarios expect as latest state. *)
Definition update_latest : row :=
  [str "K1"; str "U"; int 2; int (T0 + day); str "b"].
Definition delete_latest : row :=
  [str "K2"; str "D"; int 2; int (T0 + day); str "c"].
Definition two_key_latest : list row :=
  [ [str "K1"; str "U"; int 5; int (T0 + 2 * day); str "b"]; delete_latest ].
Definition null_seq_A : row :=
  [str "K1"; str "U"; null; int (T0 + 5 * day); str "A"].
Definition null_seq_B : row := [str "K1"; str "I"; int 1; int T0; str "B"].
Definition null_ts_X : row := [str "K1"; str "U"; int 3; null; str "X"].
Definition null_ts_Y : row := [str "K1"; str "U"; int 2; int T0; str "Y"].

(** The session the examples run in. *)
Definition session : Resolver := caseInsensitiveResolution.

(** Text: tab, "A"; and two spaces, "A'rbol N~" (accented), one space. *)
Definition tab_A : text := [9; 65]%N.
Definition padded_arbol : text :=
  [32; 32; 193; 114; 98; 111; 108; 32; 209; 32]%N.

End Examples.

(** ** tools/generate_data.py *)

(** A float is a finite number, an infinity or a NaN. *)
Inductive float_class : Type := FFinite | FInfinite | FNaN.

(** What the generator takes from the Python runtime: floating-point
    numbers, the [random] module and [strftime].  A [rng] is a state of the
    pseudo-random generator; every draw returns its value and the next
    state. *)
Class Runtime : Type := {
  float : Type;
  rng : Type;
  (** a numeric literal, by its source text, as a float *)
  flit : string -> float;
  (** [x < y] and [x <= y] *)
  flt : float -> float -> bool;
  fle : float -> float -> bool;
  (** [x * y], [x + 1] and [round(x, 2)] *)
  fmul : float -> float -> float;
  fsucc : float -> float;
  round2 : float -> float;
  (** [float(n)] and [float(s)]; [None] when the conversion raises *)
  float_of_Z : Z -> option float;
  float_of_string : string -> option float;
  (** [bool(x)] *)
  float_truthy : float -> bool;
  (** whether [x] is finite, and [int(x)] for a finite [x] *)
  fclass : float -> float_class;
  trunc : float -> Z;
  (** [random.random()], [random.randint(a, b)], [random.uniform(a, b)] *)
  random : rng -> float * rng;
  randint : Z -> Z -> rng -> Z * rng;
  uniform : Z -> Z -> rng -> float * rng;
  (** [random.choice(l)]; the first argument stands in for an empty [l] *)
  choice : forall A : Type, A -> list A -> rng -> A * rng;
  (** [random.choices(options, weights=weights, k=1)[0]] *)
  choices : list string -> option (list float) -> rng -> string * rng;
  (** [random.sample(population, k)] *)
  sample : forall A : Type, list A -> nat -> rng -> list A * rng;
  (** [dt.strftime("%Y-%m-%d %H:%M:%S")], of a time in seconds *)
  strftime : Z -> string
}.

(** The exceptions the generator's CDC functions can raise. *)
Inductive pyerror : Type :=
| PyTypeError
| PyAttributeError
| PyOverflowError
| PyValueError.

Inductive outcome (S A : Type) : Type :=
| Returned (a : A) (s : S)
| Raised (e : pyerror).
Arguments Returned {S A} a s.
Arguments Raised {S A} e.

(** The values the generator stores in a row: [None], ints, strs (UTF-8)
    and floats. *)
Inductive pyvalue {RT : Runtime} : Type :=
| PyNone
| PyInt (n : Z)
| PyStr (s : string)
| PyFloat (f : float).

(** A computation that draws random numbers and may raise. *)
Definition Gen {RT : Runtime} (A : Type) : Type := rng -> outcome rng A.

Definition ret {RT : Runtime} {A : Type} (a : A) : Gen A :=
  fun g => Returned a g.

Definition raise {RT : Runtime} {A : Type} (e : pyerror) : Gen A :=
  fun _ => Raised e.

Definition gbind {RT : Runtime} {A B : Type} (m : Gen A) (k : A -> Gen B)
  : Gen B :=
  fun g =>
    match m g with
    | Returned a g' => k a g'
    | Raised e => Raised e
    end.

Definition draw {RT : Runtime} {A : Type} (f : rng -> A * rng) : Gen A :=
  fun g => Returned (fst (f g)) (snd (f g)).

Notation "'let*' x ':=' m 'in' k" := (gbind m (fun x => k))
  (at level 10, x name, m at level 100, k at level 200).

(** A value, or the exception raised instead of it. *)
Definition lift {RT : Runtime} {A : Type} (r : pyerror + A) : Gen A :=
  match r with
  | inl e => raise e
  | inr a => ret a
  end.

Section Generator.

Context {RT : Runtime}.

(** *** Rows as dicts *)

Definition pydict : Type := list (string * pyvalue).

(** [d.get(k)] *)
Fixpoint pyget (k : string) (d : pydict) : option pyvalue :=
  match d with
  | [] => None
  | (k', v) :: d' => if String.eqb k' k then Some v else pyget k d'
  end.

(** [d[k] = v]: an existing key keeps its place, a new key comes last. *)
Fixpoint pyset (k : string) (v : pyvalue) (d : pydict) : pydict :=
  match d with
  | [] => [(k, v)]
  | (k', v') :: d' =>
      if String.eqb k' k then (k', v) :: d' else (k', v') :: pyset k v d'
  end.

(** [{k: r[k] for k in r.keys()}] *)
Definition pycopy_items (r : pydict) : pydict :=
  fold_left
    (fun acc k => match pyget k r with
                  | Some v => pyset k v acc
                  | None => acc
                  end)
    (map fst r) [].

(** [bool(v)] *)
Definition py_truthy (v : pyvalue) : bool :=
  match v with
  | PyNone => false
  | PyInt n => negb (Z.eqb n 0)
  | PyStr s => negb (String.eqb s "")
  | PyFloat f => float_truthy f
  end.

(** [str(n)] for an int *)
Definition str_of_int (n : Z) : string := NilZero.string_of_int (Z.to_int n).

(** [s.replace("@", by)] *)
Fixpoint replace_at (s by_ : string) : string :=
  match s with
  | EmptyString => EmptyString
  | String c s' =>
      if Ascii.eqb c "@"%char then String.append by_ (replace_at s' by_)
      else String c (replace_at s' by_)
  end.

(** *** Helpers *)

Definition rand_choice_weighted (options : list string)
    (weights : option (list float)) : Gen string :=
  draw (choices options weights).

(** [maybe_pad_spaces(value, prob)]; a str is its code points, as for the
    text normaliser. *)
Definition maybe_pad_spaces (value : option text) (prob : float)
  : Gen (option text) :=
  match value with
  | None => ret None
  | Some v =>
      let* u := draw random in
      if flt u prob then
        let* l := draw (randint 0 2) in
        let* r := draw (randint 0 2) in
        ret (Some (repeat space (Z.to_nat l) ++ v ++ repeat space (Z.to_nat r)))
      else ret (Some v)
  end.

Definition default_pad_prob : float := flit "0.2".

(** The loop of [duplicate_rows]: one draw per row, in order. *)
Fixpoint pick_duplicates {A : Type} (rows : list A) (dupe_rate : float)
  : Gen (list A) :=
  match rows with
  | [] => ret []
  | r :: rows' =>
      let* u := draw random in
      let* dupes := pick_duplicates rows' dupe_rate in
      ret (if flt u dupe_rate then r :: dupes else dupes)
  end.

(** [duplicate_rows(rows, dupe_rate)] *)
Definition duplicate_rows {A : Type} (rows : list A) (dupe_rate : float)
  : Gen (list A) :=
  if fle dupe_rate (flit "0") then ret rows
  else let* dupes := pick_duplicates rows dupe_rate in ret (rows ++ dupes).

(** A [date] is a day number from 0, for [date.min] (0001-01-01), to
    [date_max], for [date.max] (9999-12-31).  A [datetime] is a number of
    seconds from the start of day 0 to [datetime_max], the last second of
    [date.max]; day [d] starts at [86400 * d]. *)
Definition date_max : Z := 3652058.
Definition datetime_max : Z := 86400 * date_max + 86399.
Definition midnight (file_date : Z) : Z := 86400 * file_date.

(** [dt + timedelta(seconds=delta)]: a result outside the range of
    [datetime] raises. *)
Definition shift (dt delta : Z) : Gen Z :=
  if (0 <=? dt + delta) && (dt + delta <=? datetime_max) then ret (dt + delta)
  else raise PyOverflowError.

(** [day_event_time(file_date)] *)
Definition day_event_time (file_date : Z) : Gen Z :=
  let* s := draw (randint 0 86399) in shift (midnight file_date) s.

(** *** CDC utilities *)

(** The body of the loop of [attach_insert_cdc]. *)
Definition attach_insert (r : pydict) (file_date : Z) (late_rate : float)
  : Gen pydict :=
  let rr := pyset "op" (PyStr "I") r in
  let rr := pyset "seqNum" (PyInt 1) rr in
  let* ev := day_event_time file_date in
  let* u1 := draw random in
  let* late :=
    if flt u1 late_rate
    then let* u2 := draw random in ret (flt u2 (flit "0.5"))
    else ret false in
  let* ev :=
    if late then let* d := draw (randint 1 2) in shift ev (- (86400 * d))
    else ret ev in
  ret (pyset "eventTime" (PyStr (strftime ev)) rr).

(** A [for] loop that appends one result per element. *)
Fixpoint for_each {A B : Type} (f : A -> Gen B) (l : list A) : Gen (list B) :=
  match l with
  | [] => ret []
  | a :: l' => let* b := f a in let* bs := for_each f l' in ret (b :: bs)
  end.

(** [attach_insert_cdc(rows, file_date, late_rate)] *)
Definition attach_insert_cdc (rows : list pydict) (file_date : Z)
    (late_rate : float) : Gen (list pydict) :=
  for_each (fun r => attach_insert r file_date late_rate) rows.

(** [r.get("seqNum", 1) + 1] *)
Definition next_seq (r : pydict) : Gen pyvalue :=
  match pyget "seqNum" r with
  | None => ret (PyInt (1 + 1))
  | Some (PyInt n) => ret (PyInt (n + 1))
  | Some (PyFloat f) => ret (PyFloat (fsucc f))
  | Some (PyStr _) => raise PyTypeError
  | Some PyNone => raise PyTypeError
  end.

(** [float(u.get(key))] under [try], [None] standing for the [except]
    branch. *)
Definition try_float (v : option pyvalue) : option float :=
  match v with
  | Some (PyFloat f) => Some f
  | Some (PyInt n) => float_of_Z n
  | Some (PyStr s) => float_of_string s
  | Some PyNone => None
  | None => None
  end.

(** The pattern shared by products, order items and payments: read [key]
    as a float or draw one in [lo, hi], scale it by one of [factors] and
    store it rounded. *)
Definition rescale (key : string) (lo hi : Z) (factors : list string)
    (u : pydict) : Gen pydict :=
  let* p :=
    match try_float (pyget key u) with
    | Some p => ret p
    | None => let* x := draw (uniform lo hi) in ret (round2 x)
    end in
  let* c := draw (choice float (flit "1.0") (map flit factors)) in
  ret (pyset key (PyFloat (round2 (fmul p c))) u).

Definition set_choice (key : string) (options weights : list string)
    (u : pydict) : Gen pydict :=
  let* a := rand_choice_weighted options (Some (map flit weights)) in
  ret (pyset key (PyStr a) u).

(** The table-specific changes of an update. *)
Definition mutate (table : string) (u : pydict) : Gen pydict :=
  if String.eqb table "customers" then
    let* u :=
      match pyget "emailAddress" u with
      | Some v =>
          if py_truthy v then
            match v with
            | PyStr s =>
                let* d := draw (randint 1 9) in
                ret (pyset "emailAddress"
                       (PyStr (replace_at s
                                 (String.append "+u"
                                    (String.append (str_of_int d) "@"))))
                       u)
            | _ => raise PyAttributeError
            end
          else ret u
      | None => ret u
      end in
    set_choice "isActive" ["Y"; "N"; "y"; "n"] ["0.7"; "0.1"; "0.15"; "0.05"] u
  else if String.eqb table "products" then
    let* u := rescale "unitPrice" 5 500 ["0.95"; "1.00"; "1.05"] u in
    set_choice "isDiscontinued" ["Y"; "N"; "NO"; "yes"]
               ["0.06"; "0.78"; "0.1"; "0.06"] u
  else if String.eqb table "orders" then
    set_choice "status" ["NEW"; "PAID"; "SHIPPED"; "CANCELLED"; "RETURNED"]
               ["0.1"; "0.35"; "0.35"; "0.15"; "0.05"] u
  else if String.eqb table "orderItems" then
    let* u :=
      match pyget "quantity" u with
      | Some (PyInt q) =>
          let* dq := draw (choice Z 0 [-1; 0; 1]) in
          ret (pyset "quantity" (PyInt (Z.max 1 (q + dq))) u)
      | _ => ret u
      end in
    rescale "unitPrice" 5 500 ["0.95"; "1.0"; "1.05"] u
  else if String.eqb table "payments" then
    let* u := rescale "amount" 5 1500 ["0.9"; "1.0"; "1.1"] u in
    set_choice "status" ["OK"; "ok"; "FAILED"; "PENDING"]
               ["0.7"; "0.1"; "0.1"; "0.1"] u
  else ret u.

(** The body of the loop over [sample_upd]. *)
Definition make_update (table : string) (file_date : Z) (late_rate : float)
    (r : pydict) : Gen pydict :=
  let u := pyset "op" (PyStr "U") r in
  let* s := next_seq r in
  let u := pyset "seqNum" s u in
  let* u := mutate table u in
  let* ev := day_event_time file_date in
  let* u1 := draw random in
  let* ev :=
    if flt u1 late_rate
    then let* d := draw (randint 1 2) in shift ev (- (86400 * d))
    else ret ev in
  ret (pyset "eventTime" (PyStr (strftime ev)) u).

(** The body of the loop over [sample_del]. *)
Definition make_delete (file_date : Z) (r : pydict) : Gen pydict :=
  let d := pyset "op" (PyStr "D") (pycopy_items r) in
  let* s := next_seq r in
  let d := pyset "seqNum" s d in
  let* ev := day_event_time file_date in
  ret (pyset "eventTime" (PyStr (strftime ev)) d).

(** [int(x)] for a float: a NaN and an infinity have no integer value. *)
Definition int_of_float (x : float) : pyerror + Z :=
  match fclass x with
  | FNaN => inl PyValueError
  | FInfinite => inl PyOverflowError
  | FFinite => inr (trunc x)
  end.

(** [int(n * rate)] for a length [n]: the length is converted to a float
    for the product. *)
Definition int_scaled (n : nat) (rate : float) : pyerror + Z :=
  match float_of_Z (Z.of_nat n) with
  | None => inl PyOverflowError
  | Some x => int_of_float (fmul x rate)
  end.

(** [min(max(least, k), n)], the size of a sample of [n] rows. *)
Definition sample_size (least k : Z) (n : nat) : nat :=
  Z.to_nat (Z.min (Z.max least k) (Z.of_nat n)).

(** [make_updates_deletes(previous_rows, file_date, update_rate,
    delete_rate, late_rate, table)] *)
Definition make_updates_deletes (previous_rows : list pydict) (file_date : Z)
    (update_rate delete_rate late_rate : float) (table : string)
  : Gen (list pydict) :=
  match previous_rows with
  | [] => ret []
  | _ :: _ =>
      let n := List.length previous_rows in
      let* k_upd := lift (int_scaled n update_rate) in
      let* k_del := lift (int_scaled n delete_rate) in
      let* sample_upd :=
        draw (sample pydict previous_rows (sample_size 1 k_upd n)) in
      let* sample_del :=
        draw (sample pydict previous_rows (sample_size 0 k_del n)) in
      let* updates := for_each (make_update table file_date late_rate)
                               sample_upd in
      let* deletes := for_each (make_delete file_date) sample_del in
      ret (updates ++ deletes)
  end.

(** *** Notions used to state the properties of the generator *)

(** [random.randint(a, b)] returns a number from [a] to [b]. *)
Definition randint_in_range : Prop :=
  forall a b g, a <= b -> a <= fst (randint a b g) <= b.

(** [random.sample(population, k)] returns [k] elements of the
    population. *)
Definition sample_sound : Prop :=
  forall (A : Type) (l : list A) (k : nat) (g : rng),
    incl (fst (sample A l k g)) l /\
    ((k <= List.length l)%nat -> List.length (fst (sample A l k g)) = k).

(** The keys an update may change besides [op], [seqNum] and
    [eventTime]. *)
Definition mutable_fields : list string :=
  ["emailAddress"; "isActive"; "unitPrice"; "isDiscontinued"; "status";
   "quantity"; "amount"].

(** [seqNum] is present and is neither an int nor a float. *)
Definition seq_not_a_number (r : pydict) : Prop :=
  match pyget "seqNum" r with
  | Some (PyStr _) => True
  | Some PyNone => True
  | _ => False
  end.

(** [emailAddress] is truthy and is not a str. *)
Definition email_not_a_str (r : pydict) : Prop :=
  match pyget "emailAddress" r with
  | Some (PyStr _) => False
  | Some v => py_truthy v = true
  | None => False
  end.

(** The [seqNum] an event made from [r] carries. *)
Definition seq_after (r : pydict) : option pyvalue :=
  match pyget "seqNum" r with
  | None => Some (PyInt 2)
  | Some (PyInt n) => Some (PyInt (n + 1))
  | Some (PyFloat f) => Some (PyFloat (fsucc f))
  | Some (PyStr _) => None
  | Some PyNone => None
  end.

(** The time of an event of the day [file_date], drawn at second [s] and
    moved [d] days back, falls outside the range of [datetime]; [s] and [d]
    are numbers that [randint] can return for the bounds the code gives
    it. *)
Definition event_time_overflows (file_date : Z) : Prop :=
  exists s d g1,
    s = fst (randint 0 86399 g1) /\
    (d = 0 \/ exists g2, d = fst (randint 1 2 g2)) /\
    ~ (0 <= midnight file_date + s - 86400 * d <= datetime_max).

(** [file_date] is a date, and not one of the first two days of the
    calendar. *)
Definition late_events_fit (file_date : Z) : Prop :=
  2 <= file_date <= date_max.

(** [u'] differs from [u] at most on the keys [ks]. *)
Definition sets_only (ks : list string) (u u' : pydict) : Prop :=
  forall k, ~ In k ks -> pyget k u' = pyget k u.

(** [u] is an event made from the row [r]: it carries [op], the sequence
    number after that of [r] and a formatted event time, and agrees with [r]
    on every other key outside [ks]. *)
Definition event_of (op : string) (ks : list string) (r u : pydict) : Prop :=
  pyget "op" u = Some (PyStr op) /\
  (exists s, seq_after r = Some s /\ pyget "seqNum" u = Some s) /\
  (exists t, pyget "eventTime" u = Some (PyStr (strftime t))) /\
  (forall k, ~ In k ("op" :: "seqNum" :: "eventTime" :: ks) ->
             pyget k u = pyget k r).

End Generator.

(** A small deterministic runtime, for running examples: floats are
    hundredths, all of them finite, the generator state is a tape of numbers
    read from the left (an exhausted tape reads 0), and times are printed as
    their number of seconds. *)
Module Toy.

Definition literal (s : string) : Z :=
  if String.eqb s "0" then 0
  else if String.eqb s "0.2" then 20
  else if String.eqb s "0.5" then 50
  else 100.

Definition runtime : Runtime := {|
  float := Z;
  rng := list Z;
  flit := literal;
  flt := Z.ltb;
  fle := Z.leb;
  fmul := fun x y => x * y / 100;
  fsucc := fun x => x + 100;
  round2 := fun x => x;
  float_of_Z := fun n => Some (100 * n);
  float_of_string := fun _ => None;
  float_truthy := fun x => negb (Z.eqb x 0);
  fclass := fun _ => FFinite;
  trunc := fun x => x / 100;
  random := fun g => (hd 0 g mod 100, tl g);
  randint := fun a b g => (a + hd 0 g mod (b - a + 1), tl g);
  uniform := fun a b g => (100 * a, tl g);
  choice := fun A d l g => (hd d l, tl g);
  choices := fun options _ g => (hd "" options, tl g);
  sample := fun A l k g => (firstn k l, tl g);
  strftime := fun t => NilZero.string_of_int (Z.to_int t)
|}.

(** Two customers as [attach_insert_cdc] leaves them. *)
Definition ana : list (string * @pyvalue runtime) :=
  [ ("customerId", PyStr "c-1"); ("emailAddress", PyStr "ana@example.com");
    ("op", PyStr "I"); ("seqNum", PyInt 1); ("eventTime", PyStr "0") ].

Definition luis : list (string * @pyvalue runtime) :=
  [ ("customerId", PyStr "c-2"); ("emailAddress", PyNone);
    ("op", PyStr "I"); ("seqNum", PyInt 1); ("eventTime", PyStr "0") ].

Definition raw_customers : list (list (string * @pyvalue runtime)) :=
  [ [("customerId", PyStr "c-1")]; [("customerId", PyStr "c-2")] ].

(** A tape on which the first insert arrives two days late. *)
Definition tape : list Z := [4000; 3; 20; 1; 70000; 80].

Definition inserted : list (list (string * @pyvalue runtime)) :=
  [ [("customerId", PyStr "c-1"); ("op", PyStr "I"); ("seqNum", PyInt 1);
     ("eventTime", PyStr "1641431200")];
    [("customerId", PyStr "c-2"); ("op", PyStr "I"); ("seqNum", PyInt 1);
     ("eventTime", PyStr "1641670000")] ].

Definition tape2 : list Z := [0; 0; 7; 0; 500; 90; 0; 0; 600; 10; 700].

(** Day 2 for the customers (update rate 0.15, delete rate 0.5) and for
    the same rows taken as orders with an update rate of 0. *)
Definition customer_events : list (list (string * @pyvalue runtime)) :=
  [ [("customerId", PyStr "c-1"); ("emailAddress", PyStr "ana+u8@example.com");
     ("op", PyStr "U"); ("seqNum", PyInt 2); ("eventTime", PyStr "1641686900");
     ("isActive", PyStr "Y")];
    [("customerId", PyStr "c-1"); ("emailAddress", PyStr "ana@example.com");
     ("op", PyStr "D"); ("seqNum", PyInt 2);
     ("eventTime", PyStr "1641686400")] ].

Definition order_events : list (list (string * @pyvalue runtime)) :=
  [ [("customerId", PyStr "c-1"); ("emailAddress", PyStr "ana@example.com");
     ("op", PyStr "U"); ("seqNum", PyInt 2); ("eventTime", PyStr "1641600000");
     ("status", PyStr "NEW")];
    [("customerId", PyStr "c-1"); ("emailAddress", PyStr "ana@example.com");
     ("op", PyStr "D"); ("seqNum", PyInt 2);
     ("eventTime", PyStr "1641686400")] ].

(** A customer whose [seqNum] was read back from a file as text. *)
Definition read_back : list (string * @pyvalue runtime) :=
  [("customerId", PyStr "c-3"); ("seqNum", PyStr "1")].

End Toy.

(** * Properties *)

(** ** Equality tests *)

Lemma value_eqb_eq (a b : value) : value_eqb a b = true <-> a = b.
Proof.
  destruct a as [x|x], b as [y|y]; simpl; split; intros H; try discriminate.
  - apply Z.eqb_eq in H. now subst.
  - injection H as ->. apply Z.eqb_refl.
  - apply String.eqb_eq in H. now subst.
  - injection H as ->. apply String.eqb_refl.
Qed.

Lemma cell_eqb_eq (a b : cell) : cell_eqb a b = true <-> a = b.
Proof.
  destruct a as [x|], b as [y|]; simpl; split; intros H;
    try discriminate; try reflexivity.
  - apply value_eqb_eq in H. now subst.
  - injection H as ->. now apply value_eqb_eq.
Qed.

Lemma cells_eqb_eq (r1 r2 : list cell) : cells_eqb r1 r2 = true <-> r1 = r2.
Proof.
  revert r2. induction r1 as [|a r1 IH]; intros [|b r2]; simpl;
    split; intros H; try discriminate; try reflexivity.
  - apply andb_true_iff in H as [Ha Hr].
    apply cell_eqb_eq in Ha. apply IH in Hr. now subst.
  - injection H as -> ->. apply andb_true_iff. split.
    + now apply cell_eqb_eq.
    + now apply IH.
Qed.

Lemma cells_eqb_refl (r : list cell) : cells_eqb r r = true.
Proof. now apply cells_eqb_eq. Qed.

Lemma cells_eqb_neq (r1 r2 : list cell) : cells_eqb r1 r2 = false <-> r1 <> r2.
Proof.
  split.
  - intros H E. apply cells_eqb_eq in E. congruence.
  - intros H. destruct (cells_eqb r1 r2) eqn:E; [|reflexivity].
    apply cells_eqb_eq in E. contradiction.
Qed.

(** ** Duplicate elimination *)

Section Distinct.

Context {A : Type}.
Variable same : A -> A -> bool.

Lemma distinct_incl (l : list A) (x : A) : In x (distinct same l) -> In x l.
Proof.
  revert x. induction l as [|a l IH]; simpl; intros x H; [assumption|].
  destruct H as [H|H]; [now left|].
  apply filter_In in H as [H _]. right. now apply IH.
Qed.

Lemma ForallOrdPairs_filter (P : A -> A -> Prop) (p : A -> bool) (l : list A) :
  ForallOrdPairs P l -> ForallOrdPairs P (filter p l).
Proof.
  induction 1 as [|a l Ha Hl IH]; simpl; [constructor|].
  destruct (p a); [|assumption].
  constructor; [|assumption].
  rewrite Forall_forall in *. intros y Hy.
  apply filter_In in Hy as [Hy _]. now apply Ha.
Qed.

Lemma distinct_pairwise (l : list A) : ForallOrdPairs (fun x y => same x y = false) (distinct same l).
Proof.
  induction l as [|a l IH]; simpl; constructor.
  - apply Forall_forall. intros y Hy.
    apply filter_In in Hy as [_ Hy].
    now destruct (same a y).
  - now apply ForallOrdPairs_filter.
Qed.

Lemma filter_all (p : A -> bool) (l : list A) :
  Forall (fun x => p x = true) l -> filter p l = l.
Proof.
  induction 1 as [|a l Ha Hl IH]; simpl; [reflexivity|].
  now rewrite Ha, IH.
Qed.

Lemma distinct_fixed (l : list A) :
  ForallOrdPairs (fun x y => same x y = false) l -> distinct same l = l.
Proof.
  induction 1 as [|a l Ha Hl IH]; simpl; [reflexivity|].
  rewrite IH. f_equal. apply filter_all.
  eapply Forall_impl; [|exact Ha]. intros y Hy. simpl in Hy.
  now rewrite Hy.
Qed.

Lemma distinct_idempotent (l : list A) :
  distinct same (distinct same l) = distinct same l.
Proof. apply distinct_fixed, distinct_pairwise. Qed.

Lemma distinct_ext_in (same' : A -> A -> bool) (l : list A) :
  (forall x y, In x l -> In y l -> same x y = same' x y) ->
  distinct same l = distinct same' l.
Proof.
  induction l as [|a l IH]; simpl; intros H; [reflexivity|].
  rewrite <- IH by (intros; apply H; now right).
  f_equal. apply filter_ext_in. intros y Hy.
  apply distinct_incl in Hy. f_equal. apply H; [now left|now right].
Qed.

Lemma filter_comm (p q : A -> bool) (l : list A) :
  filter p (filter q l) = filter q (filter p l).
Proof.
  induction l as [|a l IH]; simpl; [reflexivity|].
  destruct (q a) eqn:Eq, (p a) eqn:Ep; simpl;
    rewrite ?Eq, ?Ep, IH; reflexivity.
Qed.

(** *** When [same] is an equivalence *)

Hypothesis same_refl : forall x, same x x = true.
Hypothesis same_sym : forall x y, same x y = same y x.
Hypothesis same_trans :
  forall x y z, same x y = true -> same y z = true -> same x z = true.

Lemma same_class (x y z : A) : same x y = true -> same x z = same y z.
Proof.
  intros Hxy. destruct (same y z) eqn:Hyz.
  - now apply same_trans with y.
  - destruct (same x z) eqn:Hxz; [|reflexivity].
    rewrite <- Hyz. symmetry. apply same_trans with x; [|assumption].
    now rewrite same_sym.
Qed.

Lemma distinct_skip (x y : A) (l1 l2 : list A) :
  same x y = true ->
  filter (fun z => negb (same x z)) (distinct same (l1 ++ y :: l2)) =
  filter (fun z => negb (same x z)) (distinct same (l1 ++ l2)).
Proof.
  intros Hxy. induction l1 as [|a l1 IH]; simpl.
  - rewrite Hxy. simpl.
    rewrite filter_comm. apply filter_all, Forall_forall.
    intros z Hz. apply filter_In in Hz as [_ Hz].
    now rewrite <- (same_class x y z Hxy).
  - destruct (same x a); simpl.
    + rewrite (filter_comm (fun z => negb (same x z))), IH.
      apply filter_comm.
    + f_equal.
      rewrite (filter_comm (fun z => negb (same x z))), IH.
      apply filter_comm.
Qed.

Lemma distinct_add_copy (pre post : list A) (r : A) :
  In r pre -> distinct same (pre ++ r :: post) = distinct same (pre ++ post).
Proof.
  induction pre as [|a pre IH]; simpl; intros H; [contradiction|].
  f_equal. destruct H as [->|H].
  - apply distinct_skip, same_refl.
  - now rewrite IH.
Qed.

(** *** When [same] decides equality *)

Hypothesis same_eq : forall x y, same x y = true <-> x = y.

Lemma distinct_In (l : list A) (x : A) : In x (distinct same l) <-> In x l.
Proof.
  split; [apply distinct_incl|].
  induction l as [|a l IH]; simpl; intros H; [assumption|].
  destruct (same a x) eqn:E.
  - left. now apply same_eq.
  - destruct H as [->|H]; [now left|].
    right. apply filter_In. split; [now apply IH|]. now rewrite E.
Qed.

Lemma distinct_NoDup (l : list A) : NoDup (distinct same l).
Proof.
  induction l as [|a l IH]; simpl; constructor.
  - intros H. apply filter_In in H as [_ H]. now rewrite same_refl in H.
  - now apply NoDup_filter.
Qed.

Lemma distinct_Permutation (l l' : list A) :
  Permutation l l' -> Permutation (distinct same l) (distinct same l').
Proof.
  intros H. apply NoDup_Permutation; try apply distinct_NoDup.
  intros x. rewrite !distinct_In. split; apply Permutation_in;
    [assumption|now apply Permutation_sym].
Qed.

Lemma filter_distinct (p : A -> bool) (l : list A) :
  filter p (distinct same l) = distinct same (filter p l).
Proof.
  induction l as [|a l IH]; simpl; [reflexivity|].
  destruct (p a) eqn:Ea; simpl.
  - f_equal. now rewrite filter_comm, IH.
  - rewrite filter_comm, IH. apply filter_all, Forall_forall.
    intros y Hy. apply distinct_incl, filter_In in Hy as [_ Hy].
    destruct (same a y) eqn:E; [|reflexivity].
    apply same_eq in E. congruence.
Qed.

End Distinct.

(** ** Comparisons *)

Section Preorder.

Context {A : Type} (cmp : A -> A -> comparison).
Hypothesis P : total_preorder cmp.

Lemma cmp_refl (x : A) : cmp x x = Eq.
Proof.
  pose proof (cmp_antisym cmp P x x) as H.
  destruct (cmp x x); simpl in H; congruence.
Qed.

Lemma cmp_eq_r (x y z : A) : cmp y z = Eq -> cmp x y = cmp x z.
Proof.
  intros H.
  assert (Hzy : cmp z y = Eq) by (rewrite (cmp_antisym cmp P y z), H; reflexivity).
  pose proof (cmp_eq_l cmp P z y x Hzy) as E.
  rewrite (cmp_antisym cmp P x z), (cmp_antisym cmp P x y) in E.
  destruct (cmp x y), (cmp x z); simpl in E; congruence.
Qed.

Lemma cmp_le_trans (x y z : A) :
  cmp x y <> Gt -> cmp y z <> Gt -> cmp x z <> Gt.
Proof.
  intros Hxy Hyz.
  destruct (cmp x y) eqn:Exy; [| |congruence].
  - now rewrite (cmp_eq_l cmp P x y z Exy).
  - destruct (cmp y z) eqn:Eyz; [| |congruence].
    + rewrite <- (cmp_eq_r x y z Eyz), Exy. discriminate.
    + rewrite (cmp_lt_trans cmp P x y z Exy Eyz). discriminate.
Qed.

Lemma cmp_gt_lt (x y : A) : cmp x y = Gt -> cmp y x = Lt.
Proof. intros H. now rewrite (cmp_antisym cmp P x y), H. Qed.

(** *** The stable insertion sort *)

Lemma insert_sorted_perm (x : A) (l : list A) :
  Permutation (insert_sorted cmp x l) (x :: l).
Proof.
  induction l as [|y l IH]; simpl; [reflexivity|].
  destruct (cmp x y); try reflexivity.
  rewrite IH. apply perm_swap.
Qed.

Lemma sort_perm (l : list A) : Permutation (sort cmp l) l.
Proof.
  induction l as [|x l IH]; simpl; [reflexivity|].
  rewrite insert_sorted_perm. now constructor.
Qed.

Lemma sort_In (l : list A) (x : A) : In x (sort cmp l) <-> In x l.
Proof.
  split; apply Permutation_in; [|apply Permutation_sym]; apply sort_perm.
Qed.

Lemma sort_nonempty (l : list A) : l <> [] -> sort cmp l <> [].
Proof.
  intros H E. apply H. apply Permutation_nil.
  rewrite <- E. apply sort_perm.
Qed.

(** The head of the sorted list is ranked at least as high as every element. *)
Lemma sort_head_first (l : list A) (w : A) (rest : list A) :
  sort cmp l = w :: rest -> forall x, In x l -> cmp w x <> Gt.
Proof.
  revert w rest. induction l as [|a l IH]; simpl; intros w rest E x Hx;
    [contradiction|].
  destruct (sort cmp l) as [|h t] eqn:Es.
  - assert (l = []) as ->.
    { apply Permutation_nil. rewrite <- Es. apply sort_perm. }
    simpl in E. injection E as <- <-. destruct Hx as [<-|[]].
    rewrite cmp_refl. discriminate.
  - simpl in E. destruct (cmp a h) eqn:Eah.
    + injection E as <- <-. destruct Hx as [<-|Hx].
      * rewrite cmp_refl. discriminate.
      * apply cmp_le_trans with h; [rewrite Eah; discriminate|].
        now apply (IH h t).
    + injection E as <- <-. destruct Hx as [<-|Hx].
      * rewrite cmp_refl. discriminate.
      * apply cmp_le_trans with h; [rewrite Eah; discriminate|].
        now apply (IH h t).
    + injection E as <- <-. destruct Hx as [<-|Hx].
      * rewrite (cmp_gt_lt _ _ Eah). discriminate.
      * now apply (IH h t).
Qed.

(** Two elements ranked at least as high as each other tie. *)
Lemma cmp_le_le_eq (x y : A) : cmp x y <> Gt -> cmp y x <> Gt -> cmp x y = Eq.
Proof.
  intros Hxy Hyx. rewrite (cmp_antisym cmp P x y) in Hyx.
  destruct (cmp x y); simpl in *; congruence.
Qed.

(** Without ties the head of the sorted list does not depend on the order in
    which the elements arrive. *)
Lemma sort_head_perm (l l' : list A) :
  Permutation l l' ->
  (forall x y, In x l -> In y l -> cmp x y = Eq -> x = y) ->
  firstn 1 (sort cmp l) = firstn 1 (sort cmp l').
Proof.
  intros Hp Huniq.
  destruct (sort cmp l) as [|w rest] eqn:E, (sort cmp l') as [|w' rest'] eqn:E';
    simpl; try reflexivity.
  - exfalso. assert (l = []) as ->.
    { apply Permutation_nil. rewrite <- E. apply sort_perm. }
    apply Permutation_nil in Hp. subst l'. discriminate.
  - exfalso. assert (l' = []) as ->.
    { apply Permutation_nil. rewrite <- E'. apply sort_perm. }
    apply Permutation_sym, Permutation_nil in Hp. subst l. discriminate.
  - assert (Hw : In w l) by (apply sort_In; rewrite E; now left).
    assert (Hw' : In w' l') by (apply sort_In; rewrite E'; now left).
    assert (Hw'l : In w' l) by (eapply Permutation_in; [apply Permutation_sym|]; eassumption).
    assert (Hwl' : In w l') by (eapply Permutation_in; eassumption).
    f_equal. apply Huniq; try assumption.
    apply cmp_le_le_eq.
    + eapply sort_head_first; eassumption.
    + eapply sort_head_first; eassumption.
Qed.

End Preorder.

(** ** The order of values, cells and rows *)

Lemma value_compare_eq (x y : value) : value_compare x y = Eq <-> x = y.
Proof.
  destruct x as [a|a], y as [b|b]; simpl; split; intros H; try discriminate.
  - apply Z.compare_eq in H. now subst.
  - injection H as ->. apply Z.compare_refl.
  - apply String_as_OT.cmp_eq in H. now subst.
  - injection H as ->. now apply String_as_OT.cmp_eq.
Qed.

Lemma value_compare_antisym (x y : value) :
  value_compare y x = CompOpp (value_compare x y).
Proof.
  destruct x as [a|a], y as [b|b]; simpl; try reflexivity.
  - apply Z.compare_antisym.
  - apply String.compare_antisym.
Qed.

Lemma value_compare_lt_trans (x y z : value) :
  value_compare x y = Lt -> value_compare y z = Lt -> value_compare x z = Lt.
Proof.
  destruct x as [a|a], y as [b|b], z as [c|c]; simpl; intros H1 H2;
    try discriminate; try reflexivity.
  - rewrite Z.compare_lt_iff in *. lia.
  - apply String_as_OT.cmp_lt in H1, H2. apply String_as_OT.cmp_lt.
    now apply String_as_OT.lt_trans with b.
Qed.

Lemma value_compare_gt_trans (x y z : value) :
  value_compare y x = Lt -> value_compare z y = Lt -> value_compare z x = Lt.
Proof. intros H1 H2. now apply value_compare_lt_trans with y. Qed.

Lemma compare_cells_eq (o : SortOrder) (a b : cell) :
  compare_cells o a b = Eq <-> a = b.
Proof.
  destruct a as [x|], b as [y|]; simpl.
  - destruct (direction o); rewrite value_compare_eq;
      split; intros H; congruence.
  - destruct (null_ordering o); split; discriminate.
  - destruct (null_ordering o); split; discriminate.
  - split; reflexivity.
Qed.

Lemma compare_cells_antisym (o : SortOrder) (a b : cell) :
  compare_cells o b a = CompOpp (compare_cells o a b).
Proof.
  destruct a as [x|], b as [y|]; simpl; try reflexivity.
  - destruct (direction o); apply value_compare_antisym.
  - now destruct (null_ordering o).
  - now destruct (null_ordering o).
Qed.

Lemma compare_cells_lt_trans (o : SortOrder) (a b c : cell) :
  compare_cells o a b = Lt -> compare_cells o b c = Lt ->
  compare_cells o a c = Lt.
Proof.
  destruct a as [x|], b as [y|], c as [z|]; simpl;
    destruct (null_ordering o), (direction o); intros H1 H2;
    try discriminate; try reflexivity.
  - now apply value_compare_lt_trans with y.
  - now apply value_compare_gt_trans with y.
  - now apply value_compare_lt_trans with y.
  - now apply value_compare_gt_trans with y.
Qed.

Section RowOrder.

Context {R : Resolver}.
Variable cols : list string.

Lemma compare_rows_antisym (os : list SortOrder) (r1 r2 : row) :
  compare_rows cols os r2 r1 = CompOpp (compare_rows cols os r1 r2).
Proof.
  induction os as [|o os IH]; simpl; [reflexivity|].
  rewrite (compare_cells_antisym o (eval cols (child o) r1)).
  destruct (compare_cells o (eval cols (child o) r1) (eval cols (child o) r2));
    simpl; auto.
Qed.

Lemma compare_rows_eq_l (os : list SortOrder) (r1 r2 r3 : row) :
  compare_rows cols os r1 r2 = Eq ->
  compare_rows cols os r1 r3 = compare_rows cols os r2 r3.
Proof.
  induction os as [|o os IH]; simpl; [reflexivity|].
  destruct (compare_cells o (eval cols (child o) r1) (eval cols (child o) r2))
    eqn:E; try discriminate.
  apply compare_cells_eq in E. rewrite E. intros H. now rewrite IH.
Qed.

Lemma compare_rows_lt_trans (os : list SortOrder) (r1 r2 r3 : row) :
  compare_rows cols os r1 r2 = Lt -> compare_rows cols os r2 r3 = Lt ->
  compare_rows cols os r1 r3 = Lt.
Proof.
  induction os as [|o os IH]; simpl; [discriminate|].
  destruct (compare_cells o (eval cols (child o) r1) (eval cols (child o) r2))
    eqn:E12; try discriminate.
  - apply compare_cells_eq in E12. rewrite E12.
    destruct (compare_cells o (eval cols (child o) r2) (eval cols (child o) r3));
      auto.
  - intros _.
    destruct (compare_cells o (eval cols (child o) r2) (eval cols (child o) r3))
      eqn:E23; try discriminate.
    + apply compare_cells_eq in E23. rewrite <- E23, E12. reflexivity.
    + intros _. now rewrite (compare_cells_lt_trans o _ _ _ E12 E23).
Qed.

Lemma compare_rows_preorder (os : list SortOrder) :
  total_preorder (compare_rows cols os).
Proof.
  constructor.
  - intros x y. apply compare_rows_antisym.
  - intros x y z. apply compare_rows_eq_l.
  - intros x y z. apply compare_rows_lt_trans.
Qed.

(** A tie in the window's order is agreement on every ordering column. *)
Lemma compare_rows_tie (os : list SortOrder) (r1 r2 : row) :
  compare_rows cols os r1 r2 = Eq <->
  Forall (fun o => eval cols (child o) r1 = eval cols (child o) r2) os.
Proof.
  induction os as [|o os IH]; simpl.
  - split; [constructor|reflexivity].
  - destruct (compare_cells o (eval cols (child o) r1) (eval cols (child o) r2))
      eqn:E.
    + apply compare_cells_eq in E. rewrite IH. split; intros H.
      * now constructor.
      * now inversion H.
    + split; [discriminate|]. intros H. inversion H as [|? ? H1 _]; subst.
      apply (compare_cells_eq o) in H1. congruence.
    + split; [discriminate|]. intros H. inversion H as [|? ? H1 _]; subst.
      apply (compare_cells_eq o) in H1. congruence.
Qed.

End RowOrder.

(** ** Column lookup *)

Lemma comprehension_unit {A : Type} (f : A -> result unit) (l : list A) :
  (forall a, In a l -> f a = Ok tt) ->
  comprehension f l = Ok (map (fun _ => tt) l).
Proof.
  induction l as [|a l IH]; simpl; intros H; [reflexivity|].
  rewrite (H a) by now left. simpl.
  rewrite IH by (intros; apply H; now right). reflexivity.
Qed.

Lemma app_eq_length {A : Type} (l1 l2 m1 m2 : list A) :
  List.length l1 = List.length m1 -> l1 ++ l2 = m1 ++ m2 ->
  l1 = m1 /\ l2 = m2.
Proof.
  revert m1. induction l1 as [|a l1 IH]; intros [|b m1]; simpl;
    intros Hl E; try discriminate.
  - now split.
  - injection E as -> E. injection Hl as Hl.
    destruct (IH m1 Hl E) as [-> ->]. now split.
Qed.

(** *** Names *)

Lemma append_snoc (tmp : string) (c : ascii) (rest : string) :
  String.append (String.append tmp (String c EmptyString)) rest =
  String.append tmp (String c rest).
Proof. induction tmp as [|a tmp IH]; simpl; [reflexivity|now rewrite IH]. Qed.

Lemma parse_loop_plain (rest : string) (prev : option ascii) (tmp : string)
    (nameParts : list string) :
  no_special rest = true ->
  parse_loop prev false tmp nameParts rest =
  Ok (nameParts ++ [String.append tmp rest]).
Proof.
  revert prev tmp. induction rest as [|c rest IH]; intros prev tmp H.
  - simpl. replace (String.append tmp "") with tmp; [reflexivity|].
    induction tmp as [|a tmp IHt]; simpl; [reflexivity|now rewrite <- IHt].
  - simpl in H. apply andb_prop in H as [H Hrest]. apply andb_prop in H as [Hb Hd].
    apply negb_true_iff in Hb, Hd. simpl. rewrite Hb, Hd.
    rewrite IH by assumption. now rewrite append_snoc.
Qed.

Lemma no_special_ends (name : string) :
  no_special name = true -> ends_with_dot_star name = false.
Proof.
  induction name as [|c name IH]; [reflexivity|]. simpl. intros H.
  apply andb_prop in H as [H Hrest]. apply andb_prop in H as [_ Hd].
  apply negb_true_iff in Hd. rewrite Hd.
  destruct name as [|c' [|c'' name]]; simpl; auto.
Qed.

Lemma column_expr_plain (name : string) :
  plain_name name = true -> column_expr name = Ok (UnresolvedAttribute [name]).
Proof.
  unfold plain_name, column_expr, parseAttributeName. intros H.
  apply andb_prop in H as [Hs Hstar]. apply negb_true_iff in Hstar.
  rewrite Hstar, (no_special_ends name Hs), parse_loop_plain by assumption.
  reflexivity.
Qed.

Lemma attribute_plain (name : string) :
  plain_name name = true -> attribute name = name.
Proof. intros H. unfold attribute. now rewrite column_expr_plain. Qed.



Section Lookup.

Context {R : Resolver}.

Lemma matching_self (cols : list string) (c : string) :
  In c cols -> matching c cols <> [].
Proof.
  intros H E.
  assert (Hin : In c (matching c cols)).
  { apply filter_In. split; [assumption|apply resolver_refl]. }
  rewrite E in Hin. contradiction.
Qed.

Lemma check_subset_self (cols : list string) : check_subset cols cols = Ok tt.
Proof.
  unfold check_subset. rewrite comprehension_unit; [reflexivity|].
  intros c Hc. pose proof (matching_self cols c Hc).
  now destruct (matching c cols).
Qed.

Lemma cells_of_length (cols : list string) (name : string) (r : row) :
  List.length r = List.length cols ->
  List.length (cells_of cols name r) = List.length (matching name cols).
Proof.
  revert r. induction cols as [|c cols IH]; intros [|x r]; simpl;
    intros H; try discriminate; [reflexivity|].
  injection H as H. destruct (resolver c name); simpl; now rewrite IH.
Qed.

Lemma project_pieces (cols subset : list string) (r1 r2 : row) :
  List.length r1 = List.length cols -> List.length r2 = List.length cols ->
  project cols subset r1 = project cols subset r2 ->
  forall name, In name subset -> cells_of cols name r1 = cells_of cols name r2.
Proof.
  intros H1 H2. unfold project.
  induction subset as [|s subset IH]; simpl; intros E name Hn; [contradiction|].
  apply app_eq_length in E as [E1 E2].
  - destruct Hn as [<-|Hn]; [assumption|now apply IH].
  - now rewrite !cells_of_length.
Qed.

Lemma cells_of_all (cols : list string) (r1 r2 : row) :
  List.length r1 = List.length cols -> List.length r2 = List.length cols ->
  (forall name, In name cols -> cells_of cols name r1 = cells_of cols name r2) ->
  r1 = r2.
Proof.
  revert r1 r2. induction cols as [|c cols IH]; intros [|x r1] [|y r2]; simpl;
    intros H1 H2 H; try discriminate; [reflexivity|].
  injection H1 as H1. injection H2 as H2.
  assert (x = y) as ->.
  { pose proof (H c (or_introl eq_refl)) as E.
    rewrite resolver_refl in E. now injection E. }
  f_equal. apply IH; try assumption.
  intros name Hn. pose proof (H name (or_intror Hn)) as E.
  destruct (resolver c name); [now injection E|assumption].
Qed.

(** On rows that fit the schema, comparing every column is comparing rows. *)
Lemma same_on_all_columns (cols : list string) (r1 r2 : row) :
  List.length r1 = List.length cols -> List.length r2 = List.length cols ->
  same_on cols cols r1 r2 = cells_eqb r1 r2.
Proof.
  intros H1 H2. unfold same_on.
  destruct (cells_eqb r1 r2) eqn:E.
  - apply cells_eqb_eq in E. subst. apply cells_eqb_refl.
  - apply cells_eqb_neq. intros Hp. apply cells_eqb_neq in E. apply E.
    apply (cells_of_all cols); try assumption.
    exact (project_pieces cols cols r1 r2 H1 H2 Hp).
Qed.

Lemma distinct_rows_well_formed (df : DataFrame) :
  well_formed df ->
  distinct (same_on (columns df) (columns df)) (rows df) =
  distinct cells_eqb (rows df).
Proof.
  intros Hwf. apply distinct_ext_in. intros x y Hx Hy.
  unfold well_formed in Hwf. rewrite Forall_forall in Hwf.
  apply same_on_all_columns; now apply Hwf.
Qed.

(** *** The rank column: appended *)

Lemma no_match (cols : list string) (name c : string) :
  matching name cols = [] -> In c cols -> resolver c name = false.
Proof.
  intros E Hc. destruct (resolver c name) eqn:Er; [|reflexivity].
  assert (Hin : In c (matching name cols)) by (apply filter_In; now split).
  rewrite E in Hin. contradiction.
Qed.

Lemma cell_at_appended (cols : list string) (name : string) (r : row) (v : cell) :
  matching name cols = [] -> List.length r = List.length cols ->
  cell_at (cols ++ [name]) name (r ++ [v]) = v.
Proof.
  revert r. induction cols as [|c cols IH]; intros [|x r]; simpl;
    intros E H; try discriminate.
  - now rewrite resolver_refl.
  - injection H as H. destruct (resolver c name); [discriminate|].
    now apply IH.
Qed.

Lemma drop_cells_appended (cols : list string) (name : string) (r : row)
    (v : cell) :
  matching name cols = [] -> List.length r = List.length cols ->
  drop_cells (cols ++ [name]) name (r ++ [v]) = r.
Proof.
  revert r. induction cols as [|c cols IH]; intros [|x r]; simpl;
    intros E H; try discriminate.
  - now rewrite resolver_refl.
  - injection H as H. destruct (resolver c name); [discriminate|].
    f_equal. now apply IH.
Qed.

Lemma drop_cells_absent (cols : list string) (name : string) (r : row) :
  matching name cols = [] -> drop_cells cols name r = r.
Proof.
  revert r. induction cols as [|c cols IH]; intros [|x r]; simpl;
    intros E; try reflexivity.
  destruct (resolver c name); [discriminate|]. f_equal. now apply IH.
Qed.

Lemma filter_columns_absent (cols : list string) (name : string) :
  matching name cols = [] ->
  filter (fun c => negb (resolver c name)) cols = cols.
Proof.
  intros E. apply filter_all, Forall_forall. intros c Hc.
  now rewrite (no_match cols name c E Hc).
Qed.

(** *** The rank column: replacing the columns of that name *)

Lemma resolver_renamed (name c : string) :
  resolver (if resolver c name then name else c) name = resolver c name.
Proof.
  destruct (resolver c name) eqn:E; [apply resolver_refl|assumption].
Qed.

Lemma matching_renamed (cols : list string) (name : string) :
  matching name (map (fun c => if resolver c name then name else c) cols) =
  map (fun c => if resolver c name then name else c) (matching name cols).
Proof.
  unfold matching. rewrite filter_map_swap. f_equal.
  apply filter_ext. intros c. apply resolver_renamed.
Qed.

Lemma cell_at_replaced (cols : list string) (name : string) (r : row) (v : cell) :
  matching name cols <> [] -> List.length r = List.length cols ->
  cell_at (map (fun c => if resolver c name then name else c) cols) name
          (replace_cells cols name v r) = v.
Proof.
  revert r. induction cols as [|c cols IH]; intros [|x r]; simpl;
    intros E H; try discriminate; try congruence.
  injection H as H. rewrite resolver_renamed.
  destruct (resolver c name); [reflexivity|]. now apply IH.
Qed.

Lemma drop_cells_replaced (cols : list string) (name : string) (r : row)
    (v : cell) :
  drop_cells (map (fun c => if resolver c name then name else c) cols) name
             (replace_cells cols name v r) = drop_cells cols name r.
Proof.
  revert r. induction cols as [|c cols IH]; intros [|x r]; simpl;
    try reflexivity.
  rewrite resolver_renamed.
  destruct (resolver c name); [apply IH|]. f_equal. apply IH.
Qed.

Lemma filter_columns_renamed (cols : list string) (name : string) :
  filter (fun c => negb (resolver c name))
         (map (fun c => if resolver c name then name else c) cols) =
  filter (fun c => negb (resolver c name)) cols.
Proof.
  induction cols as [|c cols IH]; simpl; [reflexivity|].
  rewrite resolver_renamed.
  destruct (resolver c name) eqn:E; simpl; now rewrite IH.
Qed.

End Lookup.

(** ** Window evaluation *)

Lemma map_flat_map {A B C : Type} (f : B -> C) (g : A -> list B) (l : list A) :
  map f (flat_map g l) = flat_map (fun x => map f (g x)) l.
Proof.
  induction l as [|a l IH]; simpl; [reflexivity|].
  now rewrite map_app, IH.
Qed.

Lemma filter_flat_map {A B : Type} (p : B -> bool) (g : A -> list B)
    (l : list A) :
  filter p (flat_map g l) = flat_map (fun x => filter p (g x)) l.
Proof.
  induction l as [|a l IH]; simpl; [reflexivity|].
  now rewrite filter_app, IH.
Qed.

Lemma number_rows_fst (n : Z) (l : list row) : map fst (number_rows n l) = l.
Proof.
  revert n. induction l as [|r l IH]; simpl; intros n; [reflexivity|].
  now rewrite IH.
Qed.

Lemma number_rows_above (n : Z) (l : list row) :
  1 < n ->
  filter (fun rv => cell_eqb (snd rv) (Some (VInt 1))) (number_rows n l) = [].
Proof.
  revert n. induction l as [|r l IH]; simpl; intros n Hn; [reflexivity|].
  destruct (Z.eqb_spec n 1) as [E|E]; [lia|]. apply IH. lia.
Qed.

Lemma number_rows_rank1 (l : list row) :
  map fst (filter (fun rv => cell_eqb (snd rv) (Some (VInt 1)))
                  (number_rows 1 l)) = firstn 1 l.
Proof.
  destruct l as [|r l]; simpl; [reflexivity|].
  rewrite number_rows_above by lia. reflexivity.
Qed.

Section Engine.

Context {R : Resolver}.

Lemma partitions_rows (cols : list string) (w : WindowSpec) (rs p : list row)
    (r : row) :
  In p (partitions cols w rs) -> In r p -> In r rs.
Proof.
  unfold partitions. intros Hp Hr.
  apply in_map_iff in Hp as [k [<- _]].
  now apply filter_In in Hr as [Hr _].
Qed.

Lemma evaluate_window_rows (cols : list string) (w : WindowSpec)
    (rs : list row) (rv : row * cell) :
  In rv (evaluate_window cols (over row_number w) rs) -> In (fst rv) rs.
Proof.
  unfold evaluate_window, over. intros H.
  apply in_flat_map in H as [p [Hp H]].
  apply (partitions_rows cols w rs p); [assumption|].
  apply (sort_In (compare_rows cols (order_by w))).
  rewrite <- (number_rows_fst 1 (sort _ p)). now apply in_map.
Qed.

Lemma evaluate_window_rank1 (cols : list string) (w : WindowSpec)
    (rs : list row) :
  map fst (filter (fun rv => cell_eqb (snd rv) (Some (VInt 1)))
                  (evaluate_window cols (over row_number w) rs)) =
  flat_map (rank1 cols w) (partitions cols w rs).
Proof.
  unfold evaluate_window, over, rank1.
  rewrite filter_flat_map, map_flat_map.
  apply flat_map_ext. intros p. apply number_rows_rank1.
Qed.

Lemma call_desc_nulls_last (c : Column) :
  call_method c "desc_nulls_last" = Ok (mkSortOrder c Descending NullsLast).
Proof. reflexivity. Qed.

Lemma call_desc_null_lasts (c : Column) :
  call_method c "desc_null_lasts" =
  Raise (TypeError "'Column' object is not callable").
Proof. reflexivity. Qed.

(** The name of the rank column is a plain name. *)
Lemma cell_of_rn (cols : list string) (r : row) :
  cell_of cols "_rn" r = cell_at cols "_rn" r.
Proof. reflexivity. Qed.

Lemma resolve_rn (cols : list string) :
  resolve cols "_rn" =
  match matching "_rn" cols with
  | [] => Raise (AnalysisException "UNRESOLVED_COLUMN")
  | [_] => Ok tt
  | _ :: _ :: _ => Raise (AnalysisException "AMBIGUOUS_REFERENCE")
  end.
Proof. reflexivity. Qed.

Lemma matching_appended (cols : list string) (name : string) :
  matching name cols = [] -> matching name (cols ++ [name]) = [name].
Proof.
  intros E. unfold matching in *. rewrite filter_app, E. simpl.
  now rewrite resolver_refl.
Qed.

(** Attaching the rank, keeping rank 1 and dropping the rank column leaves
    the rank-1 row of every partition, less its cells under a column that
    answers to the rank column's name. *)
Lemma rank1_rows (cols cols' : list string) (w : WindowSpec)
    (attach : row -> cell -> row) (base : list row) :
  Forall (fun r : row => List.length r = List.length cols) base ->
  (forall r v, List.length r = List.length cols ->
               cell_of cols' "_rn" (attach r v) = v) ->
  (forall r v, List.length r = List.length cols ->
               drop_cells cols' "_rn" (attach r v) = drop_cells cols "_rn" r) ->
  map (drop_cells cols' "_rn")
      (filter (fun r => cell_eqb (cell_of cols' "_rn" r) (Some (VInt 1)))
              (map (fun rv => attach (fst rv) (snd rv))
                   (evaluate_window cols (over row_number w) base))) =
  map (drop_cells cols "_rn") (flat_map (rank1 cols w) (partitions cols w base)).
Proof.
  intros Hbase Hcell Hdrop. rewrite Forall_forall in Hbase.
  rewrite filter_map_swap, map_map.
  rewrite <- evaluate_window_rank1, map_map.
  rewrite (filter_ext_in
             (fun rv => cell_eqb (cell_of cols' "_rn" (attach (fst rv) (snd rv)))
                                 (Some (VInt 1)))
             (fun rv => cell_eqb (snd rv) (Some (VInt 1)))).
  - apply map_ext_in. intros rv Hrv. apply filter_In in Hrv as [Hrv _].
    apply Hdrop, Hbase. now apply (evaluate_window_rows cols w).
  - intros rv Hrv. rewrite Hcell; [reflexivity|].
    apply Hbase. now apply (evaluate_window_rows cols w).
Qed.

Lemma normalize_no_tiebreakers (df : DataFrame) (key_col seq_col ts_col : string)
    (tb : option (list string)) :
  well_formed df -> tb = None \/ tb = Some [] ->
  normalize_cdc_latest df key_col seq_col ts_col tb =
  (analyse (columns df) (cdc_window key_col seq_col ts_col) ;;;
   Ok (mkDataFrame
         (filter (fun c => negb (resolver c "_rn")) (columns df))
         (map (drop_cells (columns df) "_rn")
              (winners (columns df) (cdc_window key_col seq_col ts_col)
                       (rows df))))).
Proof.
  intros Hwf Htb.
  assert (Hbase : Forall (fun r : row => List.length r = List.length (columns df))
                         (distinct cells_eqb (rows df))).
  { apply Forall_forall. intros r Hr. apply distinct_incl in Hr.
    unfold well_formed in Hwf. rewrite Forall_forall in Hwf. now apply Hwf. }
  unfold normalize_cdc_latest, dedup_by.
  replace (match tb with Some l => l | None => [] end) with (@nil string)
    by (destruct Htb; subst; reflexivity).
  unfold dropDuplicates. rewrite check_subset_self.
  rewrite (distinct_rows_well_formed df Hwf).
  cbn [bind comprehension]. rewrite !call_desc_nulls_last. cbn [bind app].
  unfold withColumn, analyse, winners.
  cbn [columns rows snd over].
  change (orderBy (partitionBy key_col) _) with (cdc_window key_col seq_col ts_col).
  destruct (check_window (columns df) (cdc_window key_col seq_col ts_col))
    as [[]|e]; cbn [bind]; [|reflexivity].
  destruct (matching "_rn" (columns df)) as [|c1 rest] eqn:Em; cbn [bind].
  - unfold filter_eq. rewrite resolve_rn. cbn [columns rows].
    rewrite (matching_appended _ _ Em). cbn [bind].
    unfold drop. cbn [columns rows]. f_equal. f_equal.
    + rewrite filter_app, (filter_columns_absent _ _ Em). simpl.
      rewrite resolver_refl. simpl. apply app_nil_r.
    + apply (rank1_rows (columns df) (columns df ++ ["_rn"]) _
                        (fun r v => r ++ [v])); [assumption| |].
      * intros r v Hr. rewrite cell_of_rn. now apply cell_at_appended.
      * intros r v Hr. rewrite drop_cells_appended by assumption.
        symmetry. now apply drop_cells_absent.
  - unfold filter_eq. rewrite resolve_rn. cbn [columns rows].
    rewrite matching_renamed, Em.
    destruct rest as [|c2 rest]; cbn [map bind]; [|reflexivity].
    unfold drop. cbn [columns rows]. f_equal. f_equal.
    + apply filter_columns_renamed.
    + apply (rank1_rows (columns df) _ _
                        (fun r v => replace_cells (columns df) "_rn" v r));
        [assumption| |].
      * intros r v Hr. rewrite cell_of_rn. apply cell_at_replaced; [|assumption].
        rewrite Em. discriminate.
      * intros r v Hr. apply drop_cells_replaced.
Qed.

End Engine.

(** ** The winners *)

Lemma distinct_map_distinct {A B : Type} (sa : A -> A -> bool)
    (sb : B -> B -> bool) (f : A -> B) (l : list A) :
  (forall x y, sa x y = true <-> x = y) ->
  (forall x y, sb x y = true <-> x = y) ->
  distinct sb (map f (distinct sa l)) = distinct sb (map f l).
Proof.
  intros Ha Hb.
  assert (Hrefl : forall x, sb x x = true) by (intros; now apply Hb).
  induction l as [|a l IH]; simpl; [reflexivity|].
  f_equal. rewrite <- IH.
  rewrite !(filter_distinct sb Hb), !filter_map_swap.
  do 2 f_equal. rewrite filter_comm. apply filter_all, Forall_forall.
  intros y Hy. apply filter_In in Hy as [_ Hy].
  destruct (sa a y) eqn:E; [|reflexivity].
  apply Ha in E. subst y. now rewrite Hrefl in Hy.
Qed.

Lemma distinct_map_inj {A B : Type} (sa : A -> A -> bool)
    (sb : B -> B -> bool) (g : A -> B) (l : list A) :
  (forall x y, sb (g x) (g y) = sa x y) ->
  distinct sb (map g l) = map g (distinct sa l).
Proof.
  intros H. induction l as [|a l IH]; simpl; [reflexivity|].
  f_equal. rewrite IH, filter_map_swap. f_equal.
  apply filter_ext. intros y. now rewrite H.
Qed.

Lemma flat_map_map {A B C : Type} (f : A -> B) (g : B -> list C) (l : list A) :
  flat_map g (map f l) = flat_map (fun x => g (f x)) l.
Proof.
  induction l as [|a l IH]; simpl; [reflexivity|]. now rewrite IH.
Qed.

Section Winners.

Context {R : Resolver}.
Variables (cols : list string) (w : WindowSpec).

Lemma rank1_spec (p : list row) (x : row) :
  In x (rank1 cols w p) ->
  In x p /\ forall y, In y p -> compare_rows cols (order_by w) x y <> Gt.
Proof.
  unfold rank1. intros H.
  destruct (sort (compare_rows cols (order_by w)) p) as [|h t] eqn:E;
    simpl in H; [contradiction|].
  destruct H as [<-|[]]. split.
  - apply (sort_In (compare_rows cols (order_by w))). rewrite E. now left.
  - apply (sort_head_first _ (compare_rows_preorder cols (order_by w)) p h t E).
Qed.

Lemma rank1_nonempty (p : list row) :
  p <> [] -> exists x, rank1 cols w p = [x].
Proof.
  intros H. unfold rank1.
  pose proof (sort_nonempty (compare_rows cols (order_by w)) p H) as Hs.
  destruct (sort (compare_rows cols (order_by w)) p) as [|h t];
    [congruence|]. now exists h.
Qed.

Lemma winners_by_key (rs : list row) :
  winners cols w rs =
  flat_map (fun k => rank1 cols w
                       (filter (fun r => cells_eqb (partition_key cols w r) k)
                               (distinct cells_eqb rs)))
           (distinct cells_eqb (map (partition_key cols w) rs)).
Proof.
  unfold winners, partitions. rewrite flat_map_map.
  now rewrite (distinct_map_distinct cells_eqb cells_eqb _ _
                 cells_eqb_eq cells_eqb_eq).
Qed.

Lemma winners_spec (rs : list row) (x : row) :
  In x (winners cols w rs) ->
  In x rs /\
  forall y, In y rs -> partition_key cols w y = partition_key cols w x ->
            compare_rows cols (order_by w) x y <> Gt.
Proof.
  rewrite winners_by_key. intros H.
  apply in_flat_map in H as [k [_ H]].
  apply rank1_spec in H as [Hx Hmax].
  apply filter_In in Hx as [Hx Hk]. apply cells_eqb_eq in Hk.
  split; [now apply distinct_incl in Hx|].
  intros y Hy Hyk. apply Hmax, filter_In. split.
  - now apply (distinct_In cells_eqb cells_eqb_eq).
  - apply cells_eqb_eq. congruence.
Qed.

Lemma winners_partition_keys (rs : list row) :
  map (partition_key cols w) (winners cols w rs) =
  distinct cells_eqb (map (partition_key cols w) rs).
Proof.
  rewrite winners_by_key.
  assert (H : forall k, In k (distinct cells_eqb (map (partition_key cols w) rs)) ->
                        exists r, In r (distinct cells_eqb rs) /\
                                  partition_key cols w r = k).
  { intros k Hk. apply distinct_incl, in_map_iff in Hk as [r [<- Hr]].
    exists r. split; [|reflexivity].
    now apply (distinct_In cells_eqb cells_eqb_eq). }
  induction (distinct cells_eqb (map (partition_key cols w) rs)) as [|k ks IH];
    simpl; [reflexivity|].
  rewrite map_app, IH by (intros; apply H; now right).
  destruct (H k (or_introl eq_refl)) as [r [Hr Hk]].
  destruct (rank1_nonempty
              (filter (fun r => cells_eqb (partition_key cols w r) k)
                      (distinct cells_eqb rs))) as [x Hx].
  { intros E.
    assert (Hin : In r (filter (fun r => cells_eqb (partition_key cols w r) k)
                               (distinct cells_eqb rs))).
    { apply filter_In. split; [assumption|]. now apply cells_eqb_eq. }
    rewrite E in Hin. contradiction. }
  rewrite Hx. simpl. f_equal.
  assert (Hin : In x (rank1 cols w
                        (filter (fun r => cells_eqb (partition_key cols w r) k)
                                (distinct cells_eqb rs))))
    by (rewrite Hx; now left).
  apply rank1_spec in Hin as [Hin _].
  apply filter_In in Hin as [_ Hin]. now apply cells_eqb_eq.
Qed.

End Winners.

(** ** Keys as cells *)

Lemma Permutation_filter {A : Type} (p : A -> bool) (l l' : list A) :
  Permutation l l' -> Permutation (filter p l) (filter p l').
Proof.
  induction 1 as [|x l l' _ IH|x y l|l l' l'' _ IH1 _ IH2]; simpl.
  - constructor.
  - destruct (p x); [now constructor|assumption].
  - destruct (p x), (p y); try reflexivity. apply perm_swap.
  - now transitivity (filter p l').
Qed.

Lemma filter_none {A : Type} (p : A -> bool) (l : list A) :
  (forall x, In x l -> p x = false) -> filter p l = [].
Proof.
  induction l as [|a l IH]; simpl; intros H; [reflexivity|].
  rewrite (H a) by now left. apply IH. intros; apply H; now right.
Qed.

Lemma filter_one_of_NoDup {A B : Type} (eqb : B -> B -> bool) (f : A -> B)
    (l : list A) (x : A) :
  (forall a b, eqb a b = true <-> a = b) ->
  NoDup (map f l) -> In x l ->
  List.length (filter (fun r => eqb (f r) (f x)) l) = 1%nat.
Proof.
  intros Heq. induction l as [|a l IH]; simpl; intros Hnd Hx; [contradiction|].
  inversion Hnd as [|? ? Hna Hnd']; subst.
  destruct Hx as [->|Hx].
  - replace (eqb (f x) (f x)) with true by (symmetry; now apply Heq).
    simpl. f_equal.
    rewrite filter_none; [reflexivity|].
    intros r Hr. destruct (eqb (f r) (f x)) eqn:E; [|reflexivity].
    apply Heq in E. exfalso. apply Hna. rewrite <- E. now apply in_map.
  - destruct (eqb (f a) (f x)) eqn:E.
    + apply Heq in E. exfalso. apply Hna. rewrite E. now apply in_map.
    + now apply IH.
Qed.

Section Keys.

Context {R : Resolver}.

Lemma cell_at_hd (cols : list string) (part : string) (r : row) :
  cell_at cols part r =
  match cells_of cols part r with [] => None | x :: _ => x end.
Proof.
  revert r. induction cols as [|c cols IH]; intros [|x r]; simpl;
    try reflexivity.
  destruct (resolver c part); [reflexivity|apply IH].
Qed.

Lemma cell_of_hd (cols : list string) (name : string) (r : row) :
  cell_of cols name r =
  match cells_of cols (attribute name) r with [] => None | x :: _ => x end.
Proof. apply cell_at_hd. Qed.

Lemma cells_of_absent (cols : list string) (name : string) (r : row) :
  matching name cols = [] -> cells_of cols name r = [].
Proof.
  revert r. induction cols as [|c cols IH]; intros [|x r]; simpl;
    intros E; try reflexivity.
  destruct (resolver c name); [discriminate|now apply IH].
Qed.

Lemma cells_of_unique (cols : list string) (name c : string) (r : row) :
  matching name cols = [c] -> List.length r = List.length cols ->
  cells_of cols name r = [cell_at cols name r].
Proof.
  revert r. induction cols as [|c0 cols IH]; intros [|x r]; simpl;
    intros E H; try discriminate.
  injection H as H. destruct (resolver c0 name).
  - injection E as _ E. now rewrite cells_of_absent.
  - now apply IH.
Qed.

(** A reference that resolves has a name of one part, which answers to
    exactly one column. *)
Lemma resolve_ok_iff (cols : list string) (name : string) :
  resolve cols name = Ok tt <->
  exists part c,
    column_expr name = Ok (UnresolvedAttribute [part]) /\
    matching part cols = [c].
Proof.
  unfold resolve. split.
  - destruct (column_expr name) as [[t|[|part [|q nested]]]|e]; simpl;
      try discriminate;
      destruct (matching part cols) as [|c [|c' rest]] eqn:Em;
      try discriminate.
    intros _. now exists part, c.
  - intros [part [c [E Hc]]]. rewrite E. simpl. now rewrite Hc.
Qed.



Lemma resolve_ok_inv (cols : list string) (name : string) :
  resolve cols name = Ok tt -> exists c, matching (attribute name) cols = [c].
Proof.
  intros H. apply resolve_ok_iff in H as [part [c [E Hc]]].
  exists c. unfold attribute. now rewrite E.
Qed.

Lemma analyse_ok_inv (cols : list string) (key_col seq_col ts_col : string) :
  analyse cols (cdc_window key_col seq_col ts_col) = Ok tt ->
  resolve cols key_col = Ok tt /\ resolve cols seq_col = Ok tt /\
  resolve cols ts_col = Ok tt /\
  (List.length (matching "_rn" cols) <= 1)%nat.
Proof.
  unfold analyse, check_window, cdc_window. simpl.
  destruct (resolve cols key_col) as [[]|e]; simpl; [|discriminate].
  destruct (resolve cols seq_col) as [[]|e]; simpl; [|discriminate].
  destruct (resolve cols ts_col) as [[]|e]; simpl; [|discriminate].
  destruct (matching "_rn" cols) as [|c [|c' rest]]; simpl;
    try discriminate; intros _; repeat split; lia.
Qed.

Lemma analyse_ok (cols : list string) (key_col seq_col ts_col : string) :
  resolve cols key_col = Ok tt -> resolve cols seq_col = Ok tt ->
  resolve cols ts_col = Ok tt ->
  (List.length (matching "_rn" cols) <= 1)%nat ->
  analyse cols (cdc_window key_col seq_col ts_col) = Ok tt.
Proof.
  intros Hk Hs Ht Hrn. unfold analyse, check_window, cdc_window. simpl.
  rewrite Hk, Hs, Ht. simpl.
  destruct (matching "_rn" cols) as [|c [|c' rest]]; simpl in *;
    try reflexivity; lia.
Qed.

Lemma partition_key_cdc (cols : list string) (key_col seq_col ts_col : string)
    (r : row) :
  partition_key cols (cdc_window key_col seq_col ts_col) r =
  cells_of cols (attribute key_col) r.
Proof. unfold partition_key, project. simpl. apply app_nil_r. Qed.

Lemma partition_key_cell (cols : list string) (key_col seq_col ts_col : string)
    (r1 r2 : row) :
  partition_key cols (cdc_window key_col seq_col ts_col) r1 =
  partition_key cols (cdc_window key_col seq_col ts_col) r2 ->
  cell_of cols key_col r1 = cell_of cols key_col r2.
Proof. rewrite !partition_key_cdc, !cell_of_hd. now intros ->. Qed.

Lemma partition_key_single (cols : list string) (key_col seq_col ts_col : string)
    (r : row) :
  resolve cols key_col = Ok tt -> List.length r = List.length cols ->
  partition_key cols (cdc_window key_col seq_col ts_col) r =
  [cell_of cols key_col r].
Proof.
  intros Hk Hr. apply resolve_ok_inv in Hk as [c Hc].
  rewrite partition_key_cdc. unfold cell_of. now apply cells_of_unique with c.
Qed.

(** The keys of the winners are the distinct keys of the batch, in order of
    first appearance. *)
Lemma winners_keys (cols : list string) (key_col seq_col ts_col : string)
    (rs : list row) :
  resolve cols key_col = Ok tt ->
  Forall (fun r : row => List.length r = List.length cols) rs ->
  map (cell_of cols key_col)
      (winners cols (cdc_window key_col seq_col ts_col) rs) =
  distinct cell_eqb (map (cell_of cols key_col) rs).
Proof.
  intros Hk Hrs. rewrite Forall_forall in Hrs.
  pose proof (winners_partition_keys cols
                (cdc_window key_col seq_col ts_col) rs) as H.
  rewrite (map_ext_in _ (fun r => [cell_of cols key_col r])) in H.
  2:{ intros r Hr. apply partition_key_single; [assumption|].
      apply Hrs. now apply winners_spec in Hr as [Hr _]. }
  rewrite (map_ext_in _ (fun r => [cell_of cols key_col r]) rs) in H.
  2:{ intros r Hr. apply partition_key_single; [assumption|]. now apply Hrs. }
  rewrite <- (map_map (cell_of cols key_col) (fun c => [c])) in H.
  rewrite <- (map_map (cell_of cols key_col) (fun c => [c]) rs) in H.
  rewrite (distinct_map_inj cell_eqb cells_eqb (fun c => [c])) in H.
  2:{ intros x y. simpl. apply andb_true_r. }
  revert H. generalize (distinct cell_eqb (map (cell_of cols key_col) rs)).
  induction (map (cell_of cols key_col)
                 (winners cols (cdc_window key_col seq_col ts_col) rs))
    as [|a l IH]; intros [|b m]; simpl; intros E; try discriminate;
    [reflexivity|].
  injection E as -> E. f_equal. now apply IH.
Qed.

(** A winner is a row of the batch that no row of its key outranks. *)
Lemma winners_maximal (cols : list string) (key_col seq_col ts_col : string)
    (rs : list row) (x : row) :
  resolve cols key_col = Ok tt ->
  Forall (fun r : row => List.length r = List.length cols) rs ->
  In x (winners cols (cdc_window key_col seq_col ts_col) rs) ->
  In x rs /\
  forall y, In y rs -> cell_of cols key_col y = cell_of cols key_col x ->
            ~ outranks cols (cdc_window key_col seq_col ts_col) y x.
Proof.
  intros Hk Hrs Hx. rewrite Forall_forall in Hrs.
  apply winners_spec in Hx as [Hx Hmax]. split; [assumption|].
  intros y Hy Hkey Hout. unfold outranks in Hout.
  apply (Hmax y Hy).
  - rewrite !(partition_key_single cols key_col seq_col ts_col) by auto.
    now rewrite Hkey.
  - rewrite compare_rows_antisym, Hout. reflexivity.
Qed.

(** Every key of the batch has a winner. *)
Lemma winner_of_key (cols : list string) (key_col seq_col ts_col : string)
    (rs : list row) (x : row) :
  resolve cols key_col = Ok tt ->
  Forall (fun r : row => List.length r = List.length cols) rs ->
  In x rs ->
  exists r, In r (winners cols (cdc_window key_col seq_col ts_col) rs) /\
            cell_of cols key_col r = cell_of cols key_col x.
Proof.
  intros Hk Hrs Hx.
  assert (H : In (cell_of cols key_col x)
                 (map (cell_of cols key_col)
                      (winners cols (cdc_window key_col seq_col ts_col) rs))).
  { rewrite (winners_keys cols key_col seq_col ts_col rs Hk Hrs).
    apply (distinct_In cell_eqb cell_eqb_eq). now apply in_map. }
  apply in_map_iff in H as [r [E Hr]]. now exists r.
Qed.

(** A row that outranks every other row of its key is the winner of its
    key. *)
Lemma strict_winner (cols : list string) (key_col seq_col ts_col : string)
    (rs : list row) (x : row) :
  resolve cols key_col = Ok tt ->
  Forall (fun r : row => List.length r = List.length cols) rs ->
  In x rs ->
  (forall y, In y rs -> y <> x ->
             cell_of cols key_col y = cell_of cols key_col x ->
             outranks cols (cdc_window key_col seq_col ts_col) x y) ->
  In x (winners cols (cdc_window key_col seq_col ts_col) rs).
Proof.
  intros Hk Hrs Hx Hstrict.
  destruct (winner_of_key cols key_col seq_col ts_col rs x Hk Hrs Hx)
    as [r [Hr Hkey]].
  destruct (cells_eqb r x) eqn:E.
  - apply cells_eqb_eq in E. now subst r.
  - apply cells_eqb_neq in E. exfalso.
    pose proof (winners_maximal cols key_col seq_col ts_col rs r Hk Hrs Hr)
      as [Hin Hmax].
    apply (Hmax x Hx); [congruence|]. now apply Hstrict.
Qed.

Lemma NoDup_map_eq {A B : Type} (f : A -> B) (l : list A) (x y : A) :
  NoDup (map f l) -> In x l -> In y l -> f x = f y -> x = y.
Proof.
  induction l as [|a l IH]; simpl; intros Hnd Hx Hy E; [contradiction|].
  inversion Hnd as [|? ? Hna Hnd']; subst.
  destruct Hx as [->|Hx], Hy as [->|Hy]; try reflexivity.
  - exfalso. apply Hna. rewrite E. now apply in_map.
  - exfalso. apply Hna. rewrite <- E. now apply in_map.
  - now apply IH.
Qed.

End Keys.

(** ** What [normalize_cdc_latest] returns *)

Section Resolution.

Context {R : Resolver}.

Lemma tiebreakers_raise (df : DataFrame) (key_col seq_col ts_col c : string)
    (cs : list string) :
  normalize_cdc_latest df key_col seq_col ts_col (Some (c :: cs)) =
  Raise (TypeError "'Column' object is not callable").
Proof.
  unfold normalize_cdc_latest, dedup_by, dropDuplicates.
  rewrite check_subset_self. cbn [bind].
  rewrite !call_desc_nulls_last. cbn [bind comprehension].
  rewrite call_desc_null_lasts. reflexivity.
Qed.

Lemma normalize_ok_inv (df out : DataFrame) (key_col seq_col ts_col : string)
    (tb : option (list string)) :
  well_formed df ->
  normalize_cdc_latest df key_col seq_col ts_col tb = Ok out ->
  (tb = None \/ tb = Some []) /\
  analyse (columns df) (cdc_window key_col seq_col ts_col) = Ok tt /\
  out = mkDataFrame
          (filter (fun c => negb (resolver c "_rn")) (columns df))
          (map (drop_cells (columns df) "_rn")
               (winners (columns df) (cdc_window key_col seq_col ts_col)
                        (rows df))).
Proof.
  intros Hwf H.
  assert (Htb : tb = None \/ tb = Some []).
  { destruct tb as [[|c cs]|]; auto.
    rewrite tiebreakers_raise in H. discriminate. }
  split; [assumption|].
  rewrite (normalize_no_tiebreakers df _ _ _ tb Hwf Htb) in H.
  destruct (analyse (columns df) (cdc_window key_col seq_col ts_col))
    as [[]|e]; simpl in H; [|discriminate].
  split; [reflexivity|]. now injection H.
Qed.

Lemma well_formed_rows (df : DataFrame) (r : row) :
  well_formed df -> In r (rows df) ->
  List.length r = List.length (columns df).
Proof.
  unfold well_formed. rewrite Forall_forall. intros H. apply H.
Qed.

Lemma drop_cells_winners (df : DataFrame) (w : WindowSpec) :
  matching "_rn" (columns df) = [] ->
  map (drop_cells (columns df) "_rn") (winners (columns df) w (rows df)) =
  winners (columns df) w (rows df).
Proof.
  intros E. rewrite (map_ext _ (fun r => r)); [apply map_id|].
  intros r. now apply drop_cells_absent.
Qed.

End Resolution.

(** ** The claims *)



(** C1, at the failing input: two states of K1 tied on [seq_num] and
    [event_time], with [updated_at] declared as tiebreaker.  The claim makes
    the row with [updated_at = 2] the winner; the call raises instead,
    under either way of resolving column names. *)
Theorem C1_tiebreaker_order_not_applied :
  @normalize_cdc_latest caseSensitiveResolution Examples.tiebreak_batch
      "id" "seq_num" "event_time" (Some ["updated_at"]) =
    Raise (TypeError "'Column' object is not callable") /\
  @normalize_cdc_latest caseInsensitiveResolution Examples.tiebreak_batch
      "id" "seq_num" "event_time" (Some ["updated_at"]) =
    Raise (TypeError "'Column' object is not callable").
Proof. split; reflexivity. Qed.

(** C7.  On a batch whose rows fit its schema, a successful call returns one
    record per distinct key of the input, so never more records than
    distinct keys: the records are the rank-1 rows of the keys (less any
    cell under a column called like the rank column), the keys of those rows
    are the distinct keys of the input in order of first appearance, and
    each of those rows is a row of the input that no row of its key
    outranks. *)
Theorem C7_one_record_per_key :
  forall (R : Resolver) (df out : DataFrame) (key_col seq_col ts_col : string)
         (tb : option (list string)),
    well_formed df ->
    normalize_cdc_latest df key_col seq_col ts_col tb = Ok out ->
    let cols := columns df in
    let w := cdc_window key_col seq_col ts_col in
    let keys := distinct cell_eqb (map (cell_of cols key_col) (rows df)) in
    rows out = map (drop_cells cols "_rn") (winners cols w (rows df)) /\
    (matching "_rn" cols = [] -> rows out = winners cols w (rows df)) /\
    map (cell_of cols key_col) (winners cols w (rows df)) = keys /\
    NoDup keys /\
    List.length (rows out) = List.length keys /\
    (List.length (rows out) <= List.length keys)%nat /\
    (forall x, In x (winners cols w (rows df)) ->
               In x (rows df) /\
               forall y, In y (rows df) ->
                         cell_of cols key_col y = cell_of cols key_col x ->
                         ~ outranks cols w y x).
Proof.
  intros R df out key_col seq_col ts_col tb Hwf H cols w keys.
  apply normalize_ok_inv in H as [_ [Ha ->]]; [|assumption].
  apply analyse_ok_inv in Ha as [Hk _]. cbn [rows].
  pose proof (winners_keys cols key_col seq_col ts_col (rows df) Hk Hwf) as Hkeys.
  assert (Hlen : List.length (map (drop_cells cols "_rn")
                                  (winners cols w (rows df))) =
                 List.length keys).
  { rewrite length_map. unfold keys. rewrite <- Hkeys. now rewrite length_map. }
  split; [reflexivity|]. split; [apply drop_cells_winners|].
  split; [assumption|]. split.
  { apply distinct_NoDup. intros c. now apply cell_eqb_eq. }
  split; [assumption|]. split; [apply Nat.eq_le_incl, Hlen|].
  intros x Hx. now apply winners_maximal.
Qed.

Lemma C7_one_record_per_key_witness :
  well_formed Examples.update_batch /\
  normalize_cdc_latest (R := Examples.session) Examples.update_batch
      "id" "seq_num" "event_time" None =
    Ok (mkDataFrame Examples.schema [Examples.update_latest]) /\
  [Examples.update_latest] =
    winners (R := Examples.session) Examples.schema
            (cdc_window "id" "seq_num" "event_time")
            (rows Examples.update_batch).
Proof.
  assert (Hwf : well_formed Examples.update_batch) by (repeat constructor).
  assert (Hrun : normalize_cdc_latest (R := Examples.session)
                   Examples.update_batch "id" "seq_num" "event_time" None =
                 Ok (mkDataFrame Examples.schema [Examples.update_latest]))
    by reflexivity.
  split; [exact Hwf|]. split; [exact Hrun|].
  refine (proj1 (proj2 (C7_one_record_per_key Examples.session
                          Examples.update_batch _ "id" "seq_num" "event_time"
                          None Hwf Hrun)) _).
  reflexivity.
Defined.

Lemma drop_cells_length {R : Resolver} (cols : list string) (name : string)
    (r : row) :
  List.length r = List.length cols ->
  List.length (drop_cells cols name r) =
  List.length (filter (fun c => negb (resolver c name)) cols).
Proof.
  revert r. induction cols as [|c cols IH]; intros [|x r]; simpl;
    intros H; try discriminate; [reflexivity|].
  injection H as H. destruct (resolver c name); simpl; now rewrite IH.
Qed.

(** C10, as stated, fails on a batch that already has a column called
    [_rn]: the call succeeds and the output has lost that column. *)
Lemma C10_rank_column_clash :
  exists out,
    @normalize_cdc_latest caseInsensitiveResolution Examples.rn_batch
        "id" "seq_num" "event_time" None = Ok out /\
    @normalize_cdc_latest caseSensitiveResolution Examples.rn_batch
        "id" "seq_num" "event_time" None = Ok out /\
    columns Examples.rn_batch = ["id"; "seq_num"; "event_time"; "_rn"] /\
    columns out = ["id"; "seq_num"; "event_time"] /\
    columns out <> columns Examples.rn_batch.
Proof.
  exists (mkDataFrame ["id"; "seq_num"; "event_time"]
            [ [Examples.str "K1"; Examples.int 2;
               Examples.int (Examples.T0 + Examples.day)] ]).
  repeat split; try reflexivity. discriminate.
Qed.

(** C10, amended.  On a batch whose rows fit its schema, a successful call
    returns a frame whose columns are the input's columns other than those
    called like the rank column [_rn], with rows that fit them; when the
    input has no such column, the output has exactly the input's columns
    and every output record is a row of the input. *)
Theorem C10_output_columns :
  forall (R : Resolver) (df out : DataFrame) (key_col seq_col ts_col : string)
         (tb : option (list string)),
    well_formed df ->
    normalize_cdc_latest df key_col seq_col ts_col tb = Ok out ->
    columns out = filter (fun c => negb (resolver c "_rn")) (columns df) /\
    matching "_rn" (columns out) = [] /\
    well_formed out /\
    (matching "_rn" (columns df) = [] ->
     columns out = columns df /\
     forall r, In r (rows out) -> In r (rows df)).
Proof.
  intros R df out key_col seq_col ts_col tb Hwf H.
  apply normalize_ok_inv in H as [_ [Ha ->]]; [|assumption].
  apply analyse_ok_inv in Ha as [Hk _]. cbn [columns rows].
  split; [reflexivity|]. split; [|split].
  - apply filter_none. intros c Hc. apply filter_In in Hc as [_ Hc].
    now destruct (resolver c "_rn").
  - unfold well_formed. cbn [columns rows]. apply Forall_forall.
    intros r Hr. apply in_map_iff in Hr as [x [<- Hx]].
    apply drop_cells_length. apply (well_formed_rows df x Hwf).
    now apply winners_spec in Hx as [Hx _].
  - intros E. split; [now apply filter_columns_absent|].
    intros r Hr. rewrite drop_cells_winners in Hr by assumption.
    now apply winners_spec in Hr as [Hr _].
Qed.

Lemma C10_output_columns_witness :
  well_formed Examples.delete_batch /\
  normalize_cdc_latest (R := Examples.session) Examples.delete_batch
      "id" "seq_num" "event_time" None =
    Ok (mkDataFrame Examples.schema [Examples.delete_latest]) /\
  matching (R := Examples.session) "_rn" (columns Examples.delete_batch) = [] /\
  columns (mkDataFrame Examples.schema [Examples.delete_latest]) =
    columns Examples.delete_batch.
Proof.
  assert (Hwf : well_formed Examples.delete_batch) by (repeat constructor).
  assert (Hrun : normalize_cdc_latest (R := Examples.session)
                   Examples.delete_batch "id" "seq_num" "event_time" None =
                 Ok (mkDataFrame Examples.schema [Examples.delete_latest]))
    by reflexivity.
  assert (Hrn : matching (R := Examples.session) "_rn"
                         (columns Examples.delete_batch) = []) by reflexivity.
  split; [exact Hwf|]. split; [exact Hrun|]. split; [exact Hrn|].
  exact (proj1 (proj2 (proj2 (proj2
           (C10_output_columns Examples.session Examples.delete_batch _
              "id" "seq_num" "event_time" None Hwf Hrun))) Hrn)).
Defined.

(** C3.  No step of the resolution looks at [op].  On a batch whose rows
    fit its schema, let [x] be an event such that every event of its key
    either is outranked by [x] or has [op = "D"] (so [x] itself is a
    delete, and so is any event tied with it for the first rank).  Then the
    event emitted for the key of [x] is a delete of the batch that no event
    of the key outranks; it is [x] itself when [x] outranks every other
    event of its key.  When the batch has no column called like the rank
    column, the output holds exactly one record for that key, a row of the
    batch with [op = "D"]. *)
Theorem C3_delete_is_retained :
  forall (R : Resolver) (df out : DataFrame)
         (key_col seq_col ts_col op_col : string) (tb : option (list string))
         (x : row),
    well_formed df ->
    normalize_cdc_latest df key_col seq_col ts_col tb = Ok out ->
    In x (rows df) ->
    let cols := columns df in
    let w := cdc_window key_col seq_col ts_col in
    (forall y, In y (rows df) ->
               cell_of cols key_col y = cell_of cols key_col x ->
               outranks cols w x y \/ cell_of cols op_col y = Some (VStr "D")) ->
    (exists r,
        In r (rows df) /\
        cell_of cols key_col r = cell_of cols key_col x /\
        cell_of cols op_col r = Some (VStr "D") /\
        (forall y, In y (rows df) ->
                   cell_of cols key_col y = cell_of cols key_col r ->
                   ~ outranks cols w y r) /\
        In (drop_cells cols "_rn" r) (rows out) /\
        ((forall y, In y (rows df) -> y <> x ->
                    cell_of cols key_col y = cell_of cols key_col x ->
                    outranks cols w x y) -> r = x) /\
        (matching "_rn" cols = [] ->
         In r (rows out) /\
         cell_of (columns out) op_col r = Some (VStr "D") /\
         (forall r', In r' (rows out) ->
                     cell_of (columns out) key_col r' =
                     cell_of (columns out) key_col r -> r' = r) /\
         List.length
           (filter (fun r' => cell_eqb (cell_of (columns out) key_col r')
                                       (cell_of (columns out) key_col x))
                   (rows out)) = 1%nat)).
Proof.
  intros R df out key_col seq_col ts_col op_col tb x Hwf H Hx cols w Hdel.
  subst cols w.
  apply normalize_ok_inv in H as [_ [Ha ->]]; [|assumption].
  apply analyse_ok_inv in Ha as [Hk _]. cbn [columns rows].
  destruct (winner_of_key (columns df) key_col seq_col ts_col (rows df) x
              Hk Hwf Hx) as [r [Hr Hkey]].
  pose proof (winners_maximal (columns df) key_col seq_col ts_col (rows df) r
                Hk Hwf Hr) as [Hin Hmax].
  assert (Hnd : NoDup (map (cell_of (columns df) key_col)
                           (winners (columns df)
                              (cdc_window key_col seq_col ts_col) (rows df)))).
  { rewrite (winners_keys (columns df) key_col seq_col ts_col (rows df) Hk Hwf).
    apply distinct_NoDup. intros c. now apply cell_eqb_eq. }
  assert (Hop : cell_of (columns df) op_col r = Some (VStr "D")).
  { destruct (Hdel r Hin Hkey) as [Hout|Hop]; [|assumption].
    exfalso. apply (Hmax x Hx); [now symmetry|assumption]. }
  exists r. split; [assumption|]. split; [assumption|].
  split; [assumption|]. split; [assumption|]. split; [now apply in_map|].
  split.
  { intros Hstrict.
    destruct (cells_eqb r x) eqn:E; [now apply cells_eqb_eq|].
    apply cells_eqb_neq in E. exfalso.
    apply (Hmax x Hx); [now symmetry|]. now apply Hstrict. }
  intros E. rewrite (drop_cells_winners df _ E).
  rewrite (filter_columns_absent _ _ E).
  split; [assumption|]. split; [assumption|]. split.
  { intros r' Hr' Hk'.
    now apply (NoDup_map_eq (cell_of (columns df) key_col)
                 (winners (columns df) (cdc_window key_col seq_col ts_col)
                          (rows df))). }
  rewrite <- Hkey.
  now apply filter_one_of_NoDup; [apply cell_eqb_eq| |].
Qed.

Lemma C3_delete_is_retained_witness :
  well_formed Examples.two_key_batch /\
  normalize_cdc_latest (R := Examples.session) Examples.two_key_batch
      "id" "seq_num" "event_time" None =
    Ok (mkDataFrame Examples.schema Examples.two_key_latest) /\
  In Examples.delete_latest (rows Examples.two_key_batch) /\
  exists r,
    r = Examples.delete_latest /\
    In r Examples.two_key_latest /\
    cell_of (R := Examples.session) Examples.schema "op" r = Some (VStr "D") /\
    List.length
      (filter (fun r' => cell_eqb
                           (cell_of (R := Examples.session) Examples.schema
                                    "id" r')
                           (cell_of (R := Examples.session) Examples.schema
                                    "id" Examples.delete_latest))
              Examples.two_key_latest) = 1%nat.
Proof.
  assert (Hwf : well_formed Examples.two_key_batch) by (repeat constructor).
  assert (Hrun : normalize_cdc_latest (R := Examples.session)
                   Examples.two_key_batch "id" "seq_num" "event_time" None =
                 Ok (mkDataFrame Examples.schema Examples.two_key_latest))
    by reflexivity.
  assert (Hin : In Examples.delete_latest (rows Examples.two_key_batch))
    by (right; right; right; left; reflexivity).
  split; [exact Hwf|]. split; [exact Hrun|]. split; [exact Hin|].
  destruct (C3_delete_is_retained Examples.session Examples.two_key_batch _
              "id" "seq_num" "event_time" "op" None Examples.delete_latest
              Hwf Hrun Hin)
    as [r [_ [_ [_ [_ [_ [Hx Hout]]]]]]].
  - intros y [<-|[<-|[<-|[<-|[]]]]] Hkey;
      try discriminate Hkey; [left|right]; reflexivity.
  - exists r. split.
    + apply Hx. intros y [<-|[<-|[<-|[<-|[]]]]] Hne Hkey;
        try discriminate Hkey; [reflexivity|now destruct Hne].
    + destruct (Hout eq_refl) as [H1 [H2 [_ H4]]]. now repeat split.
Defined.

(** ** Null ordering *)

Section NullsLast.

Context {R : Resolver}.
Variables (cols : list string) (key_col seq_col ts_col : string).

Lemma null_seq_outranked (a b : row) :
  cell_of cols seq_col a = None -> cell_of cols seq_col b <> None ->
  outranks cols (cdc_window key_col seq_col ts_col) b a.
Proof.
  intros Ha Hb. unfold outranks. simpl. rewrite Ha.
  destruct (cell_of cols seq_col b); [reflexivity|congruence].
Qed.

Lemma null_ts_outranked (a b : row) :
  cell_of cols seq_col a = cell_of cols seq_col b ->
  cell_of cols ts_col a = None -> cell_of cols ts_col b <> None ->
  outranks cols (cdc_window key_col seq_col ts_col) b a.
Proof.
  intros Hs Ha Hb. unfold outranks. simpl. rewrite Hs.
  replace (compare_cells _ (cell_of cols seq_col b) (cell_of cols seq_col b))
    with Eq by (symmetry; now apply compare_cells_eq).
  rewrite Ha. destruct (cell_of cols ts_col b); [reflexivity|congruence].
Qed.

Lemma outranked_not_winner (rs : list row) (a b : row) :
  resolve cols key_col = Ok tt ->
  Forall (fun r : row => List.length r = List.length cols) rs ->
  In b rs -> cell_of cols key_col a = cell_of cols key_col b ->
  outranks cols (cdc_window key_col seq_col ts_col) b a ->
  ~ In a (winners cols (cdc_window key_col seq_col ts_col) rs).
Proof.
  intros Hk Hrs Hb Hkey Hout Ha.
  apply winners_maximal in Ha as [_ Hmax]; try assumption.
  now apply (Hmax b Hb).
Qed.

End NullsLast.

(** C4, as stated, fails for "a row with more complete ranking information
    outranks one with less": Y has both ordering columns, X has no
    [event_time], and the resolved record is X. *)
Lemma C4_more_complete_row_loses :
  In Examples.null_ts_X (rows Examples.null_ts_batch) /\
  In Examples.null_ts_Y (rows Examples.null_ts_batch) /\
  null_count (R := Examples.session) Examples.schema
             ["seq_num"; "event_time"] Examples.null_ts_Y = 0%nat /\
  null_count (R := Examples.session) Examples.schema
             ["seq_num"; "event_time"] Examples.null_ts_X = 1%nat /\
  normalize_cdc_latest (R := Examples.session) Examples.null_ts_batch
      "id" "seq_num" "event_time" None =
    Ok (mkDataFrame Examples.schema [Examples.null_ts_X]) /\
  outranks (R := Examples.session) Examples.schema
           (cdc_window "id" "seq_num" "event_time")
           Examples.null_ts_X Examples.null_ts_Y.
Proof.
  repeat split; try reflexivity.
  - left. reflexivity.
  - right. left. reflexivity.
Qed.

(** C4, amended.  Null ordering values are no error: on a batch whose rows
    fit its schema, a call without tiebreakers returns a frame as soon as
    the key, sequence and time references each resolve to one column and at
    most one column of the batch is called like the rank column [_rn],
    whatever cells are NULL.
    For the same key, a row with a non-null [seq_num] outranks one whose
    [seq_num] is NULL, and of two rows with the same [seq_num] the one with
    a non-null [event_time] outranks the one whose [event_time] is NULL; an
    outranked row is never a winner, so it is not in the output. *)
Theorem C4_nulls_rank_last :
  forall (R : Resolver) (df : DataFrame) (key_col seq_col ts_col : string)
         (tb : option (list string)),
    well_formed df ->
    let cols := columns df in
    let w := cdc_window key_col seq_col ts_col in
    (resolve cols key_col = Ok tt -> resolve cols seq_col = Ok tt ->
     resolve cols ts_col = Ok tt ->
     (List.length (matching "_rn" cols) <= 1)%nat ->
     tb = None \/ tb = Some [] ->
     exists out, normalize_cdc_latest df key_col seq_col ts_col tb = Ok out) /\
    (forall out a b,
        normalize_cdc_latest df key_col seq_col ts_col tb = Ok out ->
        In a (rows df) -> In b (rows df) ->
        cell_of cols key_col a = cell_of cols key_col b ->
        (cell_of cols seq_col a = None /\ cell_of cols seq_col b <> None) \/
        (cell_of cols seq_col a = cell_of cols seq_col b /\
         cell_of cols ts_col a = None /\ cell_of cols ts_col b <> None) ->
        outranks cols w b a /\
        ~ In a (winners cols w (rows df)) /\
        (matching "_rn" cols = [] -> ~ In a (rows out))).
Proof.
  intros R df key_col seq_col ts_col tb Hwf cols w. split.
  - intros Hk Hs Ht Hrn Htb.
    rewrite (normalize_no_tiebreakers df _ _ _ tb Hwf Htb).
    fold cols. rewrite (analyse_ok cols _ _ _ Hk Hs Ht Hrn). simpl. eauto.
  - intros out a b H Ha Hb Hkey Hnull.
    apply normalize_ok_inv in H as [_ [Han ->]]; [|assumption].
    apply analyse_ok_inv in Han as [Hk _]. cbn [rows].
    assert (Hout : outranks cols w b a).
    { destruct Hnull as [[H1 H2]|[H1 [H2 H3]]].
      - now apply null_seq_outranked.
      - now apply null_ts_outranked. }
    assert (Hnot : ~ In a (winners cols w (rows df))).
    { now apply (outranked_not_winner cols key_col seq_col ts_col (rows df) a b). }
    split; [assumption|]. split; [assumption|].
    intros E. subst cols w.
    now rewrite (drop_cells_winners df _ E).
Qed.

Lemma C4_nulls_rank_last_witness :
  well_formed Examples.null_seq_batch /\
  normalize_cdc_latest (R := Examples.session) Examples.null_seq_batch
      "id" "seq_num" "event_time" None =
    Ok (mkDataFrame Examples.schema [Examples.null_seq_B]) /\
  outranks (R := Examples.session) Examples.schema
           (cdc_window "id" "seq_num" "event_time")
           Examples.null_seq_B Examples.null_seq_A /\
  ~ In Examples.null_seq_A [Examples.null_seq_B].
Proof.
  assert (Hwf : well_formed Examples.null_seq_batch) by (repeat constructor).
  assert (Hrun : normalize_cdc_latest (R := Examples.session)
                   Examples.null_seq_batch "id" "seq_num" "event_time" None =
                 Ok (mkDataFrame Examples.schema [Examples.null_seq_B]))
    by reflexivity.
  split; [exact Hwf|]. split; [exact Hrun|].
  pose proof (proj2 (C4_nulls_rank_last Examples.session
                       Examples.null_seq_batch "id" "seq_num" "event_time"
                       None Hwf)
                _ Examples.null_seq_A Examples.null_seq_B Hrun) as H.
  destruct H as [Hout [_ Hnot]].
  - left. reflexivity.
  - right. left. reflexivity.
  - reflexivity.
  - left. split; [reflexivity|discriminate].
  - split; [exact Hout|]. apply Hnot. reflexivity.
Defined.

(** ** Row order *)

Section RowOrderInvariance.

Context {R : Resolver}.

Lemma tie_agrees (cols : list string) (key_col seq_col ts_col : string)
    (r1 r2 : row) :
  compare_rows cols (order_by (cdc_window key_col seq_col ts_col)) r1 r2 = Eq ->
  cell_of cols seq_col r1 = cell_of cols seq_col r2 /\
  cell_of cols ts_col r1 = cell_of cols ts_col r2.
Proof.
  intros H. apply compare_rows_tie in H. simpl in H.
  inversion H as [|? ? Hs H']; subst. inversion H' as [|? ? Ht _]; subst.
  now split.
Qed.

Lemma winners_perm (df : DataFrame) (key_col seq_col ts_col : string)
    (rs' : list row) :
  Permutation (rows df) rs' ->
  no_ties df key_col seq_col ts_col ->
  Permutation
    (winners (columns df) (cdc_window key_col seq_col ts_col) (rows df))
    (winners (columns df) (cdc_window key_col seq_col ts_col) rs').
Proof.
  intros Hp Hties.
  set (cols := columns df). set (w := cdc_window key_col seq_col ts_col).
  rewrite !winners_by_key.
  rewrite (flat_map_ext
             (fun k => rank1 cols w
                         (filter (fun r => cells_eqb (partition_key cols w r) k)
                                 (distinct cells_eqb rs')))
             (fun k => rank1 cols w
                         (filter (fun r => cells_eqb (partition_key cols w r) k)
                                 (distinct cells_eqb (rows df))))).
  - apply Permutation_flat_map.
    apply distinct_Permutation;
      [apply cells_eqb_refl|apply cells_eqb_eq|now apply Permutation_map].
  - intros k. unfold rank1. symmetry.
    apply (sort_head_perm _ (compare_rows_preorder cols (order_by w))).
    + apply Permutation_filter.
      apply distinct_Permutation;
        [apply cells_eqb_refl|apply cells_eqb_eq|assumption].
    + intros x y Hx Hy Hxy.
      apply filter_In in Hx as [Hx Hkx]. apply filter_In in Hy as [Hy Hky].
      apply distinct_incl in Hx, Hy.
      apply cells_eqb_eq in Hkx, Hky.
      apply tie_agrees in Hxy as [Hs Ht].
      apply Hties; try assumption.
      apply (partition_key_cell cols key_col seq_col ts_col).
      change (partition_key cols w x = partition_key cols w y). congruence.
Qed.

Lemma winners_distinct (cols : list string) (w : WindowSpec) (rs : list row) :
  winners cols w (distinct cells_eqb rs) = winners cols w rs.
Proof. unfold winners. now rewrite distinct_idempotent. Qed.

(** Without ties, the winners depend on which rows the batch holds, not on
    how often or where it holds them. *)
Lemma winners_same_rows (df : DataFrame) (key_col seq_col ts_col : string)
    (rs' : list row) :
  (forall r, In r rs' <-> In r (rows df)) ->
  no_ties df key_col seq_col ts_col ->
  Permutation
    (winners (columns df) (cdc_window key_col seq_col ts_col) (rows df))
    (winners (columns df) (cdc_window key_col seq_col ts_col) rs').
Proof.
  intros Hsame Hties.
  rewrite <- (winners_distinct _ _ (rows df)), <- (winners_distinct _ _ rs').
  apply (winners_perm (mkDataFrame (columns df) (distinct cells_eqb (rows df)))).
  - cbn [rows]. apply NoDup_Permutation;
      try (apply distinct_NoDup, cells_eqb_refl).
    intros r. rewrite !(distinct_In cells_eqb cells_eqb_eq).
    symmetry. apply Hsame.
  - intros r1 r2 H1 H2. cbn [rows columns] in *.
    apply distinct_incl in H1, H2. now apply Hties.
Qed.

End RowOrderInvariance.

(** C2, as stated, fails: the two rows of K1 tie on [seq_num] and
    [event_time]; the batch and its permutation resolve to different
    records, neither call having a further criterion to fall back on. *)
Lemma C2_row_order_decides_ties :
  columns Examples.tied_batch_permuted = columns Examples.tied_batch /\
  Permutation (rows Examples.tied_batch) (rows Examples.tied_batch_permuted) /\
  normalize_cdc_latest (R := Examples.session) Examples.tied_batch
      "id" "seq_num" "event_time" None =
    Ok (mkDataFrame Examples.schema
          [ [Examples.str "K1"; Examples.str "U"; Examples.int 2;
             Examples.int Examples.T0; Examples.str "a"] ]) /\
  normalize_cdc_latest (R := Examples.session) Examples.tied_batch_permuted
      "id" "seq_num" "event_time" None =
    Ok (mkDataFrame Examples.schema
          [ [Examples.str "K1"; Examples.str "U"; Examples.int 2;
             Examples.int Examples.T0; Examples.str "b"] ]) /\
  ~ same_output
      (normalize_cdc_latest (R := Examples.session) Examples.tied_batch
         "id" "seq_num" "event_time" None)
      (normalize_cdc_latest (R := Examples.session) Examples.tied_batch_permuted
         "id" "seq_num" "event_time" None).
Proof.
  split; [reflexivity|]. split; [apply perm_swap|].
  split; [reflexivity|]. split; [reflexivity|].
  intros [_ H]. apply Permutation_length_1 in H. discriminate.
Qed.

(** C2, amended.  On a batch whose rows fit its schema and in which two
    different rows of one key never agree on both [seq_num] and
    [event_time], permuting the rows leaves the result unchanged: the same
    exception, or the same columns and the same set of records. *)
Theorem C2_order_independent_without_ties :
  forall (R : Resolver) (df df' : DataFrame) (key_col seq_col ts_col : string)
         (tb : option (list string)),
    well_formed df ->
    columns df' = columns df ->
    Permutation (rows df) (rows df') ->
    no_ties df key_col seq_col ts_col ->
    same_output (normalize_cdc_latest df key_col seq_col ts_col tb)
                (normalize_cdc_latest df' key_col seq_col ts_col tb).
Proof.
  intros R df df' key_col seq_col ts_col tb Hwf Hcols Hp Hties.
  assert (Hwf' : well_formed df').
  { unfold well_formed in *. rewrite Hcols.
    eapply Permutation_Forall; eassumption. }
  destruct tb as [[|c cs]|].
  2:{ rewrite !tiebreakers_raise. reflexivity. }
  all: rewrite (normalize_no_tiebreakers df) by auto;
    rewrite (normalize_no_tiebreakers df') by auto;
    rewrite Hcols;
    destruct (analyse (columns df) (cdc_window key_col seq_col ts_col))
      as [[]|e]; simpl; [|reflexivity];
    split; [reflexivity|];
    apply Permutation_map; now apply winners_perm.
Qed.

Lemma C2_order_independent_without_ties_witness :
  well_formed Examples.null_seq_batch /\
  no_ties (R := Examples.session) Examples.null_seq_batch
          "id" "seq_num" "event_time" /\
  same_output
    (normalize_cdc_latest (R := Examples.session) Examples.null_seq_batch
       "id" "seq_num" "event_time" None)
    (normalize_cdc_latest (R := Examples.session)
       (mkDataFrame Examples.schema [Examples.null_seq_B; Examples.null_seq_A])
       "id" "seq_num" "event_time" None).
Proof.
  assert (Hwf : well_formed Examples.null_seq_batch) by (repeat constructor).
  assert (Hties : no_ties (R := Examples.session) Examples.null_seq_batch
                          "id" "seq_num" "event_time").
  { intros r1 r2 [<-|[<-|[]]] [<-|[<-|[]]] _ Hs _;
      try reflexivity; discriminate Hs. }
  split; [exact Hwf|]. split; [exact Hties|].
  apply (C2_order_independent_without_ties Examples.session
           Examples.null_seq_batch
           (mkDataFrame Examples.schema [Examples.null_seq_B; Examples.null_seq_A])
           "id" "seq_num" "event_time" None Hwf).
  - reflexivity.
  - apply perm_swap.
  - exact Hties.
Defined.

(** ** Duplicates *)

Section Duplicates.

Context {R : Resolver}.

Lemma same_on_refl (cols subset : list string) (r : row) :
  same_on cols subset r r = true.
Proof. apply cells_eqb_refl. Qed.

Lemma same_on_sym (cols subset : list string) (r1 r2 : row) :
  same_on cols subset r1 r2 = same_on cols subset r2 r1.
Proof.
  unfold same_on.
  destruct (cells_eqb (project cols subset r2) (project cols subset r1)) eqn:E.
  - apply cells_eqb_eq in E. rewrite E. apply cells_eqb_refl.
  - apply cells_eqb_neq in E. apply cells_eqb_neq. congruence.
Qed.

Lemma same_on_trans (cols subset : list string) (r1 r2 r3 : row) :
  same_on cols subset r1 r2 = true -> same_on cols subset r2 r3 = true ->
  same_on cols subset r1 r3 = true.
Proof.
  unfold same_on. intros H1 H2.
  apply cells_eqb_eq in H1, H2. apply cells_eqb_eq. congruence.
Qed.

Lemma add_duplicates_In (l l' : list row) :
  add_duplicates l l' -> forall r, In r l' <-> In r l.
Proof.
  induction 1 as [l|l pre post r _ IH Hin]; intros x; [reflexivity|].
  rewrite <- IH. rewrite !in_app_iff. simpl. split.
  - intros [H|[<-|H]]; auto. now apply in_app_iff.
  - intros [H|H]; auto.
Qed.

Lemma add_duplicates_length (l l' : list row) :
  add_duplicates l l' -> (List.length l <= List.length l')%nat.
Proof.
  induction 1 as [l|l pre post r _ IH Hin]; [lia|].
  rewrite length_app in *. simpl. lia.
Qed.

(** Copies appended at the end, as [duplicate_rows] adds them. *)
Lemma add_duplicates_app (l dupes : list row) :
  incl dupes l -> add_duplicates l (l ++ dupes).
Proof.
  induction dupes as [|d dupes IH] using rev_ind; intros H.
  - rewrite app_nil_r. constructor.
  - rewrite app_assoc.
    replace ((l ++ dupes) ++ [d]) with ((l ++ dupes) ++ d :: []) by reflexivity.
    apply add_copy.
    + rewrite app_nil_r. apply IH. intros x Hx. apply H, in_or_app. now left.
    + rewrite app_nil_r. apply in_or_app. left. apply H, in_or_app. right.
      now left.
Qed.

Lemma dedup_by_default (df : DataFrame) :
  well_formed df ->
  dedup_by df [] = Ok (mkDataFrame (columns df) (distinct cells_eqb (rows df))).
Proof.
  intros Hwf. unfold dedup_by, dropDuplicates.
  rewrite check_subset_self. simpl.
  now rewrite (distinct_rows_well_formed df Hwf).
Qed.

End Duplicates.

(** C5, as stated, fails when rows tie: [a] and [b] are two states of K1
    with the same [seq_num] and [event_time].  The batch [a; b] resolves to
    [a]; with one more exact copy of [b], held first, it resolves to [b]. *)
Lemma C5_copy_decides_tie :
  add_duplicates (rows Examples.tied_batch)
                 (rows Examples.tied_batch_with_copy) /\
  columns Examples.tied_batch_with_copy = columns Examples.tied_batch /\
  normalize_cdc_latest (R := Examples.session) Examples.tied_batch
      "id" "seq_num" "event_time" None =
    Ok (mkDataFrame Examples.schema
          [ [Examples.str "K1"; Examples.str "U"; Examples.int 2;
             Examples.int Examples.T0; Examples.str "a"] ]) /\
  normalize_cdc_latest (R := Examples.session) Examples.tied_batch_with_copy
      "id" "seq_num" "event_time" None =
    Ok (mkDataFrame Examples.schema
          [ [Examples.str "K1"; Examples.str "U"; Examples.int 2;
             Examples.int Examples.T0; Examples.str "b"] ]) /\
  ~ same_output
      (normalize_cdc_latest (R := Examples.session)
         Examples.tied_batch_with_copy "id" "seq_num" "event_time" None)
      (normalize_cdc_latest (R := Examples.session) Examples.tied_batch
         "id" "seq_num" "event_time" None).
Proof.
  split.
  { apply (add_copy _ [] (rows Examples.tied_batch)); [apply add_none|].
    right. left. reflexivity. }
  split; [reflexivity|]. split; [reflexivity|]. split; [reflexivity|].
  intros [_ H]. apply Permutation_length_1 in H. discriminate.
Qed.

(** C5, amended.  On a batch whose rows fit its schema, adding exact copies
    of rows the batch already holds, each at any position, leaves
    [dedup_by] with the same rows, each once.  When moreover two different
    rows of one key never agree on both [seq_num] and [event_time], the
    result of [normalize_cdc_latest] is unchanged: the same exception, or
    the same columns and the same set of records. *)
Theorem C5_duplicates_do_not_matter_without_ties :
  forall (R : Resolver) (df : DataFrame) (rows' : list row)
         (key_col seq_col ts_col : string) (tb : option (list string)),
    well_formed df ->
    add_duplicates (rows df) rows' ->
    (exists d d',
        dedup_by df [] = Ok d /\
        dedup_by (mkDataFrame (columns df) rows') [] = Ok d' /\
        columns d' = columns d /\
        NoDup (rows d) /\ NoDup (rows d') /\
        (forall r, In r (rows d') <-> In r (rows d)) /\
        Permutation (rows d') (rows d)) /\
    (no_ties df key_col seq_col ts_col ->
     same_output
       (normalize_cdc_latest (mkDataFrame (columns df) rows')
                             key_col seq_col ts_col tb)
       (normalize_cdc_latest df key_col seq_col ts_col tb)).
Proof.
  intros R df rows' key_col seq_col ts_col tb Hwf Hadd.
  pose proof (add_duplicates_In _ _ Hadd) as Hsame.
  assert (Hwf' : well_formed (mkDataFrame (columns df) rows')).
  { unfold well_formed in *. cbn [columns rows]. rewrite Forall_forall in *.
    intros r Hr. now apply Hwf, Hsame. }
  split.
  - exists (mkDataFrame (columns df) (distinct cells_eqb (rows df))),
           (mkDataFrame (columns df) (distinct cells_eqb rows')).
    split; [now apply dedup_by_default|].
    split; [now rewrite (dedup_by_default _ Hwf')|]. cbn [columns rows].
    assert (Hin : forall r, In r (distinct cells_eqb rows') <->
                            In r (distinct cells_eqb (rows df))).
    { intros r. rewrite !(distinct_In cells_eqb cells_eqb_eq). apply Hsame. }
    split; [reflexivity|].
    split; [apply distinct_NoDup, cells_eqb_refl|].
    split; [apply distinct_NoDup, cells_eqb_refl|].
    split; [exact Hin|].
    apply NoDup_Permutation; try (apply distinct_NoDup, cells_eqb_refl).
    exact Hin.
  - intros Hties. destruct tb as [[|c cs]|].
    2:{ rewrite !tiebreakers_raise. reflexivity. }
    all: rewrite (normalize_no_tiebreakers df) by auto;
      rewrite (normalize_no_tiebreakers (mkDataFrame (columns df) rows'))
        by auto;
      cbn [columns rows];
      destruct (analyse (columns df) (cdc_window key_col seq_col ts_col))
        as [[]|e]; simpl; [|reflexivity];
      split; [reflexivity|];
      apply Permutation_map; symmetry; now apply winners_same_rows.
Qed.

Lemma C5_duplicates_do_not_matter_without_ties_witness :
  well_formed Examples.null_seq_batch /\
  add_duplicates (rows Examples.null_seq_batch)
                 [Examples.null_seq_B; Examples.null_seq_A;
                  Examples.null_seq_B; Examples.null_seq_A] /\
  no_ties (R := Examples.session) Examples.null_seq_batch
          "id" "seq_num" "event_time" /\
  same_output
    (normalize_cdc_latest (R := Examples.session)
       (mkDataFrame Examples.schema
          [Examples.null_seq_B; Examples.null_seq_A;
           Examples.null_seq_B; Examples.null_seq_A])
       "id" "seq_num" "event_time" None)
    (normalize_cdc_latest (R := Examples.session) Examples.null_seq_batch
       "id" "seq_num" "event_time" None).
Proof.
  assert (Hwf : well_formed Examples.null_seq_batch) by (repeat constructor).
  assert (Hadd : add_duplicates (rows Examples.null_seq_batch)
                   [Examples.null_seq_B; Examples.null_seq_A;
                    Examples.null_seq_B; Examples.null_seq_A]).
  { apply (add_copy _ [] [Examples.null_seq_A; Examples.null_seq_B;
                          Examples.null_seq_A]).
    - apply (add_copy _ [Examples.null_seq_A; Examples.null_seq_B] []).
      + apply add_none.
      + left. reflexivity.
    - right. left. reflexivity. }
  assert (Hties : no_ties (R := Examples.session) Examples.null_seq_batch
                          "id" "seq_num" "event_time").
  { intros r1 r2 [<-|[<-|[]]] [<-|[<-|[]]] _ Hs _;
      try reflexivity; discriminate Hs. }
  split; [exact Hwf|]. split; [exact Hadd|]. split; [exact Hties|].
  exact (proj2 (C5_duplicates_do_not_matter_without_ties Examples.session
                  Examples.null_seq_batch _ "id" "seq_num" "event_time" None
                  Hwf Hadd) Hties).
Defined.

(** C6.  Called without keys on a batch whose rows fit its schema,
    [dedup_by] compares whole rows: it keeps the schema, returns every row of
    the input exactly once (so rows that share a key and differ elsewhere
    all survive) and is idempotent.  Idempotence also holds for any explicit
    list of keys. *)
Theorem C6_dedup_by_whole_row_idempotent :
  forall (R : Resolver) (df : DataFrame),
    well_formed df ->
    (exists d,
        dedup_by df [] = Ok d /\
        columns d = columns df /\
        NoDup (rows d) /\
        (forall r, In r (rows d) <-> In r (rows df)) /\
        dedup_by d [] = Ok d) /\
    (forall keys d, dedup_by df keys = Ok d -> dedup_by d keys = Ok d).
Proof.
  intros R df Hwf. split.
  - exists (mkDataFrame (columns df) (distinct cells_eqb (rows df))).
    split; [now apply dedup_by_default|]. cbn [columns rows].
    split; [reflexivity|]. split; [apply distinct_NoDup, cells_eqb_refl|].
    split; [intros r; apply distinct_In, cells_eqb_eq|].
    rewrite dedup_by_default.
    + cbn [columns rows]. now rewrite distinct_idempotent.
    + unfold well_formed in *. cbn [columns rows]. rewrite Forall_forall in *.
      intros r Hr. apply Hwf. now apply distinct_incl in Hr.
  - intros keys d. unfold dedup_by, dropDuplicates.
    destruct (check_subset (columns df)
                (match keys with [] => columns df | _ :: _ => keys end))
      as [[]|e] eqn:E; simpl; [|discriminate].
    intros H. injection H as <-. cbn [columns rows].
    rewrite E. simpl. now rewrite distinct_idempotent.
Qed.

Lemma C6_dedup_by_whole_row_idempotent_witness :
  well_formed Examples.update_batch /\
  dedup_by (R := Examples.session) Examples.update_batch [] =
    Ok (mkDataFrame Examples.schema
          [ [Examples.str "K1"; Examples.str "I"; Examples.int 1;
             Examples.int Examples.T0; Examples.str "a"];
            Examples.update_latest ]) /\
  dedup_by (R := Examples.session)
      (mkDataFrame Examples.schema
         [ [Examples.str "K1"; Examples.str "I"; Examples.int 1;
            Examples.int Examples.T0; Examples.str "a"];
           Examples.update_latest ]) [] =
    Ok (mkDataFrame Examples.schema
          [ [Examples.str "K1"; Examples.str "I"; Examples.int 1;
             Examples.int Examples.T0; Examples.str "a"];
            Examples.update_latest ]).
Proof.
  assert (Hwf : well_formed Examples.update_batch) by (repeat constructor).
  assert (Hrun : dedup_by (R := Examples.session) Examples.update_batch [] =
                 Ok (mkDataFrame Examples.schema
                       [ [Examples.str "K1"; Examples.str "I"; Examples.int 1;
                          Examples.int Examples.T0; Examples.str "a"];
                         Examples.update_latest ])) by reflexivity.
  split; [exact Hwf|]. split; [exact Hrun|].
  exact (proj2 (C6_dedup_by_whole_row_idempotent Examples.session
                  Examples.update_batch Hwf) [] _ Hrun).
Defined.

(** ** Text normalisation *)

Lemma flat_map_singleton {A B : Type} (f : A -> list B) (g : A -> B)
    (l : list A) :
  (forall a, f a = [g a]) -> flat_map f l = map g l.
Proof.
  intros H. induction l as [|a l IH]; simpl; [reflexivity|].
  now rewrite H, IH.
Qed.

Ltac split_codepoint c :=
  destruct c as [|c]; [reflexivity|];
  do 8 (try (destruct c as [c|c|]; try reflexivity)).

Lemma translate_char_fold (c : codepoint) :
  translate_char (build_dict accented unaccented) c = [fold_accent c].
Proof. split_codepoint c. Qed.

Lemma translate_fold (s : text) :
  translate s accented unaccented = map fold_accent s.
Proof. apply flat_map_singleton, translate_char_fold. Qed.

Lemma fold_accent_unaccented (c : codepoint) :
  existsb (N.eqb (fold_accent c)) accented = false.
Proof. split_codepoint c. Qed.

Section Trimming.

Variable p : codepoint -> bool.
Hypothesis p_space : p space = true.

Lemma drop_leading_spaces (n : nat) (s : text) :
  drop_leading p (repeat space n ++ s) = drop_leading p s.
Proof.
  induction n as [|n IH]; simpl; [reflexivity|]. now rewrite p_space.
Qed.

Lemma drop_leading_only_spaces (n : nat) :
  drop_leading p (repeat space n) = [].
Proof.
  induction n as [|n IH]; simpl; [reflexivity|]. now rewrite p_space.
Qed.

Lemma drop_leading_clean (s : text) :
  starts_with p s = false -> drop_leading p s = s.
Proof. destruct s as [|c s]; simpl; [reflexivity|]. now intros ->. Qed.

Lemma rev_spaces (n : nat) : rev (repeat space n) = repeat space n.
Proof.
  induction n as [|n IH]; simpl; [reflexivity|].
  rewrite IH. symmetry. apply repeat_cons.
Qed.

(** Trimming by [p] takes the padding off a text that neither starts nor
    ends with a character of [p]. *)
Lemma drop_both_padded (n m : nat) (core : text) :
  starts_with p core = false -> ends_with p core = false ->
  drop_trailing p (drop_leading p (padded n core m)) = core.
Proof.
  unfold padded, drop_trailing, ends_with. intros Hs He.
  rewrite drop_leading_spaces.
  destruct core as [|c core].
  - rewrite app_nil_l, drop_leading_only_spaces. reflexivity.
  - rewrite (drop_leading_clean ((c :: core) ++ repeat space m)) by exact Hs.
    rewrite rev_app_distr, rev_spaces, drop_leading_spaces.
    rewrite drop_leading_clean by assumption. apply rev_involutive.
Qed.

End Trimming.

(** C8, as stated, fails for whitespace other than the space character: a
    leading tab is whitespace and stays in the result. *)
Lemma C8_tab_is_not_trimmed :
  is_whitespace 9%N = true /\
  normalize_ascii_lower latin1_lower (Some Examples.tab_A) = Some [9; 97]%N /\
  normalize_spec latin1_lower Examples.tab_A = [97]%N /\
  normalize_ascii_lower latin1_lower (Some Examples.tab_A) <>
    Some (normalize_spec latin1_lower Examples.tab_A).
Proof. repeat split; try reflexivity. discriminate. Qed.

(** C8, amended.  For every text the normaliser returns a text (it has no
    error case), holding none of the seven accented characters.  On a text
    padded with space characters (U+0020) around a core that neither starts
    nor ends with a space, the result is the core lower-cased and then
    folded by the static map; when the core neither starts nor ends with any
    whitespace, that is the trim-lowercase-fold of the specification. *)
Theorem C8_normalize_ascii_lower :
  forall (lower : text -> text),
    (forall s, exists t,
        normalize_ascii_lower lower (Some s) = Some t /\
        t = map fold_accent (lower (trim s)) /\
        forall c, In c accented -> ~ In c t) /\
    (forall n m core,
        starts_with is_space core = false ->
        ends_with is_space core = false ->
        normalize_ascii_lower lower (Some (padded n core m)) =
        Some (map fold_accent (lower core))) /\
    (forall n m core,
        starts_with is_whitespace core = false ->
        ends_with is_whitespace core = false ->
        normalize_ascii_lower lower (Some (padded n core m)) =
        Some (normalize_spec lower (padded n core m))).
Proof.
  intros lower. split; [|split].
  - intros s. exists (map fold_accent (lower (trim s))).
    split; [simpl; now rewrite translate_fold|]. split; [reflexivity|].
    intros c Hc Hin. apply in_map_iff in Hin as [x [<- _]].
    pose proof (fold_accent_unaccented x) as H.
    assert (Ht : existsb (N.eqb (fold_accent x)) accented = true).
    { apply existsb_exists. exists (fold_accent x).
      split; [assumption|apply N.eqb_refl]. }
    congruence.
  - intros n m core Hs He. simpl. rewrite translate_fold.
    unfold trim, rtrim, ltrim.
    now rewrite (drop_both_padded is_space eq_refl n m core Hs He).
  - intros n m core Hs He. simpl. rewrite translate_fold.
    unfold normalize_spec, strip, trim, rtrim, ltrim.
    rewrite (drop_both_padded is_whitespace eq_refl n m core Hs He).
    rewrite (drop_both_padded is_space eq_refl n m core); [reflexivity| |].
    + destruct core as [|c core]; [reflexivity|]. simpl in *.
      unfold is_space. destruct (N.eqb_spec c space) as [->|]; [|reflexivity].
      discriminate Hs.
    + unfold ends_with in *. destruct (rev core) as [|c rc]; [reflexivity|].
      simpl in *. unfold is_space.
      destruct (N.eqb_spec c space) as [->|]; [|reflexivity].
      discriminate He.
Qed.

Lemma C8_normalize_ascii_lower_witness :
  starts_with is_space [193; 114; 98; 111; 108; 32; 209]%N = false /\
  ends_with is_space [193; 114; 98; 111; 108; 32; 209]%N = false /\
  Examples.padded_arbol = padded 2 [193; 114; 98; 111; 108; 32; 209]%N 1 /\
  normalize_ascii_lower latin1_lower (Some Examples.padded_arbol) =
    Some [97; 114; 98; 111; 108; 32; 110]%N.
Proof.
  split; [reflexivity|]. split; [reflexivity|]. split; [reflexivity|].
  exact (proj1 (proj2 (C8_normalize_ascii_lower latin1_lower))
           2%nat 1%nat [193; 114; 98; 111; 108; 32; 209]%N eq_refl eq_refl).
Defined.

(** * Further properties of tools/utils.py *)

(** ** [dedup_by] with explicit keys *)

Section DistinctMore.

Context {A : Type}.
Variable same : A -> A -> bool.
Hypothesis same_refl : forall x, same x x = true.
Hypothesis same_sym : forall x y, same x y = same y x.
Hypothesis same_trans :
  forall x y z, same x y = true -> same y z = true -> same x z = true.

Lemma distinct_covers (l : list A) (x : A) :
  In x l -> exists y, In y (distinct same l) /\ same y x = true.
Proof.
  induction l as [|a l IH]; simpl; intros H; [contradiction|].
  destruct H as [->|H].
  - exists x. split; [now left|apply same_refl].
  - destruct (IH H) as [y [Hy Hyx]].
    destruct (same a y) eqn:E.
    + exists a. split; [now left|]. now apply same_trans with y.
    + exists y. split; [|assumption].
      right. apply filter_In. split; [assumption|]. now rewrite E.
Qed.

Lemma distinct_length (l : list A) :
  (List.length (distinct same l) <= List.length l)%nat.
Proof.
  induction l as [|a l IH]; simpl; [lia|].
  pose proof (filter_length_le (fun y => negb (same a y)) (distinct same l)).
  lia.
Qed.

(** A filter that cannot tell [same] elements apart commutes with
    [distinct]. *)
Lemma filter_distinct_classes (p : A -> bool) (l : list A) :
  (forall x y, same x y = true -> p x = p y) ->
  filter p (distinct same l) = distinct same (filter p l).
Proof.
  intros Hp. induction l as [|a l IH]; simpl; [reflexivity|].
  destruct (p a) eqn:Ea; simpl.
  - f_equal. now rewrite filter_comm, IH.
  - rewrite filter_comm, IH. apply filter_all, Forall_forall.
    intros y Hy. apply distinct_incl, filter_In in Hy as [_ Hy].
    destruct (same a y) eqn:E; [|reflexivity].
    apply Hp in E. congruence.
Qed.

(** Removing exact repetitions first does not change which element
    represents a class of [same]. *)
Lemma distinct_after_exact (eqb : A -> A -> bool) (l : list A) :
  (forall x y, eqb x y = true <-> x = y) ->
  distinct same (distinct eqb l) = distinct same l.
Proof.
  intros Heq. induction l as [|a l IH]; simpl; [reflexivity|].
  f_equal. rewrite <- IH.
  rewrite !filter_distinct_classes
    by (intros x y Hxy; rewrite (same_sym a x), (same_sym a y); f_equal;
        now apply (same_class same same_sym same_trans)).
  f_equal. rewrite filter_comm. apply filter_all, Forall_forall.
  intros y Hy. apply filter_In in Hy as [_ Hy].
  destruct (eqb a y) eqn:E; [|reflexivity].
  apply Heq in E. subst y. now rewrite same_refl in Hy.
Qed.

End DistinctMore.

Lemma ForallOrdPairs_impl {A : Type} (P Q : A -> A -> Prop) (l : list A) :
  (forall a b, P a b -> Q a b) -> ForallOrdPairs P l -> ForallOrdPairs Q l.
Proof.
  intros H. induction 1 as [|a l Ha Hl IH]; constructor; [|assumption].
  eapply Forall_impl; [|exact Ha]. intros b. apply H.
Qed.

Section DedupKeys.

Context {R : Resolver}.

Lemma check_subset_ok (cols subset : list string) :
  (forall k, In k subset -> matching k cols <> []) ->
  check_subset cols subset = Ok tt.
Proof.
  intros H. unfold check_subset. rewrite comprehension_unit; [reflexivity|].
  intros k Hk. specialize (H k Hk). now destruct (matching k cols).
Qed.

Lemma check_subset_raise (cols subset : list string) :
  (exists k, In k subset /\ matching k cols = []) ->
  check_subset cols subset = Raise (AnalysisException "UNRESOLVED_COLUMN").
Proof.
  unfold check_subset. induction subset as [|a subset IH]; intros [k [Hk E]];
    [contradiction|]. simpl.
  destruct (matching a cols) as [|c cs] eqn:Ea; [reflexivity|]. simpl.
  destruct Hk as [->|Hk]; [congruence|].
  specialize (IH (ex_intro _ k (conj Hk E))).
  destruct (comprehension _ subset) as [bs|e]; simpl in *; congruence.
Qed.

Lemma check_subset_cases (cols subset : list string) :
  (forall k, In k subset -> matching k cols <> []) \/
  (exists k, In k subset /\ matching k cols = []).
Proof.
  induction subset as [|a subset [IH|[k [Hk E]]]].
  - left. intros k [].
  - destruct (matching a cols) as [|c cs] eqn:Ea.
    + right. exists a. split; [now left|assumption].
    + left. intros k [<-|Hk]; [congruence|now apply IH].
  - right. exists k. split; [now right|assumption].
Qed.


End DedupKeys.

(** X1.  With explicit keys, a call of [dedup_by] that returns keeps the
    schema and returns rows of the input of which no two agree on every key
    column, one for each combination of key values present in the input, so
    never more rows than the input has.  Nothing is said about which row of
    a combination is kept. *)
Theorem dedup_by_keys_one_row_per_key :
  forall (R : Resolver) (df d : DataFrame) (keys : list string),
    keys <> [] ->
    dedup_by df keys = Ok d ->
    columns d = columns df /\
    (forall r, In r (rows d) -> In r (rows df)) /\
    ForallOrdPairs
      (fun a b => project (columns df) keys a <> project (columns df) keys b)
      (rows d) /\
    (forall r, In r (rows df) ->
               exists r', In r' (rows d) /\
                          project (columns df) keys r' =
                          project (columns df) keys r) /\
    (List.length (rows d) <= List.length (rows df))%nat.
Proof.
  intros R df d keys Hkeys H. unfold dedup_by, dropDuplicates in H.
  destruct keys as [|k keys]; [congruence|].
  destruct (check_subset (columns df) (k :: keys)) as [[]|e]; simpl in H;
    [|discriminate].
  injection H as <-. cbn [columns rows].
  split; [reflexivity|]. split; [intros r; apply distinct_incl|].
  split; [|split].
  - eapply ForallOrdPairs_impl; [|apply distinct_pairwise].
    intros a b Hab E. unfold same_on in Hab. rewrite E in Hab.
    now rewrite cells_eqb_refl in Hab.
  - intros r Hr.
    destruct (distinct_covers (same_on (columns df) (k :: keys))
                (same_on_refl _ _) (same_on_trans _ _) (rows df) r Hr)
      as [r' [Hr' Hs]].
    exists r'. split; [assumption|]. now apply cells_eqb_eq.
  - apply distinct_length.
Qed.

Lemma dedup_by_keys_one_row_per_key_witness :
  dedup_by (R := Examples.session) Examples.update_batch ["id"; "seq_num"] =
    Ok (mkDataFrame Examples.schema
          [ [Examples.str "K1"; Examples.str "I"; Examples.int 1;
             Examples.int Examples.T0; Examples.str "a"];
            Examples.update_latest ]) /\
  (List.length
     (rows (mkDataFrame Examples.schema
              [ [Examples.str "K1"; Examples.str "I"; Examples.int 1;
                 Examples.int Examples.T0; Examples.str "a"];
                Examples.update_latest ])) <=
   List.length (rows Examples.update_batch))%nat.
Proof.
  assert (Hrun : dedup_by (R := Examples.session) Examples.update_batch
                   ["id"; "seq_num"] =
                 Ok (mkDataFrame Examples.schema
                       [ [Examples.str "K1"; Examples.str "I"; Examples.int 1;
                          Examples.int Examples.T0; Examples.str "a"];
                         Examples.update_latest ]))
    by reflexivity.
  split; [exact Hrun|].
  refine (proj2 (proj2 (proj2 (proj2
            (dedup_by_keys_one_row_per_key Examples.session
               Examples.update_batch _ ["id"; "seq_num"] _ Hrun))))).
  discriminate.
Defined.

(** X2.  A key that answers to no column of the frame makes [dedup_by]
    raise the analysis error for an unresolved column, whatever the other
    keys and the rows are; so when a call returns, every key it was given
    answers to a column.  The names are compared as they are given. *)
Theorem dedup_by_raises_on_unknown_key :
  forall (R : Resolver) (df : DataFrame) (keys : list string),
    ((exists k, In k keys /\ matching k (columns df) = []) ->
     dedup_by df keys = Raise (AnalysisException "UNRESOLVED_COLUMN")) /\
    (forall d, dedup_by df keys = Ok d ->
               forall k, In k keys -> matching k (columns df) <> []).
Proof.
  intros R df keys.
  assert (Hraise : (exists k, In k keys /\ matching k (columns df) = []) ->
                   dedup_by df keys =
                   Raise (AnalysisException "UNRESOLVED_COLUMN")).
  { intros [k [Hk E]]. unfold dedup_by, dropDuplicates.
    destruct keys as [|k0 keys]; [contradiction|].
    rewrite check_subset_raise; [reflexivity|]. now exists k. }
  split; [assumption|].
  intros d Hd k Hk E. rewrite Hraise in Hd; [discriminate|]. now exists k.
Qed.

Lemma dedup_by_raises_on_unknown_key_witness :
  (exists k, In k ["id"; "customer_id"] /\
             matching (R := Examples.session) k
                      (columns Examples.update_batch) = []) /\
  dedup_by (R := Examples.session) Examples.update_batch
           ["id"; "customer_id"] =
    Raise (AnalysisException "UNRESOLVED_COLUMN").
Proof.
  assert (H : exists k, In k ["id"; "customer_id"] /\
                        matching (R := Examples.session) k
                                 (columns Examples.update_batch) = []).
  { exists "customer_id". split; [right; left; reflexivity|reflexivity]. }
  split; [exact H|].
  exact (proj1 (dedup_by_raises_on_unknown_key Examples.session
                  Examples.update_batch ["id"; "customer_id"]) H).
Defined.

(** X3.  On a batch whose rows fit its schema, removing exact duplicate rows
    first loses nothing for [dedup_by] with keys: the two calls raise alike,
    and when they return, the frames have the same schema, the same number
    of rows and the same combinations of key values; and de-duplicating on
    keys never leaves more rows than de-duplicating on whole rows. *)
Theorem dedup_by_keys_after_whole_rows :
  forall (R : Resolver) (df d0 : DataFrame) (keys : list string),
    well_formed df ->
    dedup_by df [] = Ok d0 ->
    (forall e, dedup_by d0 keys = Raise e <-> dedup_by df keys = Raise e) /\
    (forall d d',
        dedup_by df keys = Ok d -> dedup_by d0 keys = Ok d' ->
        columns d' = columns d /\
        List.length (rows d') = List.length (rows d) /\
        (forall r, In r (rows d) ->
                   exists r', In r' (rows d') /\
                              project (columns df) keys r' =
                              project (columns df) keys r) /\
        (forall r', In r' (rows d') ->
                    exists r, In r (rows d) /\
                              project (columns df) keys r =
                              project (columns df) keys r') /\
        (List.length (rows d) <= List.length (rows d0))%nat).
Proof.
  intros R df d0 keys Hwf H0.
  rewrite (dedup_by_default df Hwf) in H0. injection H0 as <-.
  assert (E : dedup_by (mkDataFrame (columns df) (distinct cells_eqb (rows df)))
                       keys = dedup_by df keys).
  { unfold dedup_by, dropDuplicates. cbn [columns rows].
    now rewrite (distinct_after_exact _ (same_on_refl _ _) (same_on_sym _ _)
                   (same_on_trans _ _) cells_eqb (rows df) cells_eqb_eq). }
  split; [intros e; now rewrite E|].
  intros d d' Hd Hd'. rewrite E, Hd in Hd'. injection Hd' as <-.
  split; [reflexivity|]. split; [reflexivity|].
  split; [intros r Hr; now exists r|]. split; [intros r Hr; now exists r|].
  rewrite <- E in Hd. unfold dedup_by, dropDuplicates in Hd.
  cbn [columns rows] in Hd.
  destruct (check_subset _ _) as [[]|e]; simpl in Hd; [|discriminate].
  injection Hd as <-. cbn [rows]. apply distinct_length.
Qed.

Lemma dedup_by_keys_after_whole_rows_witness :
  well_formed Examples.update_batch /\
  dedup_by (R := Examples.session) Examples.update_batch [] =
    Ok (mkDataFrame Examples.schema Examples.update_states) /\
  dedup_by (R := Examples.session) Examples.update_batch ["id"; "seq_num"] =
    Ok (mkDataFrame Examples.schema Examples.update_states) /\
  dedup_by (R := Examples.session)
           (mkDataFrame Examples.schema Examples.update_states)
           ["id"; "seq_num"] =
    Ok (mkDataFrame Examples.schema Examples.update_states) /\
  List.length (rows (mkDataFrame Examples.schema Examples.update_states)) =
  List.length (rows (mkDataFrame Examples.schema Examples.update_states)).
Proof.
  assert (Hwf : well_formed Examples.update_batch) by (repeat constructor).
  assert (Hrun : dedup_by (R := Examples.session) Examples.update_batch [] =
                 Ok (mkDataFrame Examples.schema Examples.update_states))
    by reflexivity.
  assert (Hd : dedup_by (R := Examples.session) Examples.update_batch
                        ["id"; "seq_num"] =
               Ok (mkDataFrame Examples.schema Examples.update_states))
    by reflexivity.
  assert (Hd' : dedup_by (R := Examples.session)
                         (mkDataFrame Examples.schema Examples.update_states)
                         ["id"; "seq_num"] =
                Ok (mkDataFrame Examples.schema Examples.update_states))
    by reflexivity.
  split; [exact Hwf|]. split; [exact Hrun|]. split; [exact Hd|].
  split; [exact Hd'|].
  exact (proj1 (proj2
           (proj2 (dedup_by_keys_after_whole_rows Examples.session
                     Examples.update_batch _ ["id"; "seq_num"] Hwf Hrun)
              _ _ Hd Hd'))).
Defined.



(** ** More on [normalize_cdc_latest] *)

Lemma NoDup_distinct_fixed {A : Type} (eqb : A -> A -> bool) (l : list A) :
  (forall x y, eqb x y = true <-> x = y) ->
  NoDup l -> distinct eqb l = l.
Proof.
  intros Heq Hnd. apply distinct_fixed.
  induction Hnd as [|a l Ha Hnd IH]; constructor; [|assumption].
  apply Forall_forall. intros y Hy.
  destruct (eqb a y) eqn:E; [|reflexivity].
  apply Heq in E. subst y. contradiction.
Qed.

Lemma filter_only_NoDup {A B : Type} (eqb : B -> B -> bool) (f : A -> B)
    (l : list A) (x : A) :
  (forall a b, eqb a b = true <-> a = b) ->
  NoDup (map f l) -> In x l ->
  filter (fun y => eqb (f y) (f x)) l = [x].
Proof.
  intros Heq. induction l as [|a l IH]; simpl; intros Hnd Hx; [contradiction|].
  inversion Hnd as [|? ? Hna Hnd']; subst.
  destruct Hx as [->|Hx].
  - replace (eqb (f x) (f x)) with true by (symmetry; now apply Heq).
    f_equal. apply filter_none. intros y Hy.
    destruct (eqb (f y) (f x)) eqn:E; [|reflexivity].
    apply Heq in E. exfalso. apply Hna. rewrite <- E. now apply in_map.
  - destruct (eqb (f a) (f x)) eqn:E.
    + apply Heq in E. exfalso. apply Hna. rewrite E. now apply in_map.
    + now apply IH.
Qed.

Lemma flat_map_ext_in {A B : Type} (f g : A -> list B) (l : list A) :
  (forall a, In a l -> f a = g a) -> flat_map f l = flat_map g l.
Proof.
  induction l as [|a l IH]; simpl; intros H; [reflexivity|].
  rewrite (H a) by now left. rewrite IH; [reflexivity|].
  intros; apply H; now right.
Qed.

Lemma NoDup_map_singleton {A : Type} (l : list A) :
  NoDup l -> NoDup (map (fun x => [x]) l).
Proof.
  induction 1 as [|a l Ha Hnd IH]; simpl; constructor; [|assumption].
  intros H. apply in_map_iff in H as [y [E Hy]]. injection E as ->.
  contradiction.
Qed.

Section FixedPoint.

Context {R : Resolver}.
Variables (cols : list string) (key_col seq_col ts_col : string).

Lemma partition_keys_NoDup (rs : list row) :
  resolve cols key_col = Ok tt ->
  Forall (fun r : row => List.length r = List.length cols) rs ->
  NoDup (map (cell_of cols key_col) rs) ->
  NoDup (map (partition_key cols (cdc_window key_col seq_col ts_col)) rs).
Proof.
  intros Hk Hrs Hnd. rewrite Forall_forall in Hrs.
  rewrite (map_ext_in _ (fun r => [cell_of cols key_col r])).
  - rewrite <- (map_map (cell_of cols key_col) (fun c => [c])).
    now apply NoDup_map_singleton.
  - intros r Hr. apply partition_key_single; [assumption|now apply Hrs].
Qed.

(** A batch with one row per key is its own list of winners. *)
Lemma winners_fixed (rs : list row) :
  resolve cols key_col = Ok tt ->
  Forall (fun r : row => List.length r = List.length cols) rs ->
  NoDup (map (cell_of cols key_col) rs) ->
  winners cols (cdc_window key_col seq_col ts_col) rs = rs.
Proof.
  intros Hk Hrs Hnd.
  pose proof (partition_keys_NoDup rs Hk Hrs Hnd) as Hpk.
  rewrite winners_by_key.
  rewrite (NoDup_distinct_fixed cells_eqb _ cells_eqb_eq Hpk).
  rewrite (NoDup_distinct_fixed cells_eqb rs cells_eqb_eq)
    by (eapply NoDup_map_inv; eassumption).
  rewrite flat_map_map.
  rewrite (flat_map_ext_in _ (fun r => [r])).
  - rewrite (flat_map_singleton _ (fun r => r)) by reflexivity. apply map_id.
  - intros r Hr.
    now rewrite (filter_only_NoDup cells_eqb _ rs r cells_eqb_eq Hpk Hr).
Qed.



End FixedPoint.

Lemma same_output_refl (a : result DataFrame) : same_output a a.
Proof. destruct a; simpl; [split|]; reflexivity. Qed.



(** X6.  Let a batch have rows that fit its schema and no column called
    like the rank column.  If it already holds one row per key and the key,
    sequence and time references resolve, a call without tiebreakers
    returns the batch: the same columns and the same rows.  So resolving
    the output of a call that returned gives that output again. *)
Theorem normalize_cdc_latest_idempotent :
  forall (R : Resolver) (df : DataFrame) (key_col seq_col ts_col : string)
         (tb : option (list string)),
    well_formed df ->
    matching "_rn" (columns df) = [] ->
    (tb = None \/ tb = Some [] ->
     resolve (columns df) key_col = Ok tt ->
     resolve (columns df) seq_col = Ok tt ->
     resolve (columns df) ts_col = Ok tt ->
     NoDup (map (cell_of (columns df) key_col) (rows df)) ->
     same_output (normalize_cdc_latest df key_col seq_col ts_col tb) (Ok df)) /\
    (forall out,
        normalize_cdc_latest df key_col seq_col ts_col tb = Ok out ->
        same_output (normalize_cdc_latest out key_col seq_col ts_col tb)
                    (Ok out)).
Proof.
  intros R df key_col seq_col ts_col tb Hwf Hrn.
  assert (Hfix : forall d : DataFrame,
             well_formed d -> matching "_rn" (columns d) = [] ->
             tb = None \/ tb = Some [] ->
             resolve (columns d) key_col = Ok tt ->
             resolve (columns d) seq_col = Ok tt ->
             resolve (columns d) ts_col = Ok tt ->
             NoDup (map (cell_of (columns d) key_col) (rows d)) ->
             normalize_cdc_latest d key_col seq_col ts_col tb = Ok d).
  { intros d Hwfd Hrnd Htb Hk Hs Ht Hnd.
    rewrite (normalize_no_tiebreakers d _ _ _ tb Hwfd Htb).
    rewrite (analyse_ok _ _ _ _ Hk Hs Ht) by (rewrite Hrnd; simpl; lia).
    simpl. rewrite (filter_columns_absent _ _ Hrnd).
    rewrite (drop_cells_winners d _ Hrnd).
    rewrite (winners_fixed _ _ _ _ _ Hk Hwfd Hnd). now destruct d. }
  split.
  { intros Htb Hk Hs Ht Hnd. rewrite Hfix by assumption.
    apply same_output_refl. }
  intros out H.
  apply normalize_ok_inv in H as [Htb [Ha ->]]; [|assumption].
  apply analyse_ok_inv in Ha as [Hk [Hs [Ht _]]].
  rewrite (filter_columns_absent _ _ Hrn), (drop_cells_winners df _ Hrn).
  rewrite Hfix; [apply same_output_refl| | | | | | |];
    cbn [columns rows]; try assumption.
  - apply Forall_forall. intros r Hr. apply (well_formed_rows df r Hwf).
    now apply winners_spec in Hr as [Hr _].
  - rewrite (winners_keys _ _ _ _ _ Hk Hwf).
    apply distinct_NoDup. intros c. now apply cell_eqb_eq.
Qed.

Lemma normalize_cdc_latest_idempotent_witness :
  well_formed Examples.update_batch /\
  matching (R := Examples.session) "_rn" (columns Examples.update_batch) = [] /\
  normalize_cdc_latest (R := Examples.session) Examples.update_batch
      "id" "seq_num" "event_time" None =
    Ok (mkDataFrame Examples.schema [Examples.update_latest]) /\
  same_output
    (normalize_cdc_latest (R := Examples.session)
       (mkDataFrame Examples.schema [Examples.update_latest])
       "id" "seq_num" "event_time" None)
    (Ok (mkDataFrame Examples.schema [Examples.update_latest])).
Proof.
  assert (Hwf : well_formed Examples.update_batch) by (repeat constructor).
  assert (Hrn : matching (R := Examples.session) "_rn"
                         (columns Examples.update_batch) = []) by reflexivity.
  assert (Hrun : normalize_cdc_latest (R := Examples.session)
                   Examples.update_batch "id" "seq_num" "event_time" None =
                 Ok (mkDataFrame Examples.schema [Examples.update_latest]))
    by reflexivity.
  split; [exact Hwf|]. split; [exact Hrn|]. split; [exact Hrun|].
  exact (proj2 (normalize_cdc_latest_idempotent Examples.session
                  Examples.update_batch "id" "seq_num" "event_time" None
                  Hwf Hrn) _ Hrun).
Defined.

Section Recency.

Context {R : Resolver}.
Variables (cols : list string) (key_col seq_col ts_col : string).

Lemma later_seq_outranks (a b : row) (x y : value) :
  cell_of cols seq_col a = Some x -> cell_of cols seq_col b = Some y ->
  value_compare x y = Lt ->
  outranks cols (cdc_window key_col seq_col ts_col) b a.
Proof.
  intros Ha Hb Hlt. unfold outranks. simpl. rewrite Ha, Hb. simpl.
  now rewrite Hlt.
Qed.

Lemma later_ts_outranks (a b : row) (x y : value) :
  cell_of cols seq_col a = cell_of cols seq_col b ->
  cell_of cols ts_col a = Some x -> cell_of cols ts_col b = Some y ->
  value_compare x y = Lt ->
  outranks cols (cdc_window key_col seq_col ts_col) b a.
Proof.
  intros Hs Ha Hb Hlt. unfold outranks. simpl. rewrite Hs.
  replace (compare_cells _ (cell_of cols seq_col b) (cell_of cols seq_col b))
    with Eq by (symmetry; now apply compare_cells_eq).
  rewrite Ha, Hb. simpl. now rewrite Hlt.
Qed.

End Recency.

(** X7.  Recency: among the rows of one key, a row with a smaller [seq_num]
    than another is never emitted, whatever the two [event_time] values are;
    of two rows with the same [seq_num], the one with the earlier
    [event_time] is never emitted. *)
Theorem normalize_cdc_latest_recency :
  forall (R : Resolver) (df out : DataFrame) (key_col seq_col ts_col : string)
         (tb : option (list string)) (a b : row) (x y : value),
    well_formed df ->
    normalize_cdc_latest df key_col seq_col ts_col tb = Ok out ->
    In a (rows df) -> In b (rows df) ->
    cell_of (columns df) key_col a = cell_of (columns df) key_col b ->
    value_compare x y = Lt ->
    (cell_of (columns df) seq_col a = Some x /\
     cell_of (columns df) seq_col b = Some y) \/
    (cell_of (columns df) seq_col a = cell_of (columns df) seq_col b /\
     cell_of (columns df) ts_col a = Some x /\
     cell_of (columns df) ts_col b = Some y) ->
    outranks (columns df) (cdc_window key_col seq_col ts_col) b a /\
    ~ In a (winners (columns df) (cdc_window key_col seq_col ts_col) (rows df)) /\
    (matching "_rn" (columns df) = [] -> ~ In a (rows out)).
Proof.
  intros R df out key_col seq_col ts_col tb a b x y Hwf H Ha Hb Hkey Hlt Hcase.
  apply normalize_ok_inv in H as [_ [Han ->]]; [|assumption].
  apply analyse_ok_inv in Han as [Hk _]. cbn [rows].
  assert (Hout : outranks (columns df) (cdc_window key_col seq_col ts_col) b a).
  { destruct Hcase as [[H1 H2]|[H1 [H2 H3]]].
    - now apply later_seq_outranks with x y.
    - now apply later_ts_outranks with x y. }
  assert (Hnot : ~ In a (winners (columns df)
                           (cdc_window key_col seq_col ts_col) (rows df))).
  { now apply (outranked_not_winner (columns df) key_col seq_col ts_col
                 (rows df) a b). }
  split; [assumption|]. split; [assumption|].
  intros E. now rewrite (drop_cells_winners df _ E).
Qed.

Lemma normalize_cdc_latest_recency_witness :
  well_formed Examples.update_batch /\
  normalize_cdc_latest (R := Examples.session) Examples.update_batch
      "id" "seq_num" "event_time" None =
    Ok (mkDataFrame Examples.schema [Examples.update_latest]) /\
  outranks (R := Examples.session) Examples.schema
    (cdc_window "id" "seq_num" "event_time")
    Examples.update_latest
    [Examples.str "K1"; Examples.str "I"; Examples.int 1;
     Examples.int Examples.T0; Examples.str "a"].
Proof.
  assert (Hwf : well_formed Examples.update_batch) by (repeat constructor).
  assert (Hrun : normalize_cdc_latest (R := Examples.session)
                   Examples.update_batch "id" "seq_num" "event_time" None =
                 Ok (mkDataFrame Examples.schema [Examples.update_latest]))
    by reflexivity.
  split; [exact Hwf|]. split; [exact Hrun|].
  refine (proj1 (normalize_cdc_latest_recency Examples.session
                   Examples.update_batch _ "id" "seq_num" "event_time" None
                   _ Examples.update_latest (VInt 1) (VInt 2)
                   Hwf Hrun _ _ _ _ _)).
  - left. reflexivity.
  - right. left. reflexivity.
  - reflexivity.
  - reflexivity.
  - left. split; reflexivity.
Defined.

(** X8.  A successful call never returns more records than the batch has
    rows; on a batch without rows it returns a frame without rows. *)
Theorem normalize_cdc_latest_output_bound :
  forall (R : Resolver) (df out : DataFrame) (key_col seq_col ts_col : string)
         (tb : option (list string)),
    well_formed df ->
    normalize_cdc_latest df key_col seq_col ts_col tb = Ok out ->
    (List.length (rows out) <= List.length (rows df))%nat /\
    (rows df = [] -> rows out = []).
Proof.
  intros R df out key_col seq_col ts_col tb Hwf H.
  apply normalize_ok_inv in H as [_ [Han ->]]; [|assumption].
  apply analyse_ok_inv in Han as [Hk _]. cbn [rows].
  assert (Hlen : (List.length
                    (map (drop_cells (columns df) "_rn")
                         (winners (columns df)
                            (cdc_window key_col seq_col ts_col) (rows df))) <=
                  List.length (rows df))%nat).
  { rewrite length_map.
    rewrite <- (length_map (cell_of (columns df) key_col)
                  (winners _ _ (rows df))).
    rewrite (winners_keys _ _ _ _ _ Hk Hwf).
    rewrite <- (length_map (cell_of (columns df) key_col) (rows df)).
    apply distinct_length. }
  split; [assumption|].
  intros E. apply length_zero_iff_nil. rewrite E in Hlen at 2.
  simpl in Hlen. lia.
Qed.

Lemma normalize_cdc_latest_output_bound_witness :
  well_formed (mkDataFrame Examples.schema []) /\
  normalize_cdc_latest (R := Examples.session)
      (mkDataFrame Examples.schema []) "id" "seq_num" "event_time" None =
    Ok (mkDataFrame Examples.schema []) /\
  rows (mkDataFrame Examples.schema []) = [].
Proof.
  assert (Hwf : well_formed (mkDataFrame Examples.schema []))
    by constructor.
  assert (Hrun : normalize_cdc_latest (R := Examples.session)
                   (mkDataFrame Examples.schema []) "id" "seq_num"
                   "event_time" None = Ok (mkDataFrame Examples.schema []))
    by reflexivity.
  split; [exact Hwf|]. split; [exact Hrun|].
  exact (proj2 (normalize_cdc_latest_output_bound Examples.session
                  (mkDataFrame Examples.schema []) _ "id" "seq_num"
                  "event_time" None Hwf Hrun) eq_refl).
Defined.

(** ** More on [normalize_ascii_lower] *)

Section TrimmingMore.

Variable p : codepoint -> bool.
Hypothesis p_space : p space = true.

Lemma drop_leading_app (s t : text) :
  drop_leading p s <> [] -> drop_leading p (s ++ t) = drop_leading p s ++ t.
Proof.
  induction s as [|c s IH]; simpl; intros H; [congruence|].
  destruct (p c); [now apply IH|reflexivity].
Qed.

Lemma drop_leading_blank (s : text) (m : nat) :
  drop_leading p s = [] -> drop_leading p (s ++ repeat space m) = [].
Proof.
  induction s as [|c s IH]; simpl; intros H.
  - now apply drop_leading_only_spaces.
  - destruct (p c); [now apply IH|discriminate].
Qed.

Lemma drop_trailing_spaces (s : text) (m : nat) :
  drop_trailing p (s ++ repeat space m) = drop_trailing p s.
Proof.
  unfold drop_trailing.
  now rewrite rev_app_distr, rev_spaces, (drop_leading_spaces p p_space).
Qed.

(** Trimming by [p] does not see space padding. *)
Lemma drop_both_padding (n m : nat) (s : text) :
  drop_trailing p (drop_leading p (padded n s m)) =
  drop_trailing p (drop_leading p s).
Proof.
  unfold padded. rewrite (drop_leading_spaces p p_space).
  destruct (drop_leading p s) as [|c t] eqn:E.
  - now rewrite drop_leading_blank.
  - rewrite drop_leading_app by (rewrite E; discriminate).
    rewrite E. apply drop_trailing_spaces.
Qed.

Lemma drop_leading_starts (s : text) :
  starts_with p (drop_leading p s) = false.
Proof.
  induction s as [|c s IH]; simpl; [reflexivity|].
  destruct (p c) eqn:E; [assumption|]. simpl. exact E.
Qed.

Lemma drop_leading_snoc (s : text) (c : codepoint) :
  p c = false -> drop_leading p (s ++ [c]) = drop_leading p s ++ [c].
Proof.
  intros Hc. induction s as [|a s IH]; simpl.
  - now rewrite Hc.
  - destruct (p a); [assumption|reflexivity].
Qed.

Lemma drop_trailing_starts (s : text) :
  starts_with p s = false -> starts_with p (drop_trailing p s) = false.
Proof.
  destruct s as [|c s]; [reflexivity|]. simpl. intros Hc.
  unfold drop_trailing. simpl. rewrite drop_leading_snoc by assumption.
  rewrite rev_app_distr. simpl. exact Hc.
Qed.

Lemma drop_trailing_ends (s : text) :
  ends_with p (drop_trailing p s) = false.
Proof.
  unfold ends_with, drop_trailing. rewrite rev_involutive.
  apply drop_leading_starts.
Qed.

Lemma starts_with_map (g : codepoint -> codepoint) (s : text) :
  (forall c, p (g c) = p c) ->
  starts_with p (map g s) = starts_with p s.
Proof. intros H. destruct s as [|c s]; simpl; [reflexivity|apply H]. Qed.

Lemma ends_with_map (g : codepoint -> codepoint) (s : text) :
  (forall c, p (g c) = p c) ->
  ends_with p (map g s) = ends_with p s.
Proof.
  intros H. unfold ends_with. rewrite <- map_rev. now apply starts_with_map.
Qed.

End TrimmingMore.

Lemma trim_padded (n m : nat) (s : text) : trim (padded n s m) = trim s.
Proof. apply (drop_both_padding is_space eq_refl). Qed.

Lemma normalize_ascii_lower_ignores_padding_aux (lower : text -> text)
    (n m : nat) (s : text) :
  normalize_ascii_lower lower (Some (repeat space n ++ s ++ repeat space m)) =
  normalize_ascii_lower lower (Some s).
Proof.
  unfold normalize_ascii_lower, option_map. fold (padded n s m).
  now rewrite trim_padded.
Qed.

(** X9.  Space characters added before and after a text do not change what
    the normaliser returns for it, whatever the lower-casing function. *)
Theorem normalize_ascii_lower_ignores_padding :
  forall (lower : text -> text) (n m : nat) (s : text),
    normalize_ascii_lower lower (Some (padded n s m)) =
    normalize_ascii_lower lower (Some s).
Proof.
  intros lower n m s. apply normalize_ascii_lower_ignores_padding_aux.
Qed.

Lemma fold_accent_space (c : codepoint) :
  is_space (fold_accent c) = is_space c.
Proof. split_codepoint c. Qed.

Lemma fold_accent_idem (c : codepoint) :
  fold_accent (fold_accent c) = fold_accent c.
Proof.
  apply N.eqb_eq. split_codepoint c; simpl; apply Pos.eqb_refl.
Qed.

(** X10.  Let the lower-casing function be idempotent, leave a text in
    lower case in lower case when the accented characters of the static map
    are replaced in it, and neither add nor remove a space at the start or
    the end of a text.  Then normalising twice is normalising once, and a
    normalised text neither starts nor ends with a space.  The function
    need not work character by character. *)
Theorem normalize_ascii_lower_idempotent :
  forall (lower : text -> text),
    (forall s, lower (lower s) = lower s) ->
    (forall s, lower s = s -> lower (map fold_accent s) = map fold_accent s) ->
    (forall s, starts_with is_space (lower s) = starts_with is_space s) ->
    (forall s, ends_with is_space (lower s) = ends_with is_space s) ->
    forall s,
      normalize_ascii_lower lower (normalize_ascii_lower lower (Some s)) =
      normalize_ascii_lower lower (Some s) /\
      (forall t, normalize_ascii_lower lower (Some s) = Some t ->
                 starts_with is_space t = false /\
                 ends_with is_space t = false).
Proof.
  intros lower Hidem Hfold Hstart Hend s.
  assert (Hnorm : forall x, normalize_ascii_lower lower (Some x) =
                            Some (map fold_accent (lower (trim x)))).
  { intros x. simpl. now rewrite translate_fold. }
  set (t := map fold_accent (lower (trim s))).
  assert (Hs : starts_with is_space t = false).
  { unfold t. rewrite (starts_with_map is_space fold_accent _ fold_accent_space).
    rewrite Hstart. unfold trim, rtrim.
    apply drop_trailing_starts, drop_leading_starts. }
  assert (He : ends_with is_space t = false).
  { unfold t. rewrite (ends_with_map is_space fold_accent _ fold_accent_space).
    rewrite Hend. unfold trim, rtrim. apply drop_trailing_ends. }
  assert (Htrim : trim t = t).
  { pose proof (drop_both_padded is_space eq_refl 0 0 t Hs He) as H.
    unfold padded in H. simpl in H. now rewrite app_nil_r in H. }
  split.
  - rewrite Hnorm. fold t. rewrite Hnorm, Htrim. f_equal. unfold t.
    rewrite (Hfold (lower (trim s)) (Hidem (trim s))).
    rewrite map_map. apply map_ext. intros c. apply fold_accent_idem.
  - intros t' Ht. rewrite Hnorm in Ht. injection Ht as <-. now split.
Qed.

Lemma latin1_lower_char_idem (c : codepoint) :
  N.eqb (latin1_lower_char (latin1_lower_char c)) (latin1_lower_char c) = true.
Proof. split_codepoint c; simpl; apply Pos.eqb_refl. Qed.

Lemma latin1_lower_char_space (c : codepoint) :
  is_space (latin1_lower_char c) = is_space c.
Proof. split_codepoint c. Qed.

Lemma latin1_lower_fold (c : codepoint) :
  N.eqb (latin1_lower_char c) c = true ->
  N.eqb (latin1_lower_char (fold_accent c)) (fold_accent c) = true.
Proof. split_codepoint c; simpl; try discriminate; intros _; apply Pos.eqb_refl. Qed.

Lemma normalize_ascii_lower_idempotent_witness :
  normalize_ascii_lower latin1_lower
    (normalize_ascii_lower latin1_lower (Some Examples.padded_arbol)) =
  normalize_ascii_lower latin1_lower (Some Examples.padded_arbol).
Proof.
  refine (proj1 (normalize_ascii_lower_idempotent latin1_lower _ _ _ _
                   Examples.padded_arbol)).
  - intros s. unfold latin1_lower. rewrite map_map. apply map_ext.
    intros c. apply N.eqb_eq, latin1_lower_char_idem.
  - intros s. unfold latin1_lower. induction s as [|c s IH]; simpl;
      [reflexivity|].
    intros H. injection H as Hc Hs. f_equal; [|now apply IH].
    apply N.eqb_eq, latin1_lower_fold. rewrite Hc. apply N.eqb_refl.
  - intros s. apply (starts_with_map is_space latin1_lower_char).
    apply latin1_lower_char_space.
  - intros s. apply (ends_with_map is_space latin1_lower_char).
    apply latin1_lower_char_space.
Defined.

(** * Properties of tools/generate_data.py *)

Section GenMonad.

Context {RT : Runtime}.

Lemma gbind_returned {A B : Type} (m : Gen A) (k : A -> Gen B) (g g2 : rng)
    (b : B) :
  gbind m k g = Returned b g2 ->
  exists a g1, m g = Returned a g1 /\ k a g1 = Returned b g2.
Proof.
  unfold gbind. destruct (m g) as [a g1|e]; [|discriminate]. eauto.
Qed.

Lemma gbind_raised {A B : Type} (m : Gen A) (k : A -> Gen B) (g : rng)
    (e : pyerror) :
  gbind m k g = Raised e ->
  m g = Raised e \/ exists a g1, m g = Returned a g1 /\ k a g1 = Raised e.
Proof.
  unfold gbind. destruct (m g) as [a g1|e']; intros H.
  - right. exists a, g1. now split.
  - left. injection H as ->. reflexivity.
Qed.

Lemma for_each_returned {A B : Type} (f : A -> Gen B) (l : list A) (g g' : rng)
    (out : list B) :
  for_each f l g = Returned out g' ->
  Forall2 (fun a b => exists g1 g2, f a g1 = Returned b g2) l out.
Proof.
  revert g g' out. induction l as [|a l IH]; simpl; intros g g' out H.
  - injection H as <- _. constructor.
  - apply gbind_returned in H as [b [g1 [Hb H]]].
    apply gbind_returned in H as [bs [g2 [Hbs H]]].
    injection H as <- _. constructor; [eauto|]. now apply (IH g1 g2).
Qed.

Lemma for_each_total {A B : Type} (f : A -> Gen B) (l : list A) (g : rng) :
  (forall a g0, In a l -> exists b g1, f a g0 = Returned b g1) ->
  exists out g', for_each f l g = Returned out g'.
Proof.
  revert g. induction l as [|a l IH]; simpl; intros g H.
  - unfold ret. eauto.
  - destruct (H a g (or_introl eq_refl)) as [b [g1 Hb]].
    destruct (IH g1) as [bs [g2 Hbs]]; [intros; apply H; now right|].
    unfold gbind. rewrite Hb, Hbs. unfold ret. eauto.
Qed.

Lemma for_each_raised {A B : Type} (f : A -> Gen B) (l : list A) (g : rng)
    (e : pyerror) :
  for_each f l g = Raised e ->
  exists a g0, In a l /\ f a g0 = Raised e.
Proof.
  revert g. induction l as [|a l IH]; simpl; intros g H; [discriminate|].
  apply gbind_raised in H as [H|[b [g1 [Hb H]]]].
  - exists a, g. split; [now left|assumption].
  - apply gbind_raised in H as [H|[bs [g2 [_ H]]]]; [|discriminate].
    destruct (IH g1 H) as [a' [g0 [Hin Ha']]]. exists a', g0.
    split; [now right|assumption].
Qed.

(** *** Rows as dicts *)

Lemma pyget_pyset_same (k : string) (v : pyvalue) (d : pydict) :
  pyget k (pyset k v d) = Some v.
Proof.
  induction d as [|[k' v'] d IH]; simpl.
  - now rewrite String.eqb_refl.
  - destruct (String.eqb k' k) eqn:E; simpl; now rewrite E.
Qed.

Lemma pyget_pyset_other (k k' : string) (v : pyvalue) (d : pydict) :
  k <> k' -> pyget k (pyset k' v d) = pyget k d.
Proof.
  intros Hne. induction d as [|[k0 v0] d IH]; simpl.
  - destruct (String.eqb_spec k' k); [congruence|reflexivity].
  - destruct (String.eqb_spec k0 k') as [->|E]; simpl.
    + destruct (String.eqb_spec k' k); [congruence|reflexivity].
    + destruct (String.eqb k0 k); [reflexivity|assumption].
Qed.

Lemma pyget_keys (k : string) (d : pydict) :
  In k (map fst d) <-> pyget k d <> None.
Proof.
  induction d as [|[k' v'] d IH]; simpl.
  - split; [contradiction|congruence].
  - destruct (String.eqb_spec k' k) as [->|E].
    + split; [discriminate|now left].
    + rewrite <- IH. split; [intros [H|H]; [contradiction|assumption]|now right].
Qed.

Lemma pyget_copy_step (r : pydict) (ks : list string) (acc : pydict)
    (k : string) :
  pyget k
    (fold_left
       (fun acc k => match pyget k r with
                     | Some v => pyset k v acc
                     | None => acc
                     end) ks acc) =
  if in_dec string_dec k ks then
    match pyget k r with Some v => Some v | None => pyget k acc end
  else pyget k acc.
Proof.
  revert acc. induction ks as [|a ks IH]; intros acc; [reflexivity|].
  cbn [fold_left]. rewrite IH.
  destruct (in_dec string_dec k ks) as [Hin|Hin];
    destruct (in_dec string_dec k (a :: ks)) as [Hin'|Hin'].
  - destruct (pyget k r) eqn:E; [reflexivity|].
    destruct (pyget a r) eqn:Ea; [|reflexivity].
    apply pyget_pyset_other. intros ->. congruence.
  - exfalso. apply Hin'. now right.
  - destruct Hin' as [->|Hin']; [|contradiction].
    destruct (pyget k r) eqn:E; [apply pyget_pyset_same|reflexivity].
  - destruct (pyget a r) eqn:Ea; [|reflexivity].
    apply pyget_pyset_other. intros ->. apply Hin'. now left.
Qed.

(** The dict comprehension of the delete branch copies the row. *)
Lemma pyget_pycopy_items (r : pydict) (k : string) :
  pyget k (pycopy_items r) = pyget k r.
Proof.
  unfold pycopy_items. rewrite pyget_copy_step.
  destruct (in_dec string_dec k (map fst r)) as [Hin|Hin].
  - apply pyget_keys in Hin. now destruct (pyget k r).
  - simpl. destruct (pyget k r) eqn:E; [|reflexivity].
    exfalso. apply Hin, pyget_keys. congruence.
Qed.

End GenMonad.

(** ** Duplicates and padding *)

Section Noise.

Context {RT : Runtime}.

Lemma pick_duplicates_spec {A : Type} (rows : list A) (rate : float) (g : rng) :
  exists dupes g',
    pick_duplicates rows rate g = Returned dupes g' /\
    incl dupes rows /\
    (List.length dupes <= List.length rows)%nat.
Proof.
  revert g. induction rows as [|r rows IH]; intros g; simpl.
  - exists [], g. repeat split; [apply incl_refl|simpl; lia].
  - unfold gbind at 1, draw.
    destruct (IH (snd (random g))) as [dupes [g' [H [Hincl Hlen]]]].
    unfold gbind. rewrite H. unfold ret.
    destruct (flt (fst (random g)) rate).
    + exists (r :: dupes), g'. repeat split.
      * intros x [<-|Hx]; [now left|right; now apply Hincl].
      * simpl. lia.
    + exists dupes, g'. repeat split.
      * intros x Hx. right. now apply Hincl.
      * simpl. lia.
Qed.

End Noise.

(** X11.  [duplicate_rows] never raises and returns the rows it was given,
    in their order, followed by copies of some of them: every added row is a
    row of the input and there are at most as many copies as rows.  With a
    rate of zero or less it returns the rows as they are and draws
    no random number. *)
Theorem duplicate_rows_appends_copies :
  forall (RT : Runtime) (A : Type) (rows : list A) (dupe_rate : float)
         (g : rng),
    exists dupes g',
      duplicate_rows rows dupe_rate g = Returned (rows ++ dupes) g' /\
      incl dupes rows /\
      (List.length dupes <= List.length rows)%nat /\
      (fle dupe_rate (flit "0") = true -> dupes = [] /\ g' = g).
Proof.
  intros RT A rows rate g. unfold duplicate_rows.
  destruct (fle rate (flit "0")) eqn:E.
  - exists [], g. rewrite app_nil_r. repeat split.
    + apply incl_nil_l.
    + simpl. lia.
  - destruct (pick_duplicates_spec rows rate g) as [dupes [g' [H [Hincl Hlen]]]].
    exists dupes, g'. unfold gbind. rewrite H. repeat split; try assumption.
    + discriminate.
    + discriminate.
Qed.

(** X12.  The padding [maybe_pad_spaces] may add is lost on the text
    normaliser: a value and its possibly padded form normalise to the same
    text, whatever the lower-casing function.  The function never raises,
    and [None] stays [None] without a random draw. *)
Theorem maybe_pad_spaces_is_normalised_away :
  forall (RT : Runtime) (lower : text -> text) (value : option text)
         (prob : float) (g : rng),
    exists padded_value g',
      maybe_pad_spaces value prob g = Returned padded_value g' /\
      normalize_ascii_lower lower padded_value =
      normalize_ascii_lower lower value /\
      (value = None -> padded_value = None /\ g' = g).
Proof.
  intros RT lower [v|] prob g; simpl.
  - unfold gbind at 1, draw.
    destruct (flt (fst (random g)) prob).
    + unfold gbind, draw, ret.
      eexists. eexists. split; [reflexivity|]. split; [|discriminate].
      apply (normalize_ascii_lower_ignores_padding_aux lower).
    + unfold ret. exists (Some v). eexists.
      split; [reflexivity|]. split; [reflexivity|discriminate].
  - unfold ret. exists None, g. repeat split.
Qed.

(** ** CDC columns *)

Section CdcEvents.

Context {RT : Runtime}.

Lemma sets_only_refl (ks : list string) (u : pydict) : sets_only ks u u.
Proof. intros k _. reflexivity. Qed.

Lemma sets_only_pyset (ks : list string) (key : string) (v : pyvalue)
    (u : pydict) :
  In key ks -> sets_only ks u (pyset key v u).
Proof.
  intros Hin k Hk. apply pyget_pyset_other. intros ->. contradiction.
Qed.

Lemma sets_only_trans (ks : list string) (u1 u2 u3 : pydict) :
  sets_only ks u1 u2 -> sets_only ks u2 u3 -> sets_only ks u1 u3.
Proof. intros H1 H2 k Hk. now rewrite H2, H1. Qed.

(** *** Event times *)

Lemma shift_cases (dt delta : Z) (g : rng) :
  (shift dt delta g = Returned (dt + delta) g /\
   0 <= dt + delta <= datetime_max) \/
  (shift dt delta g = Raised PyOverflowError /\
   ~ (0 <= dt + delta <= datetime_max)).
Proof.
  unfold shift.
  destruct (Z.leb_spec 0 (dt + delta)), (Z.leb_spec (dt + delta) datetime_max);
    simpl; [left|right|right|right]; (split; [reflexivity|lia]).
Qed.

(** The days the event is moved back by: none, or a number drawn by
    [randint(1, 2)]. *)
Lemma late_shift_cases {A : Type} (late : bool) (ev : Z) (k : Z -> A)
    (g : rng) :
  (exists d g',
      (let* ev' := if late
                   then let* d := draw (randint 1 2) in shift ev (- (86400 * d))
                   else ret ev in
       ret (k ev')) g = Returned (k (ev - 86400 * d)) g' /\
      (d = 0 \/ exists g2, d = fst (randint 1 2 g2)) /\
      (d = 0 \/ 0 <= ev - 86400 * d <= datetime_max)) \/
  ((let* ev' := if late
                then let* d := draw (randint 1 2) in shift ev (- (86400 * d))
                else ret ev in
    ret (k ev')) g = Raised PyOverflowError /\
   exists g2, ~ (0 <= ev - 86400 * fst (randint 1 2 g2) <= datetime_max)).
Proof.
  destruct late.
  - destruct (shift_cases ev (- (86400 * fst (randint 1 2 g)))
                (snd (randint 1 2 g))) as [[E H]|[E H]].
    + left. exists (fst (randint 1 2 g)), (snd (randint 1 2 g)).
      unfold gbind, draw. rewrite E. unfold ret.
      replace (ev + - (86400 * fst (randint 1 2 g)))
        with (ev - 86400 * fst (randint 1 2 g)) in * by lia.
      split; [reflexivity|]. split; [right; eauto|]. right. exact H.
    + right. unfold gbind, draw. rewrite E. split; [reflexivity|]. exists g.
      replace (ev - 86400 * fst (randint 1 2 g))
        with (ev + - (86400 * fst (randint 1 2 g))) by lia. exact H.
  - left. exists 0, g. unfold gbind, ret.
    replace (ev - 86400 * 0) with ev by lia.
    split; [reflexivity|]. split; now left.
Qed.

(** What stamping a row with an event time does: [late] says whether the
    event is moved back. *)
Lemma stamp_cases (file_date : Z) (late : Gen bool) (u : pydict) (g : rng) :
  (forall g0, exists b g1, late g0 = Returned b g1) ->
  (exists t g',
      (let* ev := day_event_time file_date in
       let* l := late in
       let* ev' := if l
                   then let* d := draw (randint 1 2) in shift ev (- (86400 * d))
                   else ret ev in
       ret (pyset "eventTime" (PyStr (strftime ev')) u)) g =
      Returned (pyset "eventTime" (PyStr (strftime t)) u) g' /\
      0 <= t <= datetime_max /\
      exists s d,
        t = midnight file_date + s - 86400 * d /\
        s = fst (randint 0 86399 g) /\
        (d = 0 \/ exists g2, d = fst (randint 1 2 g2))) \/
  ((let* ev := day_event_time file_date in
    let* l := late in
    let* ev' := if l
                then let* d := draw (randint 1 2) in shift ev (- (86400 * d))
                else ret ev in
    ret (pyset "eventTime" (PyStr (strftime ev')) u)) g =
   Raised PyOverflowError /\
   event_time_overflows file_date).
Proof.
  intros Hlate.
  set (s := fst (randint 0 86399 g)). set (g1 := snd (randint 0 86399 g)).
  assert (Hday : day_event_time file_date g = shift (midnight file_date) s g1)
    by reflexivity.
  destruct (shift_cases (midnight file_date) s g1) as [[E H]|[E H]].
  2:{ right. split.
      - unfold gbind at 1. now rewrite Hday, E.
      - exists s, 0, g. split; [reflexivity|]. split; [now left|].
        now replace (midnight file_date + s - 86400 * 0)
          with (midnight file_date + s) by lia. }
  destruct (Hlate g1) as [b [g2 Hb]].
  destruct (late_shift_cases b (midnight file_date + s)
              (fun t => pyset "eventTime" (PyStr (strftime t)) u) g2)
    as [[d [g' [Hk [Hd Hr]]]]|[Hk [g3 Hr]]].
  - left. exists (midnight file_date + s - 86400 * d), g'. split.
    + unfold gbind at 1. rewrite Hday, E. unfold gbind at 1. rewrite Hb.
      exact Hk.
    + split.
      * destruct Hr as [->|Hr]; [|assumption].
        now replace (midnight file_date + s - 86400 * 0)
          with (midnight file_date + s) by lia.
      * exists s, d. now repeat split.
  - right. split.
    + unfold gbind at 1. rewrite Hday, E. unfold gbind at 1. rewrite Hb.
      exact Hk.
    + exists s, (fst (randint 1 2 g3)), g.
      split; [reflexivity|]. split; [right; eauto|assumption].
Qed.

(** With [randint] in its bounds, the event times of a date from the third
    day of the calendar on stay in range. *)
Lemma event_times_fit (file_date : Z) :
  randint_in_range -> late_events_fit file_date ->
  ~ event_time_overflows file_date.
Proof.
  intros Hrange [Hlo Hhi] [s [d [g1 [Hs [Hd Hout]]]]]. apply Hout.
  assert (0 <= s <= 86399) by (subst s; apply Hrange; lia).
  assert (0 <= d <= 2).
  { destruct Hd as [->|[g2 ->]]; [lia|].
    assert (1 <= fst (randint 1 2 g2) <= 2) by (apply Hrange; lia). lia. }
  unfold midnight, datetime_max, date_max in *. lia.
Qed.

Lemma attach_insert_stamp (r : pydict) (file_date : Z) (late_rate : float)
    (g : rng) :
  attach_insert r file_date late_rate g =
  (let* ev := day_event_time file_date in
   let* l := (let* u1 := draw random in
              if flt u1 late_rate
              then let* u2 := draw random in ret (flt u2 (flit "0.5"))
              else ret false) in
   let* ev' := if l
               then let* d := draw (randint 1 2) in shift ev (- (86400 * d))
               else ret ev in
   ret (pyset "eventTime" (PyStr (strftime ev'))
          (pyset "seqNum" (PyInt 1) (pyset "op" (PyStr "I") r)))) g.
Proof.
  unfold attach_insert, gbind.
  destruct (day_event_time file_date g) as [ev g1|e]; [|reflexivity].
  unfold draw. destruct (flt (fst (random g1)) late_rate); reflexivity.
Qed.

(** What one pass of the loop of [attach_insert_cdc] does. *)
Lemma attach_insert_cases (r : pydict) (file_date : Z) (late_rate : float)
    (g : rng) :
  (exists t g',
      attach_insert r file_date late_rate g =
      Returned (pyset "eventTime" (PyStr (strftime t))
                  (pyset "seqNum" (PyInt 1) (pyset "op" (PyStr "I") r))) g' /\
      0 <= t <= datetime_max /\
      exists s d,
        t = midnight file_date + s - 86400 * d /\
        s = fst (randint 0 86399 g) /\
        (d = 0 \/ exists g2, d = fst (randint 1 2 g2))) \/
  (attach_insert r file_date late_rate g = Raised PyOverflowError /\
   event_time_overflows file_date).
Proof.
  rewrite attach_insert_stamp. apply stamp_cases.
  intros g0. unfold gbind, draw, ret.
  destruct (flt (fst (random g0)) late_rate); eauto.
Qed.

Lemma next_seq_spec (r : pydict) (g : rng) :
  next_seq r g =
  match seq_after r with
  | Some s => Returned s g
  | None => Raised PyTypeError
  end.
Proof.
  unfold next_seq, seq_after.
  destruct (pyget "seqNum" r) as [[| | |]|]; reflexivity.
Qed.

Lemma rescale_spec (key : string) (lo hi : Z) (factors : list string)
    (u : pydict) (g : rng) :
  exists v g', rescale key lo hi factors u g = Returned (pyset key v u) g'.
Proof.
  unfold rescale.
  destruct (try_float (pyget key u)); unfold gbind, draw, ret; eauto.
Qed.

Lemma set_choice_spec (key : string) (options weights : list string)
    (u : pydict) (g : rng) :
  exists v g', set_choice key options weights u g = Returned (pyset key v u) g'.
Proof. unfold set_choice, rand_choice_weighted, gbind, draw, ret. eauto. Qed.

End CdcEvents.

Section CdcMutations.

Context {RT : Runtime}.

Lemma email_of_update (r : pydict) (s : pyvalue) :
  pyget "emailAddress" (pyset "seqNum" s (pyset "op" (PyStr "U") r)) =
  pyget "emailAddress" r.
Proof. rewrite !pyget_pyset_other by discriminate. reflexivity. Qed.

(** The table-specific step either returns a row that differs on the
    mutable fields only, or meets a truthy [emailAddress] that is not a
    str. *)
Lemma mutate_spec (table : string) (u : pydict) (g : rng) :
  (exists u' g', mutate table u g = Returned u' g' /\
                 sets_only mutable_fields u u') \/
  (mutate table u g = Raised PyAttributeError /\
   table = "customers" /\ email_not_a_str u).
Proof.
  unfold mutate.
  destruct (String.eqb_spec table "customers") as [->|_].
  { unfold email_not_a_str.
    assert (Hok : forall u1 g1,
               sets_only mutable_fields u u1 ->
               exists u' g',
                 set_choice "isActive" ["Y"; "N"; "y"; "n"]
                            ["0.7"; "0.1"; "0.15"; "0.05"] u1 g1 =
                 Returned u' g' /\ sets_only mutable_fields u u').
    { intros u1 g1 H1.
      destruct (set_choice_spec "isActive" ["Y"; "N"; "y"; "n"]
                  ["0.7"; "0.1"; "0.15"; "0.05"] u1 g1) as [v [g' Hv]].
      exists (pyset "isActive" v u1), g'. split; [assumption|].
      eapply sets_only_trans; [eassumption|].
      apply sets_only_pyset. simpl. tauto. }
    destruct (pyget "emailAddress" u) as [v|] eqn:Ev.
    - destruct (py_truthy v) eqn:Et.
      + destruct v as [|n|s|f].
        * discriminate.
        * right. repeat split; assumption.
        * left. unfold gbind at 1. unfold gbind at 1, draw at 1, ret at 1.
          apply Hok. apply sets_only_pyset. simpl. tauto.
        * right. repeat split; assumption.
      + left. unfold gbind at 1, ret at 1. apply Hok, sets_only_refl.
    - left. unfold gbind at 1, ret at 1. apply Hok, sets_only_refl. }
  left.
  destruct (String.eqb_spec table "products") as [->|_].
  { destruct (rescale_spec "unitPrice" 5 500 ["0.95"; "1.00"; "1.05"] u g)
      as [v [g1 Hv]].
    unfold gbind. rewrite Hv.
    destruct (set_choice_spec "isDiscontinued" ["Y"; "N"; "NO"; "yes"]
                ["0.06"; "0.78"; "0.1"; "0.06"] (pyset "unitPrice" v u) g1)
      as [v' [g' Hv']].
    rewrite Hv'. eexists. eexists. split; [reflexivity|].
    eapply sets_only_trans; apply sets_only_pyset; simpl; tauto. }
  destruct (String.eqb_spec table "orders") as [->|_].
  { destruct (set_choice_spec "status"
                ["NEW"; "PAID"; "SHIPPED"; "CANCELLED"; "RETURNED"]
                ["0.1"; "0.35"; "0.35"; "0.15"; "0.05"] u g) as [v [g' Hv]].
    rewrite Hv. eexists. eexists. split; [reflexivity|].
    apply sets_only_pyset; simpl; tauto. }
  destruct (String.eqb_spec table "orderItems") as [->|_].
  { assert (Hok : forall u1 g1,
               sets_only mutable_fields u u1 ->
               exists u' g',
                 rescale "unitPrice" 5 500 ["0.95"; "1.0"; "1.05"] u1 g1 =
                 Returned u' g' /\ sets_only mutable_fields u u').
    { intros u1 g1 H1.
      destruct (rescale_spec "unitPrice" 5 500 ["0.95"; "1.0"; "1.05"] u1 g1)
        as [v [g' Hv]].
      exists (pyset "unitPrice" v u1), g'. split; [assumption|].
      eapply sets_only_trans; [eassumption|].
      apply sets_only_pyset. simpl. tauto. }
    destruct (pyget "quantity" u) as [[|q|s|f]|];
      unfold gbind at 1; try (unfold ret at 1; apply Hok, sets_only_refl).
    unfold gbind at 1, draw at 1, ret at 1.
    apply Hok. apply sets_only_pyset. simpl. tauto. }
  destruct (String.eqb_spec table "payments") as [->|_].
  { destruct (rescale_spec "amount" 5 1500 ["0.9"; "1.0"; "1.1"] u g)
      as [v [g1 Hv]].
    unfold gbind. rewrite Hv.
    destruct (set_choice_spec "status" ["OK"; "ok"; "FAILED"; "PENDING"]
                ["0.7"; "0.1"; "0.1"; "0.1"] (pyset "amount" v u) g1)
      as [v' [g' Hv']].
    rewrite Hv'. eexists. eexists. split; [reflexivity|].
    eapply sets_only_trans; apply sets_only_pyset; simpl; tauto. }
  unfold ret. eexists. eexists. split; [reflexivity|apply sets_only_refl].
Qed.

Lemma make_update_stamp (table : string) (file_date : Z) (late_rate : float)
    (r : pydict) (s : pyvalue) (g : rng) :
  seq_after r = Some s ->
  make_update table file_date late_rate r g =
  (let* u := mutate table (pyset "seqNum" s (pyset "op" (PyStr "U") r)) in
   let* ev := day_event_time file_date in
   let* l := (let* u1 := draw random in ret (flt u1 late_rate)) in
   let* ev' := if l
               then let* d := draw (randint 1 2) in shift ev (- (86400 * d))
               else ret ev in
   ret (pyset "eventTime" (PyStr (strftime ev')) u)) g.
Proof.
  intros Es. unfold make_update. unfold gbind at 1. rewrite next_seq_spec, Es.
  unfold gbind.
  destruct (mutate table _ g) as [u g1|e]; [|reflexivity].
  destruct (day_event_time file_date g1) as [ev g2|e]; reflexivity.
Qed.

Lemma make_update_spec (table : string) (file_date : Z) (late_rate : float)
    (r : pydict) (g : rng) :
  (exists u g', make_update table file_date late_rate r g = Returned u g' /\
                event_of "U" mutable_fields r u) \/
  (make_update table file_date late_rate r g = Raised PyTypeError /\
   seq_not_a_number r) \/
  (make_update table file_date late_rate r g = Raised PyAttributeError /\
   table = "customers" /\ email_not_a_str r) \/
  (make_update table file_date late_rate r g = Raised PyOverflowError /\
   event_time_overflows file_date).
Proof.
  destruct (seq_after r) as [s|] eqn:Es.
  2:{ right. left. split.
      - unfold make_update. unfold gbind at 1. now rewrite next_seq_spec, Es.
      - unfold seq_after in Es. unfold seq_not_a_number.
        destruct (pyget "seqNum" r) as [[| | |]|]; try discriminate; exact I. }
  rewrite (make_update_stamp table file_date late_rate r s g Es).
  set (u0 := pyset "seqNum" s (pyset "op" (PyStr "U") r)).
  destruct (mutate_spec table u0 g) as [[u1 [g1 [Hm Hs]]]|[Hm [Ht He]]].
  2:{ right. right. left. split; [|split; [assumption|]].
      - unfold gbind. now rewrite Hm.
      - unfold email_not_a_str in *. unfold u0 in He.
        now rewrite email_of_update in He. }
  assert (Hev : forall t,
             event_of "U" mutable_fields r
               (pyset "eventTime" (PyStr (strftime t)) u1)).
  { intros t. unfold event_of.
    assert (Hop : pyget "op" u1 = Some (PyStr "U")).
    { rewrite Hs by (simpl; intuition discriminate). unfold u0.
      rewrite pyget_pyset_other by discriminate. apply pyget_pyset_same. }
    assert (Hseq : pyget "seqNum" u1 = Some s).
    { rewrite Hs by (simpl; intuition discriminate). unfold u0.
      apply pyget_pyset_same. }
    split; [|split; [|split]].
    - rewrite pyget_pyset_other by discriminate. exact Hop.
    - exists s. split; [exact Es|].
      rewrite pyget_pyset_other by discriminate. exact Hseq.
    - exists t. apply pyget_pyset_same.
    - intros k Hk.
      rewrite pyget_pyset_other by (intros ->; apply Hk; simpl; tauto).
      rewrite Hs by (intros Hin; apply Hk; simpl; tauto). unfold u0.
      rewrite !pyget_pyset_other
        by (intros ->; apply Hk; simpl; tauto).
      reflexivity. }
  destruct (stamp_cases file_date
              (let* u1 := draw random in ret (flt u1 late_rate)) u1 g1)
    as [[t [g' [Hst _]]]|[Hst Hov]].
  { intros g0. unfold gbind, draw, ret. eauto. }
  - left. exists (pyset "eventTime" (PyStr (strftime t)) u1), g'.
    split; [|apply Hev]. unfold gbind at 1. now rewrite Hm.
  - right. right. right. split; [|assumption].
    unfold gbind at 1. now rewrite Hm.
Qed.

Lemma make_delete_stamp (file_date : Z) (r : pydict) (s : pyvalue) (g : rng) :
  seq_after r = Some s ->
  make_delete file_date r g =
  (let* ev := day_event_time file_date in
   let* l := ret false in
   let* ev' := if l
               then let* d := draw (randint 1 2) in shift ev (- (86400 * d))
               else ret ev in
   ret (pyset "eventTime" (PyStr (strftime ev'))
          (pyset "seqNum" s (pyset "op" (PyStr "D") (pycopy_items r))))) g.
Proof.
  intros Es. unfold make_delete. unfold gbind at 1. rewrite next_seq_spec, Es.
  unfold gbind.
  destruct (day_event_time file_date g) as [ev g2|e]; reflexivity.
Qed.

Lemma make_delete_spec (file_date : Z) (r : pydict) (g : rng) :
  (exists d g', make_delete file_date r g = Returned d g' /\
                event_of "D" [] r d) \/
  (make_delete file_date r g = Raised PyTypeError /\ seq_not_a_number r) \/
  (make_delete file_date r g = Raised PyOverflowError /\
   event_time_overflows file_date).
Proof.
  destruct (seq_after r) as [s|] eqn:Es.
  2:{ right. left. split.
      - unfold make_delete. unfold gbind at 1. now rewrite next_seq_spec, Es.
      - unfold seq_after in Es. unfold seq_not_a_number.
        destruct (pyget "seqNum" r) as [[| | |]|]; try discriminate; exact I. }
  rewrite (make_delete_stamp file_date r s g Es).
  destruct (stamp_cases file_date (ret false)
              (pyset "seqNum" s (pyset "op" (PyStr "D") (pycopy_items r))) g)
    as [[t [g' [Hst _]]]|[Hst Hov]].
  { intros g0. unfold ret. eauto. }
  - left. eexists. eexists. split; [exact Hst|]. unfold event_of.
    split; [|split; [|split]].
    + rewrite !pyget_pyset_other by discriminate. apply pyget_pyset_same.
    + exists s. split; [exact Es|].
      rewrite pyget_pyset_other by discriminate. apply pyget_pyset_same.
    + eexists. apply pyget_pyset_same.
    + intros k Hk.
      rewrite !pyget_pyset_other by (intros ->; apply Hk; simpl; tauto).
      apply pyget_pycopy_items.
  - right. right. now split.
Qed.

End CdcMutations.

Lemma Forall2_to_Forall {A B : Type} (P : A -> B -> Prop) (l : list A)
    (out : list B) :
  Forall2 P l out -> Forall (fun b => exists a, In a l /\ P a b) out.
Proof.
  induction 1 as [|a b l out Hab _ IH]; constructor.
  - exists a. split; [now left|assumption].
  - eapply Forall_impl; [|exact IH].
    intros b' [a' [Hin Hp]]. exists a'. split; [now right|assumption].
Qed.

(** X13.  When [attach_insert_cdc] returns, it returns one row per row it
    was given, in the same order: each carries [op = "I"], [seqNum = 1] and
    a formatted [eventTime] within the range of [datetime], and agrees with
    its source row on every other key.  The only exception it raises is the
    [OverflowError] of an event time that falls before the first day of
    the calendar.  With [randint] in its bounds it returns for every file
    date from the third day of the calendar on. *)
Theorem attach_insert_cdc_marks_inserts :
  forall (RT : Runtime) (rows : list pydict) (file_date : Z)
         (late_rate : float) (g : rng),
    (forall out g',
        attach_insert_cdc rows file_date late_rate g = Returned out g' ->
        List.length out = List.length rows /\
        Forall2
          (fun r rr =>
             pyget "op" rr = Some (PyStr "I") /\
             pyget "seqNum" rr = Some (PyInt 1) /\
             (exists t, pyget "eventTime" rr = Some (PyStr (strftime t)) /\
                        0 <= t <= datetime_max) /\
             (forall k, ~ In k ["op"; "seqNum"; "eventTime"] ->
                        pyget k rr = pyget k r))
          rows out) /\
    (forall e,
        attach_insert_cdc rows file_date late_rate g = Raised e ->
        e = PyOverflowError /\ event_time_overflows file_date) /\
    (randint_in_range -> late_events_fit file_date ->
     exists out g',
       attach_insert_cdc rows file_date late_rate g = Returned out g').
Proof.
  intros RT rows file_date late_rate g. unfold attach_insert_cdc.
  split; [|split].
  - intros out g' H. apply for_each_returned in H.
    split; [symmetry; eapply Forall2_length; eassumption|].
    eapply Forall2_impl; [|exact H].
    intros r rr [g1 [g2 Hr]].
    destruct (attach_insert_cases r file_date late_rate g1)
      as [[t [g3 [Hs [Ht _]]]]|[Hs _]]; rewrite Hs in Hr; [|discriminate].
    injection Hr as <- _.
    split; [|split; [|split]].
    + rewrite !pyget_pyset_other by discriminate. apply pyget_pyset_same.
    + rewrite pyget_pyset_other by discriminate. apply pyget_pyset_same.
    + exists t. split; [apply pyget_pyset_same|assumption].
    + intros k Hk.
      rewrite !pyget_pyset_other by (intros ->; apply Hk; simpl; tauto).
      reflexivity.
  - intros e H. apply for_each_raised in H as [r [g0 [_ H]]].
    destruct (attach_insert_cases r file_date late_rate g0)
      as [[t [g3 [Hs _]]]|[Hs Hov]]; rewrite Hs in H; [discriminate|].
    injection H as <-. now split.
  - intros Hrange Hfit. apply for_each_total. intros r g0 _.
    destruct (attach_insert_cases r file_date late_rate g0)
      as [[t [g3 [Hs _]]]|[_ Hov]]; [eauto|].
    now apply event_times_fit in Hov.
Qed.

(** X14.  When [randint] keeps to its bounds, every [eventTime] that
    [attach_insert_cdc] writes lies between two days before the file date
    and the last second of the file date: an insert may arrive late, never
    early. *)
Theorem attach_insert_cdc_event_time_window :
  forall (RT : Runtime) (rows out : list pydict) (file_date : Z)
         (late_rate : float) (g g' : rng),
    randint_in_range ->
    attach_insert_cdc rows file_date late_rate g = Returned out g' ->
    Forall
      (fun rr =>
         exists t,
           pyget "eventTime" rr = Some (PyStr (strftime t)) /\
           midnight file_date - 2 * 86400 <= t <= midnight file_date + 86399)
      out.
Proof.
  intros RT rows out file_date late_rate g g' Hrange H.
  unfold attach_insert_cdc in H. apply for_each_returned in H.
  apply Forall2_to_Forall in H. eapply Forall_impl; [|exact H].
  intros rr [r [_ [g1 [g2 Hr]]]].
  destruct (attach_insert_cases r file_date late_rate g1)
    as [[t [g3 [Hs [_ [s [d [Et [Es Hd]]]]]]]]|[Hs _]]; rewrite Hs in Hr;
    [|discriminate].
  injection Hr as <- _. exists t.
  split; [apply pyget_pyset_same|].
  assert (0 <= s <= 86399) by (subst s; apply Hrange; lia).
  destruct Hd as [->|[g0 ->]]; [lia|].
  assert (1 <= fst (randint 1 2 g0) <= 2) by (apply Hrange; lia).
  lia.
Qed.

Section UpdatesDeletes.

Context {RT : Runtime}.
Variables (file_date : Z) (update_rate delete_rate late_rate : float)
          (table : string).

Lemma int_scaled_error (n : nat) (rate : float) (e : pyerror) :
  int_scaled n rate = inl e -> e = PyOverflowError \/ e = PyValueError.
Proof.
  unfold int_scaled, int_of_float.
  destruct (float_of_Z (Z.of_nat n)) as [x|];
    [destruct (fclass (fmul x rate))|]; intros H; try discriminate;
    injection H as <-; auto.
Qed.

Lemma sample_size_bounds (least k : Z) (n : nat) :
  (sample_size least k n <= n)%nat /\
  (0 <= least -> (Z.to_nat least <= n)%nat ->
   (Z.to_nat least <= sample_size least k n)%nat).
Proof. unfold sample_size. split; intros; lia. Qed.

Lemma make_updates_deletes_unfold (r0 : pydict) (rest : list pydict) (g : rng)
    (k_upd k_del : Z) :
  let prev := r0 :: rest in
  let n := List.length prev in
  let su := sample pydict prev (sample_size 1 k_upd n) g in
  let sd := sample pydict prev (sample_size 0 k_del n) (snd su) in
  int_scaled n update_rate = inr k_upd ->
  int_scaled n delete_rate = inr k_del ->
  make_updates_deletes prev file_date update_rate delete_rate late_rate table g =
  (let* updates := for_each (make_update table file_date late_rate) (fst su) in
   let* deletes := for_each (make_delete file_date) (fst sd) in
   ret (updates ++ deletes)) (snd sd).
Proof.
  intros prev n su sd Hu Hd. unfold make_updates_deletes. fold prev. fold n.
  rewrite Hu, Hd. reflexivity.
Qed.

(** An update rate or a delete rate that [int] cannot convert makes the
    call raise before any row is sampled. *)
Lemma make_updates_deletes_rates (r0 : pydict) (rest : list pydict) (g : rng) :
  let n := List.length (r0 :: rest) in
  match int_scaled n update_rate, int_scaled n delete_rate with
  | inl e, _ =>
      make_updates_deletes (r0 :: rest) file_date update_rate delete_rate
                           late_rate table g = Raised e
  | inr _, inl e =>
      make_updates_deletes (r0 :: rest) file_date update_rate delete_rate
                           late_rate table g = Raised e
  | inr _, inr _ => True
  end.
Proof.
  intros n. unfold make_updates_deletes. fold n.
  destruct (int_scaled n update_rate) as [e|ku]; [reflexivity|].
  destruct (int_scaled n delete_rate) as [e|kd]; [reflexivity|exact I].
Qed.

(** What a call on a non-empty list returns, when it returns. *)
Lemma make_updates_deletes_returned (r0 : pydict) (rest out : list pydict)
    (g g' : rng) :
  sample_sound ->
  make_updates_deletes (r0 :: rest) file_date update_rate delete_rate
                       late_rate table g = Returned out g' ->
  exists k_upd k_del updates deletes,
    int_scaled (List.length (r0 :: rest)) update_rate = inr k_upd /\
    int_scaled (List.length (r0 :: rest)) delete_rate = inr k_del /\
    out = updates ++ deletes /\
    List.length updates = sample_size 1 k_upd (List.length (r0 :: rest)) /\
    List.length deletes = sample_size 0 k_del (List.length (r0 :: rest)) /\
    Forall (fun u => exists r, In r (r0 :: rest) /\
                               event_of "U" mutable_fields r u) updates /\
    Forall (fun u => exists r, In r (r0 :: rest) /\ event_of "D" [] r u)
           deletes.
Proof.
  intros Hsample H.
  pose proof (make_updates_deletes_rates r0 rest g) as Hrates.
  cbv zeta in Hrates.
  set (n := List.length (r0 :: rest)) in *.
  destruct (int_scaled n update_rate) as [e|ku] eqn:Eu; [congruence|].
  destruct (int_scaled n delete_rate) as [e|kd] eqn:Ed; [congruence|].
  clear Hrates. exists ku, kd.
  rewrite (make_updates_deletes_unfold r0 rest g ku kd Eu Ed) in H.
  fold n in H.
  set (su := sample pydict (r0 :: rest) (sample_size 1 ku n) g) in *.
  set (sd := sample pydict (r0 :: rest) (sample_size 0 kd n) (snd su)) in *.
  destruct (sample_size_bounds 1 ku n) as [Hu _].
  destruct (sample_size_bounds 0 kd n) as [Hd _].
  destruct (Hsample pydict (r0 :: rest) (sample_size 1 ku n) g) as [Hiu Hlu].
  destruct (Hsample pydict (r0 :: rest) (sample_size 0 kd n) (snd su))
    as [Hid Hld].
  fold su in Hiu, Hlu. fold sd in Hid, Hld.
  apply gbind_returned in H as [updates [g1 [Hupd H]]].
  apply gbind_returned in H as [deletes [g2 [Hdel H]]].
  injection H as <- _. exists updates, deletes.
  pose proof (for_each_returned _ _ _ _ _ Hupd) as Fu.
  pose proof (for_each_returned _ _ _ _ _ Hdel) as Fd.
  split; [reflexivity|]. split; [reflexivity|]. split; [reflexivity|].
  split; [|split; [|split]].
  - rewrite <- (Forall2_length Fu). now apply Hlu.
  - rewrite <- (Forall2_length Fd). now apply Hld.
  - apply Forall2_to_Forall in Fu. eapply Forall_impl; [|exact Fu].
    intros u [r [Hr [ga [gb Hret]]]]. exists r. split; [now apply Hiu|].
    destruct (make_update_spec table file_date late_rate r ga)
      as [[u' [g3 [Hu' Hev]]]|[[Hu' _]|[[Hu' _]|[Hu' _]]]];
      rewrite Hu' in Hret; try discriminate.
    now injection Hret as <- _.
  - apply Forall2_to_Forall in Fd. eapply Forall_impl; [|exact Fd].
    intros u [r [Hr [ga [gb Hret]]]]. exists r. split; [now apply Hid|].
    destruct (make_delete_spec file_date r ga)
      as [[u' [g3 [Hu' Hev]]]|[[Hu' _]|[Hu' _]]]; rewrite Hu' in Hret;
      try discriminate.
    now injection Hret as <- _.
Qed.

Lemma make_updates_deletes_raised (prev : list pydict) (g : rng) (e : pyerror) :
  sample_sound ->
  make_updates_deletes prev file_date update_rate delete_rate late_rate
                       table g = Raised e ->
  prev <> [] /\
  (((e = PyOverflowError \/ e = PyValueError) /\
    (int_scaled (List.length prev) update_rate = inl e \/
     int_scaled (List.length prev) delete_rate = inl e)) \/
   (e = PyTypeError /\ exists r, In r prev /\ seq_not_a_number r) \/
   (e = PyAttributeError /\ table = "customers" /\
    exists r, In r prev /\ email_not_a_str r) \/
   (e = PyOverflowError /\ event_time_overflows file_date)).
Proof.
  intros Hsample H. destruct prev as [|r0 rest]; [discriminate|].
  split; [discriminate|].
  pose proof (make_updates_deletes_rates r0 rest g) as Hrates.
  cbv zeta in Hrates.
  set (n := List.length (r0 :: rest)) in *.
  destruct (int_scaled n update_rate) as [e1|ku] eqn:Eu.
  { left. rewrite Hrates in H. injection H as <-.
    split; [now apply int_scaled_error in Eu|now left]. }
  destruct (int_scaled n delete_rate) as [e1|kd] eqn:Ed.
  { left. rewrite Hrates in H. injection H as <-.
    split; [now apply int_scaled_error in Ed|now right]. }
  clear Hrates. right.
  rewrite (make_updates_deletes_unfold r0 rest g ku kd Eu Ed) in H.
  fold n in H.
  set (su := sample pydict (r0 :: rest) (sample_size 1 ku n) g) in *.
  set (sd := sample pydict (r0 :: rest) (sample_size 0 kd n) (snd su)) in *.
  destruct (Hsample pydict (r0 :: rest) (sample_size 1 ku n) g) as [Hiu _].
  destruct (Hsample pydict (r0 :: rest) (sample_size 0 kd n) (snd su))
    as [Hid _].
  fold su in Hiu. fold sd in Hid.
  apply gbind_raised in H as [H|[updates [g1 [_ H]]]].
  - apply for_each_raised in H as [r [g0 [Hr H]]]. apply Hiu in Hr.
    destruct (make_update_spec table file_date late_rate r g0)
      as [[u' [g3 [Hu' _]]]|[[Hu' Hbad]|[[Hu' [Ht Hbad]]|[Hu' Hov]]]];
      rewrite Hu' in H; try discriminate; injection H as <-.
    + left. split; [reflexivity|]. now exists r.
    + right. left. split; [reflexivity|]. split; [assumption|]. now exists r.
    + right. right. now split.
  - apply gbind_raised in H as [H|[deletes [g2 [_ H]]]]; [|discriminate].
    apply for_each_raised in H as [r [g0 [Hr H]]]. apply Hid in Hr.
    destruct (make_delete_spec file_date r g0)
      as [[u' [g3 [Hu' _]]]|[[Hu' Hbad]|[Hu' Hov]]]; rewrite Hu' in H;
      try discriminate; injection H as <-.
    + left. split; [reflexivity|]. now exists r.
    + right. right. now split.
Qed.

End UpdatesDeletes.

Lemma event_of_op {RT : Runtime} (op : string) (ks : list string)
    (r u : pydict) :
  event_of op ks r u -> pyget "op" u = Some (PyStr op).
Proof. now intros [H _]. Qed.

(** X15.  With a sound [random.sample], every row [make_updates_deletes]
    returns is an event made from one of the previous rows: updates first,
    then deletes, each with the sequence number of its source row plus one
    (2 when the source has none).  An update agrees with its source on
    every key that is neither a CDC column nor one of the mutable fields,
    a delete on every key that is not a CDC column; so an event always
    carries the identifiers of a previous row. *)
Theorem make_updates_deletes_events :
  forall (RT : Runtime) (previous_rows out : list pydict) (file_date : Z)
         (update_rate delete_rate late_rate : float) (table : string)
         (g g' : rng),
    sample_sound ->
    make_updates_deletes previous_rows file_date update_rate delete_rate
                         late_rate table g = Returned out g' ->
    exists updates deletes,
      out = updates ++ deletes /\
      Forall (fun u => exists r, In r previous_rows /\
                                 event_of "U" mutable_fields r u) updates /\
      Forall (fun u => exists r, In r previous_rows /\ event_of "D" [] r u)
             deletes.
Proof.
  intros RT prev out file_date ur dr lr table g g' Hsample H.
  destruct prev as [|r0 rest].
  - injection H as <- _. exists [], []. repeat split; constructor.
  - destruct (make_updates_deletes_returned file_date ur dr lr table
                r0 rest out g g' Hsample H)
      as [ku [kd [updates [deletes [_ [_ [E [_ [_ [Hu Hd]]]]]]]]]].
    exists updates, deletes. now repeat split.
Qed.

(** X16.  With a sound [random.sample], a call that returns for [n > 0]
    previous rows emits first [min(max(1, int(n * update_rate)), n)] rows
    with [op = "U"] and then [min(max(0, int(n * delete_rate)), n)] rows
    with [op = "D"], both products having an integer value: at least one
    update whatever the update rate, at most [n] updates and at most [n]
    deletes.  For no previous rows it returns no event and draws no random
    number. *)
Theorem make_updates_deletes_count :
  forall (RT : Runtime) (previous_rows out : list pydict) (file_date : Z)
         (update_rate delete_rate late_rate : float) (table : string)
         (g g' : rng),
    sample_sound ->
    make_updates_deletes previous_rows file_date update_rate delete_rate
                         late_rate table g = Returned out g' ->
    let n := List.length previous_rows in
    (previous_rows = [] -> out = [] /\ g' = g) /\
    (previous_rows <> [] ->
     exists k_upd k_del updates deletes,
       int_scaled n update_rate = inr k_upd /\
       int_scaled n delete_rate = inr k_del /\
       out = updates ++ deletes /\
       List.length updates = sample_size 1 k_upd n /\
       List.length deletes = sample_size 0 k_del n /\
       Forall (fun u => pyget "op" u = Some (PyStr "U")) updates /\
       Forall (fun u => pyget "op" u = Some (PyStr "D")) deletes /\
       (1 <= List.length updates <= n)%nat /\
       (List.length deletes <= n)%nat).
Proof.
  intros RT prev out file_date ur dr lr table g g' Hsample H n. split.
  - intros ->. injection H as <- <-. now split.
  - intros Hne. destruct prev as [|r0 rest]; [congruence|].
    destruct (make_updates_deletes_returned file_date ur dr lr table
                r0 rest out g g' Hsample H)
      as [ku [kd [updates [deletes [Eu [Ed [-> [Hlu [Hld [Hu Hd]]]]]]]]]].
    exists ku, kd, updates, deletes. fold n in Eu, Ed, Hlu, Hld.
    split; [assumption|]. split; [assumption|]. split; [reflexivity|].
    split; [assumption|]. split; [assumption|]. split; [|split].
    + eapply Forall_impl; [|exact Hu]. intros u [r [_ Hev]].
      now apply event_of_op in Hev.
    + eapply Forall_impl; [|exact Hd]. intros u [r [_ Hev]].
      now apply event_of_op in Hev.
    + rewrite Hlu, Hld.
      assert (1 <= n)%nat by (unfold n; simpl; lia).
      unfold sample_size. lia.
Qed.

(** X17.  With a sound [random.sample], [make_updates_deletes] raises for
    one of four reasons only, and never for an empty list of previous rows:
    an [OverflowError] or a [ValueError] when [int] cannot convert the
    product of the number of rows and the update or delete rate (an
    infinity or a NaN); a [TypeError] when the [seqNum] of a previous row is
    a str or [None]; an [AttributeError] when the table is "customers" and
    the [emailAddress] of a previous row is truthy without being a str; an
    [OverflowError] when an event time falls outside the calendar.  When
    [randint] keeps to its bounds, the file date is a date from the third
    day of the calendar on, both products have an integer value and the
    rows are free of both defects, it returns. *)
Theorem make_updates_deletes_errors :
  forall (RT : Runtime) (previous_rows : list pydict) (file_date : Z)
         (update_rate delete_rate late_rate : float) (table : string)
         (g : rng),
    sample_sound ->
    (forall e,
        make_updates_deletes previous_rows file_date update_rate delete_rate
                             late_rate table g = Raised e ->
        previous_rows <> [] /\
        (((e = PyOverflowError \/ e = PyValueError) /\
          (int_scaled (List.length previous_rows) update_rate = inl e \/
           int_scaled (List.length previous_rows) delete_rate = inl e)) \/
         (e = PyTypeError /\
          exists r, In r previous_rows /\ seq_not_a_number r) \/
         (e = PyAttributeError /\ table = "customers" /\
          exists r, In r previous_rows /\ email_not_a_str r) \/
         (e = PyOverflowError /\ event_time_overflows file_date))) /\
    (randint_in_range ->
     late_events_fit file_date ->
     (exists k, int_scaled (List.length previous_rows) update_rate = inr k) ->
     (exists k, int_scaled (List.length previous_rows) delete_rate = inr k) ->
     Forall (fun r => ~ seq_not_a_number r /\ ~ email_not_a_str r)
            previous_rows ->
     exists out g',
       make_updates_deletes previous_rows file_date update_rate delete_rate
                            late_rate table g = Returned out g').
Proof.
  intros RT prev file_date ur dr lr table g Hsample.
  assert (Hraise := make_updates_deletes_raised file_date ur dr lr table
                      prev g).
  split; [intros e; now apply Hraise|].
  intros Hrange Hfit [ku Hku] [kd Hkd] Hok.
  destruct (make_updates_deletes prev file_date ur dr lr table g)
    as [out g'|e] eqn:E; [eauto|].
  destruct (Hraise e Hsample eq_refl) as [_ Hbad].
  rewrite Forall_forall in Hok.
  destruct Hbad as [[_ [H|H]]|[[_ [r [Hr H]]]|[[_ [_ [r [Hr H]]]]|[_ H]]]].
  - congruence.
  - congruence.
  - now destruct (Hok r Hr).
  - now destruct (Hok r Hr).
  - now apply event_times_fit in H.
Qed.

(** ** The toy runtime *)

Lemma toy_randint_in_range : randint_in_range (RT := Toy.runtime).
Proof.
  intros a b g Hab. simpl.
  pose proof (Z.mod_pos_bound (hd 0 g) (b - a + 1)). lia.
Qed.

Lemma firstn_incl {A : Type} (k : nat) (l : list A) : incl (firstn k l) l.
Proof.
  revert l. induction k as [|k IH]; intros [|a l] x Hx; simpl in *;
    try contradiction.
  destruct Hx as [<-|Hx]; [now left|right; now apply IH].
Qed.

Lemma toy_sample_sound : sample_sound (RT := Toy.runtime).
Proof.
  intros A l k g. simpl. split; [apply firstn_incl|].
  intros H. now apply firstn_length_le.
Qed.

Lemma toy_late_events_fit : late_events_fit 19000.
Proof. unfold late_events_fit, date_max. lia. Qed.

Lemma toy_inserted :
  attach_insert_cdc (RT := Toy.runtime) Toy.raw_customers 19000 5 Toy.tape =
  Returned Toy.inserted [].
Proof. reflexivity. Qed.

(** On the first day of the calendar the late insert of the tape has no
    event time. *)
Lemma toy_insert_overflows :
  attach_insert_cdc (RT := Toy.runtime) Toy.raw_customers 0 5 Toy.tape =
  Raised PyOverflowError.
Proof. reflexivity. Qed.

Lemma toy_customer_events :
  make_updates_deletes (RT := Toy.runtime) [Toy.ana; Toy.luis]
    19001 15 50 5 "customers" Toy.tape2 =
  Returned Toy.customer_events [0; 600; 10; 700].
Proof. reflexivity. Qed.

Lemma toy_order_events :
  make_updates_deletes (RT := Toy.runtime) [Toy.ana; Toy.luis]
    19001 0 50 5 "orders" Toy.tape2 =
  Returned Toy.order_events [0; 600; 10; 700].
Proof. reflexivity. Qed.

Lemma attach_insert_cdc_marks_inserts_witness :
  randint_in_range (RT := Toy.runtime) /\
  late_events_fit 19000 /\
  (exists out g',
      attach_insert_cdc (RT := Toy.runtime) Toy.raw_customers 19000 5
                        Toy.tape = Returned out g') /\
  attach_insert_cdc (RT := Toy.runtime) Toy.raw_customers 0 5 Toy.tape =
    Raised PyOverflowError /\
  event_time_overflows (RT := Toy.runtime) 0.
Proof.
  split; [exact toy_randint_in_range|]. split; [exact toy_late_events_fit|].
  pose proof (attach_insert_cdc_marks_inserts Toy.runtime Toy.raw_customers
                19000 5 Toy.tape) as [_ [_ Hret]].
  split; [exact (Hret toy_randint_in_range toy_late_events_fit)|].
  split; [exact toy_insert_overflows|].
  pose proof (attach_insert_cdc_marks_inserts Toy.runtime Toy.raw_customers
                0 5 Toy.tape) as [_ [Hraise _]].
  exact (proj2 (Hraise _ toy_insert_overflows)).
Defined.

Lemma attach_insert_cdc_event_time_window_witness :
  randint_in_range (RT := Toy.runtime) /\
  Forall
    (fun rr : @pydict Toy.runtime =>
       exists t,
         pyget "eventTime" rr =
         Some (PyStr (strftime (Runtime := Toy.runtime) t)) /\
         midnight 19000 - 2 * 86400 <= t <= midnight 19000 + 86399)
    Toy.inserted.
Proof.
  split; [exact toy_randint_in_range|].
  exact (attach_insert_cdc_event_time_window Toy.runtime Toy.raw_customers
           _ 19000 5 Toy.tape _ toy_randint_in_range toy_inserted).
Defined.

Lemma make_updates_deletes_events_witness :
  sample_sound (RT := Toy.runtime) /\
  exists updates deletes,
    Toy.customer_events = updates ++ deletes /\
    Forall (fun u => exists r, In r [Toy.ana; Toy.luis] /\
                               event_of "U" mutable_fields r u) updates /\
    Forall (fun u => exists r, In r [Toy.ana; Toy.luis] /\
                               event_of "D" [] r u) deletes.
Proof.
  split; [exact toy_sample_sound|].
  exact (make_updates_deletes_events Toy.runtime [Toy.ana; Toy.luis] _ 19001
           15 50 5 "customers" Toy.tape2 _ toy_sample_sound
           toy_customer_events).
Defined.

Lemma make_updates_deletes_count_witness :
  sample_sound (RT := Toy.runtime) /\
  exists k_upd k_del updates deletes,
    int_scaled (RT := Toy.runtime) 2 0 = inr k_upd /\
    int_scaled (RT := Toy.runtime) 2 50 = inr k_del /\
    Toy.order_events = updates ++ deletes /\
    List.length updates = sample_size 1 k_upd 2 /\
    List.length deletes = sample_size 0 k_del 2 /\
    Forall (fun u : @pydict Toy.runtime => pyget "op" u = Some (PyStr "U"))
           updates /\
    Forall (fun u : @pydict Toy.runtime => pyget "op" u = Some (PyStr "D"))
           deletes /\
    (1 <= List.length updates <= 2)%nat /\
    (List.length deletes <= 2)%nat.
Proof.
  split; [exact toy_sample_sound|].
  refine (proj2 (make_updates_deletes_count Toy.runtime
                   [Toy.ana; Toy.luis] _ 19001 0 50 5 "orders"
                   Toy.tape2 _ toy_sample_sound toy_order_events) _).
  discriminate.
Defined.

Lemma make_updates_deletes_errors_witness :
  sample_sound (RT := Toy.runtime) /\
  make_updates_deletes (RT := Toy.runtime) [Toy.read_back]
    19001 15 50 5 "customers" [] = Raised PyTypeError /\
  randint_in_range (RT := Toy.runtime) /\
  late_events_fit 19001 /\
  exists out g',
    make_updates_deletes (RT := Toy.runtime) [Toy.ana; Toy.luis]
      19001 15 50 5 "customers" Toy.tape2 = Returned out g'.
Proof.
  split; [exact toy_sample_sound|].
  assert (Hrun : make_updates_deletes (RT := Toy.runtime) [Toy.read_back]
                   19001 15 50 5 "customers" [] = Raised PyTypeError)
    by reflexivity.
  split; [exact Hrun|]. split; [exact toy_randint_in_range|].
  assert (Hfit : late_events_fit 19001)
    by (unfold late_events_fit, date_max; lia).
  split; [exact Hfit|].
  refine (proj2 (make_updates_deletes_errors Toy.runtime [Toy.ana; Toy.luis]
                   19001 15 50 5 "customers" Toy.tape2 toy_sample_sound)
            toy_randint_in_range Hfit _ _ _).
  - exists 0. reflexivity.
  - exists 1. reflexivity.
  - repeat constructor; simpl; auto; discriminate.
Defined.
